(** * Dryer physics engine: collision resolver and event model

    A shallow embedding of [src/dryer/dryer-physics.js] (class
    [DryerPhysics]) together with the properties its specification states
    about it.

    Numbers.  A JavaScript number is modelled by [JS.jsnum]: a finite real,
    a signed infinity or NaN.  Finite arithmetic is exact real arithmetic
    (no rounding, no overflow or underflow, a single unsigned zero); the
    special values follow IEEE 754 as ECMAScript prescribes, so that a
    division by zero and its propagation are visible in the model.

    Rounding.  The program computes in binary64, which rounds the result
    of every operation.  The theorems are stated so that rounding does
    not decide them: a value is given as the expression the code
    evaluates, in the order in which it evaluates it; a branch is taken
    under the comparison that the code makes; and what is an identity of
    the real numbers only (a cancellation, a norm that is kept, an angle
    that is kept) is stated up to the relative tolerance [rtol], as
    [close].  Where the code takes an integer out of a rounded product
    ([DryerAudio.velocityMIDI]) the rounding is part of the model
    ([JSMath.binary64]).  The module [Binary64] runs the wall test on the
    binary64 numbers of the machine, to show at concrete inputs what
    rounding does to a statement of exact equality.

    Time.  [setTimeout] is modelled by an explicit millisecond clock and a
    list of pending timers that fire, in the order of their due times, when
    the host advances the clock between two tasks.

    Beyond the engine, the development embeds the control panel
    ([src/dryer/dryer-ui.js], class [DryerUI]: knobs and collision
    highlights), the audio engine ([src/unnamed/part_002], class
    [DryerAudio]: note assignment and the messages sent) and the
    controller that connects the three ([src/unnamed/part_000], class
    [DryerApp]).  A JavaScript [Map] is modelled by a list of entries in
    insertion order, the MIDI port and the synthesiser by the lists of
    what has been sent to them. *)

From Stdlib Require Import Reals Lra Lia ZArith Bool List String Ascii.
From Stdlib Require Import Decimal DecimalString DecimalNat.
From Stdlib Require Import QArith.
From Stdlib Require Floats.
Import ListNotations.

Open Scope R_scope.

(* ================================================================== *)
(** ** JavaScript numbers *)
(* ================================================================== *)

Module JS.

Inductive jsnum : Type :=
| Fin (r : R)
| Inf (neg : bool)
| NaN.

Definition PInf : jsnum := Inf false.

Definition Rneg (r : R) : bool := if Rlt_dec r 0 then true else false.

(** Unary minus. *)
Definition jneg (a : jsnum) : jsnum :=
  match a with
  | Fin r => Fin (- r)
  | Inf s => Inf (negb s)
  | NaN => NaN
  end.

(** [a + b] *)
Definition jadd (a b : jsnum) : jsnum :=
  match a, b with
  | Fin x, Fin y => Fin (x + y)
  | Fin _, Inf s => Inf s
  | Inf s, Fin _ => Inf s
  | Inf s, Inf t => if Bool.eqb s t then Inf s else NaN
  | _, _ => NaN
  end.

(** [a - b] *)
Definition jsub (a b : jsnum) : jsnum :=
  match a, b with
  | Fin x, Fin y => Fin (x - y)
  | Fin _, Inf s => Inf (negb s)
  | Inf s, Fin _ => Inf s
  | Inf s, Inf t => if Bool.eqb s t then NaN else Inf s
  | _, _ => NaN
  end.

(** [a * b]; zero times an infinity is NaN. *)
Definition jmul (a b : jsnum) : jsnum :=
  match a, b with
  | Fin x, Fin y => Fin (x * y)
  | Fin x, Inf s =>
      if Req_dec_T x 0 then NaN else Inf (xorb (Rneg x) s)
  | Inf s, Fin y =>
      if Req_dec_T y 0 then NaN else Inf (xorb s (Rneg y))
  | Inf s, Inf t => Inf (xorb s t)
  | _, _ => NaN
  end.

(** [a / b]; [0/0] is NaN, a non-zero finite number over zero is an
    infinity of the sign of the dividend. *)
Definition jdiv (a b : jsnum) : jsnum :=
  match a, b with
  | Fin x, Fin y =>
      if Req_dec_T y 0
      then (if Req_dec_T x 0 then NaN else Inf (Rneg x))
      else Fin (x / y)
  | Fin _, Inf _ => Fin 0
  | Inf s, Fin y => Inf (xorb s (Rneg y))
  | Inf _, Inf _ => NaN
  | _, _ => NaN
  end.

(** [Math.sqrt] *)
Definition jsqrt (a : jsnum) : jsnum :=
  match a with
  | Fin r => if Rlt_dec r 0 then NaN else Fin (sqrt r)
  | Inf false => Inf false
  | Inf true => NaN
  | NaN => NaN
  end.

(** [Math.abs] *)
Definition jabs (a : jsnum) : jsnum :=
  match a with
  | Fin r => Fin (Rabs r)
  | Inf _ => Inf false
  | NaN => NaN
  end.

(** [Math.cos], [Math.sin], [Math.exp] *)
Definition jcos (a : jsnum) : jsnum :=
  match a with Fin r => Fin (cos r) | _ => NaN end.

Definition jsin (a : jsnum) : jsnum :=
  match a with Fin r => Fin (sin r) | _ => NaN end.

Definition jexp (a : jsnum) : jsnum :=
  match a with
  | Fin r => Fin (exp r)
  | Inf false => Inf false
  | Inf true => Fin 0
  | NaN => NaN
  end.

(** [Math.floor] *)
Definition jfloor (a : jsnum) : jsnum :=
  match a with
  | Fin r => Fin (IZR (Int_part r))
  | _ => a
  end.

(** Truncation toward zero of a real quotient. *)
Definition Rtrunc (q : R) : Z :=
  if Rlt_dec q 0 then (- Int_part (- q))%Z else Int_part q.

(** [a % b]: the remainder has the sign of the dividend. *)
Definition jmod (a b : jsnum) : jsnum :=
  match a, b with
  | Fin x, Fin y =>
      if Req_dec_T y 0 then NaN else Fin (x - y * IZR (Rtrunc (x / y)))
  | Fin x, Inf _ => Fin x
  | _, _ => NaN
  end.

(** The two-argument arctangent on reals, with the value 0 at the origin. *)
Definition Ratan2 (y x : R) : R :=
  if Rlt_dec 0 x then atan (y / x)
  else if Rlt_dec x 0 then
         (if Rlt_dec y 0 then atan (y / x) - PI else atan (y / x) + PI)
       else if Rlt_dec 0 y then PI / 2
            else if Rlt_dec y 0 then - PI / 2
                 else 0.

(** [Math.atan2(y, x)] *)
Definition jatan2 (y x : jsnum) : jsnum :=
  match y, x with
  | Fin b, Fin a => Fin (Ratan2 b a)
  | Fin b, Inf false => Fin 0
  | Fin b, Inf true => if Rlt_dec b 0 then Fin (- PI) else Fin PI
  | Inf s, Fin _ => if s then Fin (- PI / 2) else Fin (PI / 2)
  | Inf s, Inf false => if s then Fin (- PI / 4) else Fin (PI / 4)
  | Inf s, Inf true => if s then Fin (- (3 * PI / 4)) else Fin (3 * PI / 4)
  | _, _ => NaN
  end.

(** Comparisons; every comparison with NaN is false. *)
Definition jlt (a b : jsnum) : bool :=
  match a, b with
  | Fin x, Fin y => if Rlt_dec x y then true else false
  | Fin _, Inf s => negb s
  | Inf s, Fin _ => s
  | Inf s, Inf t => s && negb t
  | _, _ => false
  end.

Definition jle (a b : jsnum) : bool :=
  match a, b with
  | Fin x, Fin y => if Rle_dec x y then true else false
  | Fin _, Inf s => negb s
  | Inf s, Fin _ => s
  | Inf s, Inf t => s || negb t
  | _, _ => false
  end.

Definition jgt (a b : jsnum) : bool := jlt b a.
Definition jge (a b : jsnum) : bool := jle b a.

(** Strict equality [a === b] on numbers. *)
Definition jeq (a b : jsnum) : bool :=
  match a, b with
  | Fin x, Fin y => if Req_dec_T x y then true else false
  | Inf s, Inf t => Bool.eqb s t
  | _, _ => false
  end.

(** Truthiness of a number, and [a || b] on numbers. *)
Definition truthy (a : jsnum) : bool :=
  match a with
  | Fin r => if Req_dec_T r 0 then false else true
  | Inf _ => true
  | NaN => false
  end.

Definition jor (a b : jsnum) : jsnum := if truthy a then a else b.

Definition jPI : jsnum := Fin PI.

(** The loop counter [i] of a [for] loop as a number. *)
Definition ofNat (i : nat) : jsnum := Fin (INR i).

(** Number of iterations of [for (let i = 0; i < n; i++)]: the least
    natural number that is not below [n]; [None] when the loop never
    ends ([n] is [+Infinity]). *)
Definition tripCount (n : jsnum) : option nat :=
  match n with
  | Fin r => Some (Z.to_nat (- Int_part (- r)))
  | Inf true => Some 0%nat
  | Inf false => None
  | NaN => Some 0%nat
  end.

(** Template-literal rendering of a loop counter. *)
Definition natToString (n : nat) : string :=
  NilEmpty.string_of_uint (Nat.to_uint n).

End JS.

Import JS.

Declare Scope js_scope.
Delimit Scope js_scope with js.
Bind Scope js_scope with jsnum.
Infix "+" := jadd : js_scope.
Infix "-" := jsub : js_scope.
Infix "*" := jmul : js_scope.
Infix "/" := jdiv : js_scope.
Notation "- x" := (jneg x) : js_scope.
Infix "<?" := jlt (at level 70, no associativity) : js_scope.
Infix "<=?" := jle (at level 70, no associativity) : js_scope.
Infix ">?" := jgt (at level 70, no associativity) : js_scope.
Infix ">=?" := jge (at level 70, no associativity) : js_scope.
Infix "===" := jeq (at level 70, no associativity) : js_scope.
Infix "%%" := jmod (at level 40, left associativity) : js_scope.

(* ================================================================== *)
(** ** Data model *)
(* ================================================================== *)

Local Open Scope string_scope.

(** [type] of a surface: ['drum'], ['vane_leading'], ['vane_trailing']. *)
Inductive SurfaceType : Type := drum | vane_leading | vane_trailing.

Definition SurfaceType_eqb (a b : SurfaceType) : bool :=
  match a, b with
  | drum, drum | vane_leading, vane_leading
  | vane_trailing, vane_trailing => true
  | _, _ => false
  end.

Record Surface : Type := mkSurface {
  surf_type : SurfaceType;
  surf_id : string;
  surf_index : jsnum;
  surf_color : string
}.

(** A registered collision callback, named by its registration number. *)
Definition Listener : Type := nat.

(** One invocation [cb(surface, velocity)] of a listener. *)
Record Call : Type := mkCall {
  call_listener : Listener;
  call_surface : Surface;
  call_velocity : jsnum
}.

(** A pending [setTimeout] callback of [triggerCollision]: the time (ms)
    at which it is due and the surface id its closure captured. *)
Definition Timer : Type := (Z * string)%type.

(** [this.ball]: position, velocity and the properties of the ball (the
    getter [area] is the function [area] below). *)
Record Ball : Type := mkBall {
  ball_x : jsnum;
  ball_y : jsnum;
  ball_vx : jsnum;
  ball_vy : jsnum;
  radius : jsnum;
  mass : jsnum;
  restitution : jsnum;
  dragCoeff : jsnum
}.

(** Field updates of [Ball]. *)
Definition set_ball_x (v : jsnum) (b : Ball) : Ball :=
  mkBall v (ball_y b) (ball_vx b) (ball_vy b) (radius b) (mass b)
    (restitution b) (dragCoeff b).

Definition set_ball_y (v : jsnum) (b : Ball) : Ball :=
  mkBall (ball_x b) v (ball_vx b) (ball_vy b) (radius b) (mass b)
    (restitution b) (dragCoeff b).

Definition set_ball_vx (v : jsnum) (b : Ball) : Ball :=
  mkBall (ball_x b) (ball_y b) v (ball_vy b) (radius b) (mass b)
    (restitution b) (dragCoeff b).

Definition set_ball_vy (v : jsnum) (b : Ball) : Ball :=
  mkBall (ball_x b) (ball_y b) (ball_vx b) v (radius b) (mass b)
    (restitution b) (dragCoeff b).

Definition set_radius (v : jsnum) (b : Ball) : Ball :=
  mkBall (ball_x b) (ball_y b) (ball_vx b) (ball_vy b) v (mass b)
    (restitution b) (dragCoeff b).

Definition set_mass (v : jsnum) (b : Ball) : Ball :=
  mkBall (ball_x b) (ball_y b) (ball_vx b) (ball_vy b) (radius b) v
    (restitution b) (dragCoeff b).

Definition set_restitution (v : jsnum) (b : Ball) : Ball :=
  mkBall (ball_x b) (ball_y b) (ball_vx b) (ball_vy b) (radius b) (mass b) v
    (dragCoeff b).

Definition set_dragCoeff (v : jsnum) (b : Ball) : Ball :=
  mkBall (ball_x b) (ball_y b) (ball_vx b) (ball_vy b) (radius b) (mass b)
    (restitution b) v.

(** [this.debugInfo] *)
Record DebugInfo : Type := mkDebugInfo {
  centrifugalMagnitude : jsnum;
  coriolisMagnitude : jsnum;
  dragMagnitude : jsnum;
  totalVelocity : jsnum
}.

(** Field updates of [DebugInfo]. *)
Definition set_centrifugalMagnitude (v : jsnum) (d : DebugInfo) : DebugInfo :=
  mkDebugInfo v (coriolisMagnitude d) (dragMagnitude d) (totalVelocity d).

Definition set_coriolisMagnitude (v : jsnum) (d : DebugInfo) : DebugInfo :=
  mkDebugInfo (centrifugalMagnitude d) v (dragMagnitude d) (totalVelocity d).

Definition set_dragMagnitude (v : jsnum) (d : DebugInfo) : DebugInfo :=
  mkDebugInfo (centrifugalMagnitude d) (coriolisMagnitude d) v
    (totalVelocity d).

Definition set_totalVelocity (v : jsnum) (d : DebugInfo) : DebugInfo :=
  mkDebugInfo (centrifugalMagnitude d) (coriolisMagnitude d)
    (dragMagnitude d) v.

(** The fields of [DryerPhysics], in the order of the constructor.  The
    last three are the host environment the class acts on: the clock, the
    pending timers and the log of listener invocations. *)
Record DryerPhysics : Type := mkDryerPhysics {
  rpm : jsnum;
  drumRadius : jsnum;
  vaneCount : jsnum;
  vaneHeight : jsnum;
  ball : Ball;
  gravity : jsnum;
  earthGravity : jsnum;
  moonGravity : jsnum;
  airDensity : jsnum;
  lintTrapEnabled : bool;
  lintTrapThreshold : jsnum;
  moonGravityEnabled : bool;
  useQuadraticDrag : bool;
  drumAngle : jsnum;
  drumAngularVelocity : jsnum;
  segmentIndexOffset : jsnum;
  enableCoriolis : bool;
  enableCentrifugal : bool;
  enableAirDrag : bool;
  coriolisSignFlip : jsnum;
  surfaces : list Surface;
  lastCollisionSurface : option string;
  collisionCallbacks : list Listener;
  debugInfo : DebugInfo;
  clock : Z;
  timers : list Timer;
  calls : list Call
}.

(** Field updates of [DryerPhysics]. *)
Definition set_rpm (v : jsnum) (s : DryerPhysics) : DryerPhysics :=
  mkDryerPhysics v (drumRadius s) (vaneCount s) (vaneHeight s) (ball s)
    (gravity s) (earthGravity s) (moonGravity s) (airDensity s)
    (lintTrapEnabled s) (lintTrapThreshold s) (moonGravityEnabled s)
    (useQuadraticDrag s) (drumAngle s) (drumAngularVelocity s)
    (segmentIndexOffset s) (enableCoriolis s) (enableCentrifugal s)
    (enableAirDrag s) (coriolisSignFlip s) (surfaces s)
    (lastCollisionSurface s) (collisionCallbacks s) (debugInfo s) (clock s)
    (timers s) (calls s).

Definition set_drumRadius (v : jsnum) (s : DryerPhysics) : DryerPhysics :=
  mkDryerPhysics (rpm s) v (vaneCount s) (vaneHeight s) (ball s) (gravity s)
    (earthGravity s) (moonGravity s) (airDensity s) (lintTrapEnabled s)
    (lintTrapThreshold s) (moonGravityEnabled s) (useQuadraticDrag s)
    (drumAngle s) (drumAngularVelocity s) (segmentIndexOffset s)
    (enableCoriolis s) (enableCentrifugal s) (enableAirDrag s)
    (coriolisSignFlip s) (surfaces s) (lastCollisionSurface s)
    (collisionCallbacks s) (debugInfo s) (clock s) (timers s) (calls s).

Definition set_vaneCount (v : jsnum) (s : DryerPhysics) : DryerPhysics :=
  mkDryerPhysics (rpm s) (drumRadius s) v (vaneHeight s) (ball s)
    (gravity s) (earthGravity s) (moonGravity s) (airDensity s)
    (lintTrapEnabled s) (lintTrapThreshold s) (moonGravityEnabled s)
    (useQuadraticDrag s) (drumAngle s) (drumAngularVelocity s)
    (segmentIndexOffset s) (enableCoriolis s) (enableCentrifugal s)
    (enableAirDrag s) (coriolisSignFlip s) (surfaces s)
    (lastCollisionSurface s) (collisionCallbacks s) (debugInfo s) (clock s)
    (timers s) (calls s).

Definition set_vaneHeight (v : jsnum) (s : DryerPhysics) : DryerPhysics :=
  mkDryerPhysics (rpm s) (drumRadius s) (vaneCount s) v (ball s) (gravity s)
    (earthGravity s) (moonGravity s) (airDensity s) (lintTrapEnabled s)
    (lintTrapThreshold s) (moonGravityEnabled s) (useQuadraticDrag s)
    (drumAngle s) (drumAngularVelocity s) (segmentIndexOffset s)
    (enableCoriolis s) (enableCentrifugal s) (enableAirDrag s)
    (coriolisSignFlip s) (surfaces s) (lastCollisionSurface s)
    (collisionCallbacks s) (debugInfo s) (clock s) (timers s) (calls s).

Definition set_ball (v : Ball) (s : DryerPhysics) : DryerPhysics :=
  mkDryerPhysics (rpm s) (drumRadius s) (vaneCount s) (vaneHeight s) v
    (gravity s) (earthGravity s) (moonGravity s) (airDensity s)
    (lintTrapEnabled s) (lintTrapThreshold s) (moonGravityEnabled s)
    (useQuadraticDrag s) (drumAngle s) (drumAngularVelocity s)
    (segmentIndexOffset s) (enableCoriolis s) (enableCentrifugal s)
    (enableAirDrag s) (coriolisSignFlip s) (surfaces s)
    (lastCollisionSurface s) (collisionCallbacks s) (debugInfo s) (clock s)
    (timers s) (calls s).

Definition set_gravity (v : jsnum) (s : DryerPhysics) : DryerPhysics :=
  mkDryerPhysics (rpm s) (drumRadius s) (vaneCount s) (vaneHeight s)
    (ball s) v (earthGravity s) (moonGravity s) (airDensity s)
    (lintTrapEnabled s) (lintTrapThreshold s) (moonGravityEnabled s)
    (useQuadraticDrag s) (drumAngle s) (drumAngularVelocity s)
    (segmentIndexOffset s) (enableCoriolis s) (enableCentrifugal s)
    (enableAirDrag s) (coriolisSignFlip s) (surfaces s)
    (lastCollisionSurface s) (collisionCallbacks s) (debugInfo s) (clock s)
    (timers s) (calls s).

Definition set_lintTrapEnabled (v : bool) (s : DryerPhysics) : DryerPhysics :=
  mkDryerPhysics (rpm s) (drumRadius s) (vaneCount s) (vaneHeight s)
    (ball s) (gravity s) (earthGravity s) (moonGravity s) (airDensity s) v
    (lintTrapThreshold s) (moonGravityEnabled s) (useQuadraticDrag s)
    (drumAngle s) (drumAngularVelocity s) (segmentIndexOffset s)
    (enableCoriolis s) (enableCentrifugal s) (enableAirDrag s)
    (coriolisSignFlip s) (surfaces s) (lastCollisionSurface s)
    (collisionCallbacks s) (debugInfo s) (clock s) (timers s) (calls s).

Definition set_moonGravityEnabled (v : bool) (s : DryerPhysics)
  : DryerPhysics :=
  mkDryerPhysics (rpm s) (drumRadius s) (vaneCount s) (vaneHeight s)
    (ball s) (gravity s) (earthGravity s) (moonGravity s) (airDensity s)
    (lintTrapEnabled s) (lintTrapThreshold s) v (useQuadraticDrag s)
    (drumAngle s) (drumAngularVelocity s) (segmentIndexOffset s)
    (enableCoriolis s) (enableCentrifugal s) (enableAirDrag s)
    (coriolisSignFlip s) (surfaces s) (lastCollisionSurface s)
    (collisionCallbacks s) (debugInfo s) (clock s) (timers s) (calls s).

Definition set_useQuadraticDrag (v : bool) (s : DryerPhysics)
  : DryerPhysics :=
  mkDryerPhysics (rpm s) (drumRadius s) (vaneCount s) (vaneHeight s)
    (ball s) (gravity s) (earthGravity s) (moonGravity s) (airDensity s)
    (lintTrapEnabled s) (lintTrapThreshold s) (moonGravityEnabled s) v
    (drumAngle s) (drumAngularVelocity s) (segmentIndexOffset s)
    (enableCoriolis s) (enableCentrifugal s) (enableAirDrag s)
    (coriolisSignFlip s) (surfaces s) (lastCollisionSurface s)
    (collisionCallbacks s) (debugInfo s) (clock s) (timers s) (calls s).

Definition set_drumAngle (v : jsnum) (s : DryerPhysics) : DryerPhysics :=
  mkDryerPhysics (rpm s) (drumRadius s) (vaneCount s) (vaneHeight s)
    (ball s) (gravity s) (earthGravity s) (moonGravity s) (airDensity s)
    (lintTrapEnabled s) (lintTrapThreshold s) (moonGravityEnabled s)
    (useQuadraticDrag s) v (drumAngularVelocity s) (segmentIndexOffset s)
    (enableCoriolis s) (enableCentrifugal s) (enableAirDrag s)
    (coriolisSignFlip s) (surfaces s) (lastCollisionSurface s)
    (collisionCallbacks s) (debugInfo s) (clock s) (timers s) (calls s).

Definition set_drumAngularVelocity (v : jsnum) (s : DryerPhysics)
  : DryerPhysics :=
  mkDryerPhysics (rpm s) (drumRadius s) (vaneCount s) (vaneHeight s)
    (ball s) (gravity s) (earthGravity s) (moonGravity s) (airDensity s)
    (lintTrapEnabled s) (lintTrapThreshold s) (moonGravityEnabled s)
    (useQuadraticDrag s) (drumAngle s) v (segmentIndexOffset s)
    (enableCoriolis s) (enableCentrifugal s) (enableAirDrag s)
    (coriolisSignFlip s) (surfaces s) (lastCollisionSurface s)
    (collisionCallbacks s) (debugInfo s) (clock s) (timers s) (calls s).

Definition set_segmentIndexOffset (v : jsnum) (s : DryerPhysics)
  : DryerPhysics :=
  mkDryerPhysics (rpm s) (drumRadius s) (vaneCount s) (vaneHeight s)
    (ball s) (gravity s) (earthGravity s) (moonGravity s) (airDensity s)
    (lintTrapEnabled s) (lintTrapThreshold s) (moonGravityEnabled s)
    (useQuadraticDrag s) (drumAngle s) (drumAngularVelocity s) v
    (enableCoriolis s) (enableCentrifugal s) (enableAirDrag s)
    (coriolisSignFlip s) (surfaces s) (lastCollisionSurface s)
    (collisionCallbacks s) (debugInfo s) (clock s) (timers s) (calls s).

Definition set_enableCoriolis (v : bool) (s : DryerPhysics) : DryerPhysics :=
  mkDryerPhysics (rpm s) (drumRadius s) (vaneCount s) (vaneHeight s)
    (ball s) (gravity s) (earthGravity s) (moonGravity s) (airDensity s)
    (lintTrapEnabled s) (lintTrapThreshold s) (moonGravityEnabled s)
    (useQuadraticDrag s) (drumAngle s) (drumAngularVelocity s)
    (segmentIndexOffset s) v (enableCentrifugal s) (enableAirDrag s)
    (coriolisSignFlip s) (surfaces s) (lastCollisionSurface s)
    (collisionCallbacks s) (debugInfo s) (clock s) (timers s) (calls s).

Definition set_enableCentrifugal (v : bool) (s : DryerPhysics)
  : DryerPhysics :=
  mkDryerPhysics (rpm s) (drumRadius s) (vaneCount s) (vaneHeight s)
    (ball s) (gravity s) (earthGravity s) (moonGravity s) (airDensity s)
    (lintTrapEnabled s) (lintTrapThreshold s) (moonGravityEnabled s)
    (useQuadraticDrag s) (drumAngle s) (drumAngularVelocity s)
    (segmentIndexOffset s) (enableCoriolis s) v (enableAirDrag s)
    (coriolisSignFlip s) (surfaces s) (lastCollisionSurface s)
    (collisionCallbacks s) (debugInfo s) (clock s) (timers s) (calls s).

Definition set_enableAirDrag (v : bool) (s : DryerPhysics) : DryerPhysics :=
  mkDryerPhysics (rpm s) (drumRadius s) (vaneCount s) (vaneHeight s)
    (ball s) (gravity s) (earthGravity s) (moonGravity s) (airDensity s)
    (lintTrapEnabled s) (lintTrapThreshold s) (moonGravityEnabled s)
    (useQuadraticDrag s) (drumAngle s) (drumAngularVelocity s)
    (segmentIndexOffset s) (enableCoriolis s) (enableCentrifugal s) v
    (coriolisSignFlip s) (surfaces s) (lastCollisionSurface s)
    (collisionCallbacks s) (debugInfo s) (clock s) (timers s) (calls s).

Definition set_coriolisSignFlip (v : jsnum) (s : DryerPhysics)
  : DryerPhysics :=
  mkDryerPhysics (rpm s) (drumRadius s) (vaneCount s) (vaneHeight s)
    (ball s) (gravity s) (earthGravity s) (moonGravity s) (airDensity s)
    (lintTrapEnabled s) (lintTrapThreshold s) (moonGravityEnabled s)
    (useQuadraticDrag s) (drumAngle s) (drumAngularVelocity s)
    (segmentIndexOffset s) (enableCoriolis s) (enableCentrifugal s)
    (enableAirDrag s) v (surfaces s) (lastCollisionSurface s)
    (collisionCallbacks s) (debugInfo s) (clock s) (timers s) (calls s).

Definition set_surfaces (v : list Surface) (s : DryerPhysics)
  : DryerPhysics :=
  mkDryerPhysics (rpm s) (drumRadius s) (vaneCount s) (vaneHeight s)
    (ball s) (gravity s) (earthGravity s) (moonGravity s) (airDensity s)
    (lintTrapEnabled s) (lintTrapThreshold s) (moonGravityEnabled s)
    (useQuadraticDrag s) (drumAngle s) (drumAngularVelocity s)
    (segmentIndexOffset s) (enableCoriolis s) (enableCentrifugal s)
    (enableAirDrag s) (coriolisSignFlip s) v (lastCollisionSurface s)
    (collisionCallbacks s) (debugInfo s) (clock s) (timers s) (calls s).

Definition set_lastCollisionSurface (v : option string) (s : DryerPhysics)
  : DryerPhysics :=
  mkDryerPhysics (rpm s) (drumRadius s) (vaneCount s) (vaneHeight s)
    (ball s) (gravity s) (earthGravity s) (moonGravity s) (airDensity s)
    (lintTrapEnabled s) (lintTrapThreshold s) (moonGravityEnabled s)
    (useQuadraticDrag s) (drumAngle s) (drumAngularVelocity s)
    (segmentIndexOffset s) (enableCoriolis s) (enableCentrifugal s)
    (enableAirDrag s) (coriolisSignFlip s) (surfaces s) v
    (collisionCallbacks s) (debugInfo s) (clock s) (timers s) (calls s).

Definition set_collisionCallbacks (v : list Listener) (s : DryerPhysics)
  : DryerPhysics :=
  mkDryerPhysics (rpm s) (drumRadius s) (vaneCount s) (vaneHeight s)
    (ball s) (gravity s) (earthGravity s) (moonGravity s) (airDensity s)
    (lintTrapEnabled s) (lintTrapThreshold s) (moonGravityEnabled s)
    (useQuadraticDrag s) (drumAngle s) (drumAngularVelocity s)
    (segmentIndexOffset s) (enableCoriolis s) (enableCentrifugal s)
    (enableAirDrag s) (coriolisSignFlip s) (surfaces s)
    (lastCollisionSurface s) v (debugInfo s) (clock s) (timers s) (calls s).

Definition set_debugInfo (v : DebugInfo) (s : DryerPhysics) : DryerPhysics :=
  mkDryerPhysics (rpm s) (drumRadius s) (vaneCount s) (vaneHeight s)
    (ball s) (gravity s) (earthGravity s) (moonGravity s) (airDensity s)
    (lintTrapEnabled s) (lintTrapThreshold s) (moonGravityEnabled s)
    (useQuadraticDrag s) (drumAngle s) (drumAngularVelocity s)
    (segmentIndexOffset s) (enableCoriolis s) (enableCentrifugal s)
    (enableAirDrag s) (coriolisSignFlip s) (surfaces s)
    (lastCollisionSurface s) (collisionCallbacks s) v (clock s) (timers s)
    (calls s).

Definition set_clock (v : Z) (s : DryerPhysics) : DryerPhysics :=
  mkDryerPhysics (rpm s) (drumRadius s) (vaneCount s) (vaneHeight s)
    (ball s) (gravity s) (earthGravity s) (moonGravity s) (airDensity s)
    (lintTrapEnabled s) (lintTrapThreshold s) (moonGravityEnabled s)
    (useQuadraticDrag s) (drumAngle s) (drumAngularVelocity s)
    (segmentIndexOffset s) (enableCoriolis s) (enableCentrifugal s)
    (enableAirDrag s) (coriolisSignFlip s) (surfaces s)
    (lastCollisionSurface s) (collisionCallbacks s) (debugInfo s) v
    (timers s) (calls s).

Definition set_timers (v : list Timer) (s : DryerPhysics) : DryerPhysics :=
  mkDryerPhysics (rpm s) (drumRadius s) (vaneCount s) (vaneHeight s)
    (ball s) (gravity s) (earthGravity s) (moonGravity s) (airDensity s)
    (lintTrapEnabled s) (lintTrapThreshold s) (moonGravityEnabled s)
    (useQuadraticDrag s) (drumAngle s) (drumAngularVelocity s)
    (segmentIndexOffset s) (enableCoriolis s) (enableCentrifugal s)
    (enableAirDrag s) (coriolisSignFlip s) (surfaces s)
    (lastCollisionSurface s) (collisionCallbacks s) (debugInfo s) (clock s)
    v (calls s).

Definition set_calls (v : list Call) (s : DryerPhysics) : DryerPhysics :=
  mkDryerPhysics (rpm s) (drumRadius s) (vaneCount s) (vaneHeight s)
    (ball s) (gravity s) (earthGravity s) (moonGravity s) (airDensity s)
    (lintTrapEnabled s) (lintTrapThreshold s) (moonGravityEnabled s)
    (useQuadraticDrag s) (drumAngle s) (drumAngularVelocity s)
    (segmentIndexOffset s) (enableCoriolis s) (enableCentrifugal s)
    (enableAirDrag s) (coriolisSignFlip s) (surfaces s)
    (lastCollisionSurface s) (collisionCallbacks s) (debugInfo s) (clock s)
    (timers s) v.


(* ================================================================== *)
(** ** Operations *)
(* ================================================================== *)

Local Open Scope js_scope.

(** [for (let i = 0; i < n; i++) body]; none of the loop bodies below
    writes the bound [n] it is used with. *)
Definition forLoop {S : Type} (n : jsnum) (body : nat -> S -> S) (s : S)
  : option S :=
  match tripCount n with
  | Some k => Some (fold_left (fun acc i => body i acc) (seq 0 k) s)
  | None => None
  end.

Definition colors : list string :=
  [ "#ff6b6b"; "#4ecdc4"; "#ffe66d"; "#a8e6cf";
    "#ff8b94"; "#c7ceea"; "#ffd3b6"; "#ffaaa5";
    "#dcedc1"; "#a8d8ea"; "#ffccf9"; "#b4f8c8" ].

(** [getSurfaceColor]; its callers pass [i * 2] and [i * 2 + 1] for the
    loop counter [i], so the index is a natural number. *)
Definition getSurfaceColor (index : nat) : string :=
  List.nth (index mod List.length colors) colors "".

(** The three surfaces pushed by one iteration of [updateSurfaces]. *)
Definition surfacesOf (i : nat) : list Surface :=
  [ mkSurface drum ("drum_" ++ natToString i) (ofNat i)
      (getSurfaceColor (i * 2));
    mkSurface vane_leading ("vane_" ++ natToString i ++ "_lead") (ofNat i)
      (getSurfaceColor (i * 2 + 1));
    mkSurface vane_trailing ("vane_" ++ natToString i ++ "_trail") (ofNat i)
      (getSurfaceColor (i * 2 + 1)) ].

Definition updateSurfaces (s : DryerPhysics) : option DryerPhysics :=
  forLoop (vaneCount s)
    (fun i s => set_surfaces (surfaces s ++ surfacesOf i)%list s)
    (set_surfaces [] s).

Definition setParameters (rpm drumSizeCm vaneCount vaneHeightPercent : jsnum)
    (s : DryerPhysics) : option DryerPhysics :=
  let s := set_rpm rpm s in
  let s := set_drumRadius (drumSizeCm / Fin 100) s in
  let s := set_vaneCount (jfloor vaneCount) s in
  let s := set_vaneHeight (vaneHeightPercent / Fin 100) s in
  let s := set_drumAngularVelocity ((rpm * Fin 2 * jPI) / Fin 60) s in
  updateSurfaces s.

(** [setBallProperties]; [None] stands for an argument left [undefined]. *)
Definition setBallProperties (radius mass restitution dragCoeff : option jsnum)
    (s : DryerPhysics) : DryerPhysics :=
  let upd (f : jsnum -> Ball -> Ball) (o : option jsnum) (b : Ball) :=
    match o with Some v => f v b | None => b end in
  set_ball
    (upd set_dragCoeff dragCoeff
       (upd set_restitution restitution
          (upd set_mass mass (upd set_radius radius (ball s))))) s.

Definition setTennisBall : DryerPhysics -> DryerPhysics :=
  setBallProperties (Some (Fin 0.035)) (Some (Fin 0.058)) (Some (Fin 0.75))
    (Some (Fin 0.55)).

Definition setBalloonBall : DryerPhysics -> DryerPhysics :=
  setBallProperties (Some (Fin 0.075)) (Some (Fin 0.001)) (Some (Fin 0.10))
    (Some (Fin 0.47)).

Definition setLintTrap (enabled : bool) (s : DryerPhysics) : DryerPhysics :=
  set_lintTrapEnabled enabled s.

Definition setMoonGravity (enabled : bool) (s : DryerPhysics) : DryerPhysics :=
  let s := set_moonGravityEnabled enabled s in
  set_gravity (if enabled then moonGravity s else earthGravity s) s.

(** Assignments to the fields of [this.ball]. *)
Definition assign_x (v : jsnum) (s : DryerPhysics) : DryerPhysics :=
  set_ball (set_ball_x v (ball s)) s.
Definition assign_y (v : jsnum) (s : DryerPhysics) : DryerPhysics :=
  set_ball (set_ball_y v (ball s)) s.
Definition assign_vx (v : jsnum) (s : DryerPhysics) : DryerPhysics :=
  set_ball (set_ball_vx v (ball s)) s.
Definition assign_vy (v : jsnum) (s : DryerPhysics) : DryerPhysics :=
  set_ball (set_ball_vy v (ball s)) s.

(** The console helpers [toggleCoriolis], [toggleCentrifugal], [toggleDrag],
    [toggleQuadraticDrag]; [None] stands for a call without argument. *)
Definition toggled (enable : option bool) (current : bool) : bool :=
  match enable with Some e => e | None => negb current end.

Definition toggleCoriolis (enable : option bool) (s : DryerPhysics)
  : DryerPhysics :=
  set_enableCoriolis (toggled enable (enableCoriolis s)) s.

Definition toggleCentrifugal (enable : option bool) (s : DryerPhysics)
  : DryerPhysics :=
  set_enableCentrifugal (toggled enable (enableCentrifugal s)) s.

Definition toggleDrag (enable : option bool) (s : DryerPhysics)
  : DryerPhysics :=
  set_enableAirDrag (toggled enable (enableAirDrag s)) s.


Definition reset (s : DryerPhysics) : DryerPhysics :=
  let s := assign_x (drumRadius s * Fin 0.3) s in
  let s := assign_y (Fin 0) s in
  let s := assign_vx (Fin 0) s in
  let s := assign_vy (Fin 0) s in
  set_drumAngle (Fin 0) s.

Definition onCollision (callback : Listener) (s : DryerPhysics)
  : DryerPhysics :=
  set_collisionCallbacks (collisionCallbacks s ++ [callback])%list s.

(** The object built by [new DryerPhysics()] at time [now], before
    [reset()] and [updateSurfaces()] run. *)
Definition fields0 (now : Z) : DryerPhysics :=
  mkDryerPhysics
    (Fin 20) (Fin 0.80) (Fin 5) (Fin 0.30)
    (mkBall (Fin 0) (Fin 0) (Fin 0) (Fin 0)
       (Fin 0.035) (Fin 0.058) (Fin 0.75) (Fin 0.55))
    (Fin 9.81) (Fin 9.81) (Fin 1.635) (Fin 1.225)
    false (Fin 0.15) false
    false
    (Fin 0) (Fin 0)
    (Fin 0)
    true true true (Fin 1)
    [] None []
    (mkDebugInfo (Fin 0) (Fin 0) (Fin 0) (Fin 0))
    now [] [].

Definition constructor (now : Z) : option DryerPhysics :=
  updateSurfaces (reset (fields0 now)).

(** [this.lastCollisionSurface === id] *)
Definition slotIs (slot : option string) (id : string) : bool :=
  match slot with
  | Some id' => String.eqb id' id
  | None => false
  end.

(** [triggerCollision(surface, velocity)].  The timer closure is recorded
    with the id it captured and the time at which it is due. *)
Definition triggerCollision (surface : Surface) (velocity : jsnum)
    (s : DryerPhysics) : DryerPhysics :=
  if lintTrapEnabled s && (velocity <? lintTrapThreshold s) then s
  else if slotIs (lastCollisionSurface s) (surf_id surface) then s
  else
    let s := set_lastCollisionSurface (Some (surf_id surface)) s in
    let s :=
      set_timers (timers s ++ [((clock s + 50)%Z, surf_id surface)])%list s in
    set_calls
      (calls s ++
       map (fun cb => mkCall cb surface velocity) (collisionCallbacks s))%list
      s.

(** The body of the timer callback set by [triggerCollision]. *)
Definition timerCallback (id : string) (s : DryerPhysics) : DryerPhysics :=
  if slotIs (lastCollisionSurface s) id
  then set_lastCollisionSurface None s
  else s.

(** The host advances the clock to [now] between two tasks: the timers
    that are due run, oldest first, and leave the pending list. *)
Definition runTimers (now : Z) (s : DryerPhysics) : DryerPhysics :=
  let due := filter (fun t => (fst t <=? now)%Z) (timers s) in
  let rest := filter (fun t => negb (fst t <=? now)%Z) (timers s) in
  let s := set_clock now (set_timers rest s) in
  fold_left (fun acc t => timerCallback (snd t) acc) due s.

(** The block of [handleCollisions] guarded by [vn < 0] ("Moving into
    wall"): segment classification, reflection, notification.  It runs
    after the ball has been moved back, and reads the moved position. *)
Definition wallImpact (nx ny vn : jsnum) (s : DryerPhysics) : DryerPhysics :=
  let ballAngle := jatan2 (ball_y (ball s)) (ball_x (ball s)) in
  let anglePerSegment := (Fin 2 * jPI) / vaneCount s in
  let normalizedAngle :=
    if ballAngle <? Fin 0 then ballAngle + Fin 2 * jPI else ballAngle in
  let segmentIndex :=
    jfloor (normalizedAngle / anglePerSegment) %% vaneCount s in
  let s :=
    assign_vx (ball_vx (ball s) - (Fin 1 + restitution (ball s)) * vn * nx) s in
  let s :=
    assign_vy (ball_vy (ball s) - (Fin 1 + restitution (ball s)) * vn * ny) s in
  let segmentIndex := (segmentIndex + segmentIndexOffset s) %% vaneCount s in
  let segmentIndex :=
    if segmentIndex <? Fin 0 then segmentIndex + vaneCount s
    else segmentIndex in
  match find (fun sf => SurfaceType_eqb (surf_type sf) drum
                        && (surf_index sf === segmentIndex))
             (surfaces s) with
  | Some surface => triggerCollision surface (jabs vn) s
  | None => s
  end.

(** The wall test of [handleCollisions] (everything before the call of
    [checkVaneCollisions]). *)
Definition wallCollision (s : DryerPhysics) : DryerPhysics :=
  let ballDist :=
    jsqrt (ball_x (ball s) * ball_x (ball s)
           + ball_y (ball s) * ball_y (ball s)) in
  if ballDist + radius (ball s) >? drumRadius s then
    let penetration := ballDist + radius (ball s) - drumRadius s in
    let nx := (- ball_x (ball s)) / ballDist in
    let ny := (- ball_y (ball s)) / ballDist in
    let s := assign_x (ball_x (ball s) + nx * penetration) s in
    let s := assign_y (ball_y (ball s) + ny * penetration) s in
    let vn := ball_vx (ball s) * nx + ball_vy (ball s) * ny in
    if vn <? Fin 0 then wallImpact nx ny vn s else s
  else s.

(** The block of [checkVaneCollisions] guarded by
    [dist < this.ball.radius] ("Collision detected"), for vane [i]. *)
Definition vaneResolve (i : nat)
    (dx dy vdx vdy vaneLength distX distY dist : jsnum)
    (s : DryerPhysics) : DryerPhysics :=
  let penetration := radius (ball s) - dist in
  let nx := distX / dist in
  let ny := distY / dist in
  let s := assign_x (ball_x (ball s) + nx * penetration) s in
  let s := assign_y (ball_y (ball s) + ny * penetration) s in
  let vn := ball_vx (ball s) * nx + ball_vy (ball s) * ny in
  if vn <? Fin 0 then
    let s :=
      assign_vx
        (ball_vx (ball s) - (Fin 1 + restitution (ball s)) * vn * nx) s in
    let s :=
      assign_vy
        (ball_vy (ball s) - (Fin 1 + restitution (ball s)) * vn * ny) s in
    let perpX := (- vdy) / vaneLength in
    let perpY := vdx / vaneLength in
    let side :=
      if dx * perpX + dy * perpY >? Fin 0 then vane_leading
      else vane_trailing in
    match find (fun sf => SurfaceType_eqb (surf_type sf) side
                          && (surf_index sf === ofNat i))
               (surfaces s) with
    | Some surface => triggerCollision surface (jabs vn) s
    | None => s
    end
  else s.

(** The body of the loop of [checkVaneCollisions] for vane [i]. *)
Definition vaneCollision (vaneInnerRadius : jsnum) (i : nat)
    (s : DryerPhysics) : DryerPhysics :=
  let vaneAngle := (ofNat i / vaneCount s) * Fin 2 * jPI in
  let vx1 := vaneInnerRadius * jcos vaneAngle in
  let vy1 := vaneInnerRadius * jsin vaneAngle in
  let vx2 := drumRadius s * jcos vaneAngle in
  let vy2 := drumRadius s * jsin vaneAngle in
  let dx := ball_x (ball s) - vx1 in
  let dy := ball_y (ball s) - vy1 in
  let vdx := vx2 - vx1 in
  let vdy := vy2 - vy1 in
  let vaneLength := jsqrt (vdx * vdx + vdy * vdy) in
  let t := (dx * vdx + dy * vdy) / (vaneLength * vaneLength) in
  if (t >=? Fin 0) && (t <=? Fin 1) then
    let closestX := vx1 + t * vdx in
    let closestY := vy1 + t * vdy in
    let distX := ball_x (ball s) - closestX in
    let distY := ball_y (ball s) - closestY in
    let dist := jsqrt (distX * distX + distY * distY) in
    if dist <? radius (ball s) then
      vaneResolve i dx dy vdx vdy vaneLength distX distY dist s
    else s
  else s.

Definition checkVaneCollisions (s : DryerPhysics) : option DryerPhysics :=
  let vaneInnerRadius := drumRadius s * (Fin 1 - vaneHeight s) in
  forLoop (vaneCount s) (vaneCollision vaneInnerRadius) s.

Definition handleCollisions (s : DryerPhysics) : option DryerPhysics :=
  checkVaneCollisions (wallCollision s).

(** The getter [ball.area]. *)
Definition area (b : Ball) : jsnum := jPI * radius b * radius b.

(** Section 2 of [step]: the centrifugal acceleration, guarded by the
    distance from the axis; returns [(centrifugalX, centrifugalY)] and the
    state with its debug field written. *)
Definition centrifugalForce (s : DryerPhysics)
  : jsnum * jsnum * DryerPhysics :=
  if enableCentrifugal s then
    let distFromCenter :=
      jsqrt (ball_x (ball s) * ball_x (ball s)
             + ball_y (ball s) * ball_y (ball s)) in
    if distFromCenter >? Fin 0.0001 then
      let centrifugalMagnitude :=
        drumAngularVelocity s * drumAngularVelocity s * distFromCenter in
      ((ball_x (ball s) / distFromCenter) * centrifugalMagnitude,
       (ball_y (ball s) / distFromCenter) * centrifugalMagnitude,
       set_debugInfo
         (set_centrifugalMagnitude centrifugalMagnitude (debugInfo s)) s)
    else (Fin 0, Fin 0, s)
  else (Fin 0, Fin 0, s).

(** Section 3 of [step]: the Coriolis acceleration. *)
Definition coriolisForce (s : DryerPhysics)
  : jsnum * jsnum * DryerPhysics :=
  if enableCoriolis s then
    let sign := jor (coriolisSignFlip s) (Fin 1) in
    let coriolisX :=
      sign * Fin 2 * drumAngularVelocity s * ball_vy (ball s) in
    let coriolisY :=
      sign * Fin (-2) * drumAngularVelocity s * ball_vx (ball s) in
    let coriolisMag :=
      jsqrt (coriolisX * coriolisX + coriolisY * coriolisY) in
    (coriolisX, coriolisY,
     set_debugInfo (set_coriolisMagnitude coriolisMag (debugInfo s)) s)
  else (Fin 0, Fin 0, s).

(** Section 4 of [step]: air drag.  The quadratic model returns an
    acceleration; the linear model damps the velocity in place. *)
Definition airDrag (dt : jsnum) (s : DryerPhysics)
  : jsnum * jsnum * DryerPhysics :=
  if enableAirDrag s then
    let speed :=
      jsqrt (ball_vx (ball s) * ball_vx (ball s)
             + ball_vy (ball s) * ball_vy (ball s)) in
    if speed >? Fin 0.001 then
      if useQuadraticDrag s then
        let dragForceMagnitude :=
          Fin 0.5 * airDensity s * speed * speed
          * dragCoeff (ball s) * area (ball s) in
        let dragAccelMagnitude := dragForceMagnitude / mass (ball s) in
        ((- (ball_vx (ball s) / speed)) * dragAccelMagnitude,
         (- (ball_vy (ball s) / speed)) * dragAccelMagnitude,
         set_debugInfo
           (set_dragMagnitude dragAccelMagnitude (debugInfo s)) s)
      else
        let dragCoeff := Fin 0.1 in
        let dampingFactor := jexp ((- dragCoeff) * dt) in
        let s := assign_vx (ball_vx (ball s) * dampingFactor) s in
        let s := assign_vy (ball_vy (ball s) * dampingFactor) s in
        (Fin 0, Fin 0,
         set_debugInfo
           (set_dragMagnitude (dragCoeff * speed) (debugInfo s)) s)
    else (Fin 0, Fin 0, s)
  else (Fin 0, Fin 0, s).

(** The end of [step]: the accelerations are applied to the velocity,
    the velocity to the position, and the collisions are handled. *)
Definition integrate (dt totalAccelX totalAccelY : jsnum)
    (s : DryerPhysics) : option DryerPhysics :=
  let s := assign_vx (ball_vx (ball s) + totalAccelX * dt) s in
  let s := assign_vy (ball_vy (ball s) + totalAccelY * dt) s in
  let s :=
    set_debugInfo
      (set_totalVelocity
         (jsqrt (ball_vx (ball s) * ball_vx (ball s)
                 + ball_vy (ball s) * ball_vy (ball s)))
         (debugInfo s)) s in
  let s := assign_x (ball_x (ball s) + ball_vx (ball s) * dt) s in
  let s := assign_y (ball_y (ball s) + ball_vy (ball s) * dt) s in
  handleCollisions s.

(** [step(dt)] *)
Definition step (dt : jsnum) (s : DryerPhysics) : option DryerPhysics :=
  let s := set_drumAngle (drumAngle s + drumAngularVelocity s * dt) s in
  let cos := jcos (drumAngle s) in
  let sin := jsin (drumAngle s) in
  let gravityX := (- gravity s) * sin in
  let gravityY := (- gravity s) * cos in
  let '(centrifugalX, centrifugalY, s) := centrifugalForce s in
  let '(coriolisX, coriolisY, s) := coriolisForce s in
  let '(dragX, dragY, s) := airDrag dt s in
  let totalAccelX := gravityX + centrifugalX + coriolisX in
  let totalAccelY := gravityY + centrifugalY + coriolisY in
  let totalAccelX :=
    if useQuadraticDrag s then totalAccelX + dragX else totalAccelX in
  let totalAccelY :=
    if useQuadraticDrag s then totalAccelY + dragY else totalAccelY in
  integrate dt totalAccelX totalAccelY s.

Local Close Scope js_scope.


(* ================================================================== *)
(** ** Further library functions *)
(* ================================================================== *)

Module JSMath.

(** [Math.round]: the nearest integer, ties towards [+Infinity]. *)
Definition jround (a : jsnum) : jsnum :=
  match a with
  | Fin r => Fin (IZR (Int_part (r + 1 / 2)))
  | _ => a
  end.

(** [Math.min(a, b)] and [Math.max(a, b)]; NaN if an argument is NaN. *)
Definition jmin (a b : jsnum) : jsnum :=
  match a, b with
  | NaN, _ | _, NaN => NaN
  | _, _ => if jlt b a then b else a
  end.

Definition jmax (a b : jsnum) : jsnum :=
  match a, b with
  | NaN, _ | _, NaN => NaN
  | _, _ => if jlt a b then b else a
  end.


(** [a !== b] on numbers. *)
Definition jne (a b : jsnum) : bool := negb (jeq a b).

(** The integer nearest to [x], the even one of two that are equally
    near. *)
Definition ZnearestE (x : R) : Z :=
  let f := Int_part x in
  if Rlt_dec (x - IZR f) (1 / 2) then f
  else if Rlt_dec (1 / 2) (x - IZR f) then (f + 1)%Z
  else if Z.even f then f else (f + 1)%Z.

(** The exponent of the unit in the last place of [x] in binary64: 52
    below the binary exponent of [x], and -1074 for the subnormal
    numbers. *)
Definition ulpExp (x : R) : Z :=
  Z.max (-1074) (Int_part (ln (Rabs x) / ln 2) - 52).

(** The binary64 number nearest to [x] (ties to even), before overflow:
    [x] rounded to a multiple of its unit in the last place. *)
Definition round64 (x : R) : R :=
  if Req_dec_T x 0 then 0
  else IZR (ZnearestE (x * powerRZ 2 (- ulpExp x))) * powerRZ 2 (ulpExp x).

(** The result of an arithmetic operation whose exact value is [a], as
    binary64 stores it: rounded, and an infinity from [2^1024] on. *)
Definition binary64 (a : jsnum) : jsnum :=
  match a with
  | Fin r =>
      let y := round64 r in
      if Rle_dec (powerRZ 2 1024) (Rabs y) then Inf (Rneg y) else Fin y
  | _ => a
  end.

End JSMath.

Import JSMath.

(* ================================================================== *)
(** ** The rest of [DryerPhysics]: rendering queries and console helpers *)
(* ================================================================== *)

Local Open Scope js_scope.






(** [flipCoriolisSign()] *)
Definition flipCoriolisSign (s : DryerPhysics) : DryerPhysics :=
  set_coriolisSignFlip (jor (coriolisSignFlip s) (Fin 1) * Fin (-1)) s.

(** The presets [originalPhysics()], [enhancedPhysics()], [onlyGravity()].
    Their call of [showPhysicsState()] prints and reads, and writes no
    field. *)
Definition originalPhysics (s : DryerPhysics) : DryerPhysics :=
  let s := set_enableCoriolis false s in
  let s := set_enableCentrifugal true s in
  let s := set_enableAirDrag true s in
  set_useQuadraticDrag false s.

Definition enhancedPhysics (s : DryerPhysics) : DryerPhysics :=
  let s := set_enableCoriolis true s in
  let s := set_enableCentrifugal true s in
  let s := set_enableAirDrag true s in
  set_useQuadraticDrag true s.

Definition onlyGravity (s : DryerPhysics) : DryerPhysics :=
  let s := set_enableCoriolis false s in
  let s := set_enableCentrifugal false s in
  set_enableAirDrag false s.

(** The console object [window.dryerDebug], acting on the engine
    [window.dryerApp.physics] of a running application. *)
Module dryerDebug.

Definition testCoriolis (s : DryerPhysics) : DryerPhysics :=
  let s := set_enableCoriolis true s in
  let s := set_enableCentrifugal false s in
  set_enableAirDrag false s.

Definition testCentrifugal (s : DryerPhysics) : DryerPhysics :=
  let s := set_enableCoriolis false s in
  let s := set_enableCentrifugal true s in
  set_enableAirDrag false s.

(** [setBall(radius, mass)]: each argument is used only if it is truthy;
    [None] stands for an argument left [undefined]. *)
Definition setBall (radius mass : option jsnum) (s : DryerPhysics)
  : DryerPhysics :=
  let upd (f : jsnum -> Ball -> Ball) (o : option jsnum) (b : Ball) :=
    match o with
    | Some v => if truthy v then f v b else b
    | None => b
    end in
  set_ball (upd set_mass mass (upd set_radius radius (ball s))) s.

Definition tennisBall (s : DryerPhysics) : DryerPhysics :=
  let s := setBall (Some (Fin 0.035)) (Some (Fin 0.058)) s in
  set_ball (set_dragCoeff (Fin 0.55) (ball s)) s.

Definition baseball (s : DryerPhysics) : DryerPhysics :=
  let s := setBall (Some (Fin 0.037)) (Some (Fin 0.145)) s in
  set_ball (set_dragCoeff (Fin 0.47) (ball s)) s.

Definition pingPong (s : DryerPhysics) : DryerPhysics :=
  let s := setBall (Some (Fin 0.020)) (Some (Fin 0.0027)) s in
  set_ball (set_dragCoeff (Fin 0.47) (ball s)) s.

Definition balloon : DryerPhysics -> DryerPhysics := setBalloonBall.

Definition tennis : DryerPhysics -> DryerPhysics := setTennisBall.

(** [lintTrap(enabled)] and [moon(enabled)]; [None] stands for a call
    without argument. *)
Definition lintTrap (enabled : option bool) (s : DryerPhysics)
  : DryerPhysics :=
  match enabled with
  | None => set_lintTrapEnabled (negb (lintTrapEnabled s)) s
  | Some e => set_lintTrapEnabled e s
  end.

Definition moon (enabled : option bool) (s : DryerPhysics)
  : DryerPhysics :=
  let s :=
    match enabled with
    | None => set_moonGravityEnabled (negb (moonGravityEnabled s)) s
    | Some e => set_moonGravityEnabled e s
    end in
  set_gravity
    (if moonGravityEnabled s then moonGravity s else earthGravity s) s.

(** [fixSegmentOffset(offset)]; without argument it only prints. *)
Definition fixSegmentOffset (offset : option jsnum) (s : DryerPhysics)
  : DryerPhysics :=
  match offset with
  | None => s
  | Some o => set_segmentIndexOffset o s
  end.

End dryerDebug.

Local Close Scope js_scope.

(* ================================================================== *)
(** ** String-keyed maps *)
(* ================================================================== *)

(** A JavaScript [Map] (or an object used as one) with string keys, as
    the list of its entries in insertion order.  [set] on a key that is
    present replaces the value in place, [set] on a new key appends. *)
Module JSMap.

Definition t (V : Type) : Type := list (string * V).

Fixpoint get {V : Type} (k : string) (m : t V) : option V :=
  match m with
  | [] => None
  | (k', v) :: rest => if String.eqb k' k then Some v else get k rest
  end.

Fixpoint set {V : Type} (k : string) (v : V) (m : t V) : t V :=
  match m with
  | [] => [(k, v)]
  | (k', v') :: rest =>
      if String.eqb k' k then (k', v) :: rest else (k', v') :: set k v rest
  end.

Fixpoint delete {V : Type} (k : string) (m : t V) : t V :=
  match m with
  | [] => []
  | (k', v') :: rest =>
      if String.eqb k' k then rest else (k', v') :: delete k rest
  end.

Definition keys {V : Type} (m : t V) : list string := List.map fst m.

End JSMap.

(* ================================================================== *)
(** ** The knobs and highlights of [DryerUI] *)
(* ================================================================== *)

(** [src/dryer/dryer-ui.js].  The DOM elements of a knob, the canvas and
    what is drawn on it are outside the model; a knob is the record of
    numbers and flags the class keeps for it. *)
Module DryerUI.

Local Open Scope js_scope.

Record Knob : Type := mkKnob {
  value : jsnum;
  min : jsnum;
  max : jsnum;
  step : jsnum;
  isDragging : bool;
  startY : jsnum;
  startValue : jsnum
}.

(** An element of [knobConfigs]. *)
Record KnobConfig : Type := mkKnobConfig {
  cfg_id : string;
  cfg_min : jsnum;
  cfg_max : jsnum;
  cfg_initial : jsnum;
  cfg_step : jsnum
}.

Record DryerUI : Type := mkDryerUI {
  knobs : JSMap.t Knob;
  activeCollisions : JSMap.t jsnum
}.

Definition set_knobs (v : JSMap.t Knob) (ui : DryerUI) : DryerUI :=
  mkDryerUI v (activeCollisions ui).

Definition set_activeCollisions (v : JSMap.t jsnum) (ui : DryerUI)
  : DryerUI :=
  mkDryerUI (knobs ui) v.

Definition knobConfigs : list KnobConfig :=
  [ mkKnobConfig "rpm" (Fin 0) (Fin 35) (Fin 18) (Fin 1);
    mkKnobConfig "drumSize" (Fin 40) (Fin 80) (Fin 60) (Fin 1);
    mkKnobConfig "vanes" (Fin 1) (Fin 7) (Fin 4) (Fin 1);
    mkKnobConfig "vaneHeight" (Fin 10) (Fin 50) (Fin 30) (Fin 1) ].

(** [initKnob(config)]: the knob object it stores. *)
Definition initKnob (config : KnobConfig) (ui : DryerUI) : DryerUI :=
  set_knobs
    (JSMap.set (cfg_id config)
       (mkKnob (cfg_initial config) (cfg_min config) (cfg_max config)
          (cfg_step config) false (Fin 0) (cfg_initial config))
       (knobs ui)) ui.

Definition initKnobs (ui : DryerUI) : DryerUI :=
  fold_left (fun acc config => initKnob config acc) knobConfigs ui.

Definition constructor : DryerUI := initKnobs (mkDryerUI [] []).

(** The body of [startKnobDrag] on the knob it has looked up;
    [clientY] is [event.clientY]. *)
Definition startDrag (clientY : jsnum) (knob : Knob) : Knob :=
  mkKnob (value knob) (min knob) (max knob) (step knob)
    true clientY (value knob).

(** The body of [updateKnobDrag] on the knob it has looked up.  The
    boolean tells whether the value has changed, in which case the
    rotation is refreshed and [onParameterChange] is called. *)
Definition updateDrag (clientY : jsnum) (knob : Knob) : Knob * bool :=
  if negb (isDragging knob) then (knob, false)
  else
    let deltaY := startY knob - clientY in
    let sensitivity := Fin 2 in
    let steps := jround (deltaY / sensitivity) in
    let newValue := startValue knob + steps * step knob in
    let newValue := jmax (min knob) (jmin (max knob) newValue) in
    if jne newValue (value knob) then
      (mkKnob newValue (min knob) (max knob) (step knob)
         (isDragging knob) (startY knob) (startValue knob), true)
    else (knob, false).

(** The body of [endKnobDrag]. *)
Definition endDrag (knob : Knob) : Knob :=
  mkKnob (value knob) (min knob) (max knob) (step knob)
    false (startY knob) (startValue knob).

(** The methods on the knob named [knobId]; [None] is the [TypeError]
    of a name that has no knob. *)
Definition startKnobDrag (knobId : string) (clientY : jsnum) (ui : DryerUI)
  : option DryerUI :=
  match JSMap.get knobId (knobs ui) with
  | Some knob =>
      Some (set_knobs (JSMap.set knobId (startDrag clientY knob) (knobs ui))
              ui)
  | None => None
  end.

Definition updateKnobDrag (knobId : string) (clientY : jsnum) (ui : DryerUI)
  : option (DryerUI * bool) :=
  match JSMap.get knobId (knobs ui) with
  | Some knob =>
      let '(knob', changed) := updateDrag clientY knob in
      Some (set_knobs (JSMap.set knobId knob' (knobs ui)) ui, changed)
  | None => None
  end.

Definition endKnobDrag (knobId : string) (ui : DryerUI) : option DryerUI :=
  match JSMap.get knobId (knobs ui) with
  | Some knob =>
      Some (set_knobs (JSMap.set knobId (endDrag knob) (knobs ui)) ui)
  | None => None
  end.

(** [updateKnobRotation]: the rotation, in degrees, that it writes into
    the transform of the indicator, and the number it writes as the
    displayed value. *)
Definition updateKnobRotation (knob : Knob) : jsnum * jsnum :=
  let normalized := (value knob - min knob) / (max knob - min knob) in
  let degrees := Fin (-135) + normalized * Fin 270 in
  (degrees, jround (value knob)).

(** The object returned by [getParameters]. *)
Record Parameters : Type := mkParameters {
  rpm : jsnum;
  drumSize : jsnum;
  vanes : jsnum;
  vaneHeight : jsnum
}.

Definition getParameters (ui : DryerUI) : option Parameters :=
  match JSMap.get "rpm" (knobs ui), JSMap.get "drumSize" (knobs ui),
        JSMap.get "vanes" (knobs ui), JSMap.get "vaneHeight" (knobs ui) with
  | Some r, Some d, Some v, Some h =>
      Some (mkParameters (value r) (value d) (value v) (value h))
  | _, _, _, _ => None
  end.

(** [highlightCollision(surfaceId)] *)
Definition highlightCollision (surfaceId : string) (ui : DryerUI)
  : DryerUI :=
  set_activeCollisions (JSMap.set surfaceId (Fin 1.0) (activeCollisions ui))
    ui.

(** [updateCollisionHighlights()]: the loop visits the entries in
    insertion order; each visit deletes or overwrites the entry visited,
    which neither adds an entry nor moves one. *)
Definition updateCollisionHighlights (ui : DryerUI) : DryerUI :=
  set_activeCollisions
    (fold_left
       (fun m entry =>
          let '(id, value) := entry in
          let newValue := value - Fin 0.05 in
          if newValue <=? Fin 0 then JSMap.delete id m
          else JSMap.set id newValue m)
       (activeCollisions ui) (activeCollisions ui))
    ui.

(** [render(physics)], as far as it writes the state of the object: the
    highlights decay once per rendered frame. *)
Definition render (ui : DryerUI) : DryerUI := updateCollisionHighlights ui.

End DryerUI.

(* ================================================================== *)
(** ** The notes of [DryerAudio] *)
(* ================================================================== *)

(** [src/unnamed/part_002].  The Web Audio graph and the MIDI port are
    outside the model: what is recorded is the messages handed to
    [midiOutput.send] and the calls of [playWebAudioNote]. *)
Module DryerAudio.

Local Open Scope js_scope.

(** A call [midiOutput.send(data, timestamp)]; [None] is a call without
    timestamp. *)
Record MidiMessage : Type := mkMidiMessage {
  midi_data : list jsnum;
  midi_timestamp : option jsnum
}.

(** A call [playWebAudioNote(noteNumber, velocity, color)]. *)
Record PlayedNote : Type := mkPlayedNote {
  played_note : jsnum;
  played_velocity : jsnum;
  played_color : string
}.

Record DryerAudio : Type := mkDryerAudio {
  audioContext : bool;
  midiOutput : option string;
  midiEnabled : bool;
  surfaceToNote : JSMap.t jsnum;
  baseNote : jsnum;
  isInitialized : bool;
  sent : list MidiMessage;
  played : list PlayedNote
}.

Definition set_surfaceToNote (v : JSMap.t jsnum) (a : DryerAudio)
  : DryerAudio :=
  mkDryerAudio (audioContext a) (midiOutput a) (midiEnabled a) v
    (baseNote a) (isInitialized a) (sent a) (played a).

Definition set_sent (v : list MidiMessage) (a : DryerAudio) : DryerAudio :=
  mkDryerAudio (audioContext a) (midiOutput a) (midiEnabled a)
    (surfaceToNote a) (baseNote a) (isInitialized a) v (played a).

Definition set_played (v : list PlayedNote) (a : DryerAudio) : DryerAudio :=
  mkDryerAudio (audioContext a) (midiOutput a) (midiEnabled a)
    (surfaceToNote a) (baseNote a) (isInitialized a) (sent a) v.

Definition constructor : DryerAudio :=
  mkDryerAudio false None false [] (Fin 36) false [] [].

(** [surfaces.forEach((surface, index) => ...)] of
    [assignNotesToSurfaces], from index [index] on. *)
Fixpoint assignFrom (index : nat) (surfaces : list Surface)
    (a : DryerAudio) : DryerAudio :=
  match surfaces with
  | [] => a
  | surface :: rest =>
      let noteNumber := baseNote a + ofNat index in
      assignFrom (S index) rest
        (set_surfaceToNote
           (JSMap.set (surf_id surface) noteNumber (surfaceToNote a)) a)
  end.

Definition assignNotesToSurfaces (surfaces : list Surface) (a : DryerAudio)
  : DryerAudio :=
  assignFrom 0 surfaces (set_surfaceToNote [] a).

(** [sendMIDINote(noteNumber, velocity)]; [now] is the value of
    [window.performance.now()]. *)
Definition sendMIDINote (noteNumber velocity now : jsnum) (a : DryerAudio)
  : DryerAudio :=
  match midiOutput a with
  | None => a
  | Some _ =>
      let channel := Fin 0 in
      let noteOn := [Fin 144 + channel; noteNumber; velocity] in
      let noteOff := [Fin 128 + channel; noteNumber; Fin 0] in
      set_sent
        (sent a ++ [mkMidiMessage noteOn None;
                    mkMidiMessage noteOff (Some (now + Fin 100))])%list a
  end.


(** [playWebAudioNote]: without an audio context it returns at once;
    otherwise the call is recorded. *)
Definition playWebAudioNote (noteNumber velocity : jsnum) (color : string)
    (a : DryerAudio) : DryerAudio :=
  if negb (audioContext a) then a
  else set_played (played a ++ [mkPlayedNote noteNumber velocity color])%list
         a.

(** The note looked up by [onCollision]:
    [this.surfaceToNote.get(surface.id) || this.baseNote]. *)
Definition noteOf (surface : Surface) (a : DryerAudio) : jsnum :=
  match JSMap.get (surf_id surface) (surfaceToNote a) with
  | Some n => jor n (baseNote a)
  | None => baseNote a
  end.

(** The MIDI velocity computed by [onCollision].  [Math.floor] is taken
    of the product as binary64 stores it: a speed of 0.15, which as a
    binary64 number lies just below 0.15, gives 45, although the exact
    product is below 45. *)
Definition velocityMIDI (velocity : jsnum) : jsnum :=
  jmin (Fin 127) (jfloor (binary64 (velocity * Fin 300))).

(** [onCollision(surface, velocity)] *)
Definition onCollision (surface : Surface) (velocity now : jsnum)
    (a : DryerAudio) : DryerAudio :=
  if negb (isInitialized a) then a
  else
    let noteNumber := noteOf surface a in
    let velocityMIDI := velocityMIDI velocity in
    let a :=
      if midiEnabled a
         && match midiOutput a with Some _ => true | None => false end
      then sendMIDINote noteNumber velocityMIDI now a
      else a in
    playWebAudioNote noteNumber velocityMIDI (surf_color surface) a.

End DryerAudio.

(* ================================================================== *)
(** ** The controller [DryerApp] *)
(* ================================================================== *)

(** [src/unnamed/part_000], as far as it drives the physics engine: the
    parameter callback, the collision listener, [stop] and the physics
    update of [animate].  Buttons, status line and the scheduling of
    frames are outside the model. *)
Module DryerApp.

Local Open Scope js_scope.

Record DryerApp : Type := mkDryerApp {
  physics : DryerPhysics;
  audio : DryerAudio.DryerAudio;
  ui : DryerUI.DryerUI;
  isRunning : bool;
  lastTime : jsnum
}.

(** [this.ui.onParameterChange], as set by [init]. *)
Definition onParameterChange (app : DryerApp) : option DryerApp :=
  match DryerUI.getParameters (ui app) with
  | None => None
  | Some params =>
      match setParameters (DryerUI.rpm params) (DryerUI.drumSize params)
              (DryerUI.vanes params) (DryerUI.vaneHeight params)
              (physics app) with
      | None => None
      | Some physics' =>
          Some (mkDryerApp physics'
                  (DryerAudio.assignNotesToSurfaces (surfaces physics')
                     (audio app))
                  (ui app) (isRunning app) (lastTime app))
      end
  end.

(** The listener registered by [init] with [physics.onCollision]. *)
Definition collisionListener (surface : Surface) (velocity now : jsnum)
    (app : DryerApp) : DryerApp :=
  mkDryerApp (physics app)
    (DryerAudio.onCollision surface velocity now (audio app))
    (DryerUI.highlightCollision (surf_id surface) (ui app))
    (isRunning app) (lastTime app).


(** [stop()], as far as it writes the engine and the flag. *)
Definition stop (app : DryerApp) : DryerApp :=
  if negb (isRunning app) then app
  else mkDryerApp (reset (physics app)) (audio app)
         (DryerUI.render (ui app)) false (lastTime app).

End DryerApp.

(* ================================================================== *)
(** ** Rounding *)
(* ================================================================== *)




(** The wall test of [handleCollisions] on the binary64 numbers of the
    machine, operation by operation as the code has it: the positional
    correction (lines 301-313) and the reflection (lines 316-318 and
    332-333).  The segment classification and the notification in
    between read the ball and do not write it.  It is used to evaluate
    the code at concrete inputs where rounding decides. *)
Module Binary64.

Import Floats.PrimFloat Floats.FloatOps Floats.SpecFloat.
#[local] Set Warnings "-inexact-float".
Local Open Scope float_scope.

(** The fields of [this.ball] that the wall test reads. *)
Record Ball : Type := mkBall {
  ball_x : float;
  ball_y : float;
  ball_vx : float;
  ball_vy : float;
  radius : float;
  restitution : float
}.



(** The ball after the wall test. *)
Definition wallCollision (drumRadius : float) (b : Ball) : Ball :=
  let ballDist := sqrt (ball_x b * ball_x b + ball_y b * ball_y b) in
  if drumRadius <? ballDist + radius b then
    let penetration := ballDist + radius b - drumRadius in
    let nx := - ball_x b / ballDist in
    let ny := - ball_y b / ballDist in
    let x := ball_x b + nx * penetration in
    let y := ball_y b + ny * penetration in
    let vn := ball_vx b * nx + ball_vy b * ny in
    if vn <? 0 then
      mkBall x y
        (ball_vx b - (1 + restitution b) * vn * nx)
        (ball_vy b - (1 + restitution b) * vn * ny)
        (radius b) (restitution b)
    else mkBall x y (ball_vx b) (ball_vy b) (radius b) (restitution b)
  else b.

(** The rational number that a finite binary64 number is. *)
Definition exact (f : float) : Q :=
  match Prim2SF f with
  | S754_finite s m e =>
      Qmult (inject_Z (if s then Z.neg m else Z.pos m))
        (Qpower (inject_Z 2) e)
  | _ => inject_Z 0
  end.

(** The default drum radius, [0.8]. *)
Definition drumRadius : float := 0.8.



End Binary64.

(* ================================================================== *)
(** ** Derived quantities *)
(* ================================================================== *)

(** The ids pushed by iteration [i] of [updateSurfaces]. *)
Definition idsOf (i : nat) : list string :=
  List.map surf_id (surfacesOf i).

(** The real-number values of the locals of one iteration of
    [checkVaneCollisions], for a finite ball position [(bx, by_)], inner
    radius [vir], drum radius [Rd] and vane count [n]. *)
Record VaneGeom : Type := mkVaneGeom {
  vg_dx : R; vg_dy : R; vg_vdx : R; vg_vdy : R; vg_len : R; vg_t : R;
  vg_closestX : R; vg_closestY : R;
  vg_distX : R; vg_distY : R; vg_dist : R
}.

Definition vaneGeom (vir Rd n : R) (i : nat) (bx by_ : R) : VaneGeom :=
  let vaneAngle := INR i / n * 2 * PI in
  let vx1 := vir * cos vaneAngle in
  let vy1 := vir * sin vaneAngle in
  let vx2 := Rd * cos vaneAngle in
  let vy2 := Rd * sin vaneAngle in
  let dx := bx - vx1 in
  let dy := by_ - vy1 in
  let vdx := vx2 - vx1 in
  let vdy := vy2 - vy1 in
  let vaneLength := sqrt (vdx * vdx + vdy * vdy) in
  let t := (dx * vdx + dy * vdy) / (vaneLength * vaneLength) in
  let closestX := vx1 + t * vdx in
  let closestY := vy1 + t * vdy in
  let distX := bx - closestX in
  let distY := by_ - closestY in
  let dist := sqrt (distX * distX + distY * distY) in
  mkVaneGeom dx dy vdx vdy vaneLength t closestX closestY distX distY dist.

(** The effect of one positional correction and reflection on a finite
    ball: unit normal [(nx, ny)], penetration [pen], restitution [e]. *)
Record Reflected : Type := mkReflected {
  rf_x : R; rf_y : R; rf_vn : R; rf_vx : R; rf_vy : R
}.

Definition reflectR (bx by_ bvx bvy e nx ny pen : R) : Reflected :=
  let vn := bvx * nx + bvy * ny in
  mkReflected (bx + nx * pen) (by_ + ny * pen) vn
    (bvx - (1 + e) * vn * nx) (bvy - (1 + e) * vn * ny).


(** A drum with [k] vanes whose surfaces have been generated, one
    registered listener and the given ball; everything else as built by
    the constructor. *)
Definition configured (Rd h : jsnum) (k : nat) (b : Ball) : DryerPhysics :=
  set_ball b
    (set_collisionCallbacks [0%nat]
       (set_surfaces (flat_map surfacesOf (seq 0 k))
          (set_vaneHeight h
             (set_vaneCount (ofNat k)
                (set_drumRadius Rd (fields0 0)))))).

(** A tennis ball at [(x, y)] with velocity [(vx, vy)]. *)
Definition tennisBallAt (x y vx vy : R) : Ball :=
  mkBall (Fin x) (Fin y) (Fin vx) (Fin vy)
    (Fin 0.035) (Fin 0.058) (Fin 0.75) (Fin 0.55).


(** The fields no collision ever writes, and the ball. *)
Definition sameDrum (s s' : DryerPhysics) : Prop :=
  drumRadius s' = drumRadius s /\ vaneCount s' = vaneCount s
  /\ vaneHeight s' = vaneHeight s /\ surfaces s' = surfaces s
  /\ radius (ball s') = radius (ball s)
  /\ restitution (ball s') = restitution (ball s)
  /\ segmentIndexOffset s' = segmentIndexOffset s.


(** The vane test in the specification's words: the projection parameter
    of the ball centre on the line through the vane is clamped to [0, 1],
    and the distance is taken to the resulting closest point of the finite
    segment. *)
Definition specVaneDistance (vir Rd n : R) (i : nat) (bx by_ : R) : R :=
  let vaneAngle := INR i / n * 2 * PI in
  let x1 := vir * cos vaneAngle in
  let y1 := vir * sin vaneAngle in
  let x2 := Rd * cos vaneAngle in
  let y2 := Rd * sin vaneAngle in
  let t :=
    ((bx - x1) * (x2 - x1) + (by_ - y1) * (y2 - y1))
    / ((x2 - x1) * (x2 - x1) + (y2 - y1) * (y2 - y1)) in
  let tc := Rmax 0 (Rmin 1 t) in
  let cx := x1 + tc * (x2 - x1) in
  let cy := y1 + tc * (y2 - y1) in
  sqrt ((bx - cx) * (bx - cx) + (by_ - cy) * (by_ - cy)).

(** The ball 1 cm short of the inner end of vane 0 and 1 cm above its
    line, in the default drum with one vane. *)
Definition endpointState : DryerPhysics :=
  configured (Fin 0.80) (Fin 0.30) 1 (tennisBallAt 0.55 0.01 0 0).


(** A ball flying outwards at the wall, and a ball falling on vane 0. *)
Definition wallImpactState : DryerPhysics :=
  configured (Fin 0.80) (Fin 0.30) 5 (tennisBallAt 0.78 0 1 0.5).


(** An impact reported at time [now]: the host has advanced the clock to
    [now] (due timers have run) and a step calls [triggerCollision]. *)
Definition impactAt (now : Z) (surface : Surface) (velocity : jsnum)
    (s : DryerPhysics) : DryerPhysics :=
  triggerCollision surface velocity (runTimers now s).

(** The ids notified so far, oldest first. *)
Definition notified (s : DryerPhysics) : list string :=
  List.map (fun c => surf_id (call_surface c)) (calls s).

(** Drum segment 0 and the leading face of vane 0. *)
Definition drum0 : Surface :=
  mkSurface drum "drum_0" (ofNat 0) (getSurfaceColor 0).

Definition vane0lead : Surface :=
  mkSurface vane_leading "vane_0_lead" (ofNat 0) (getSurfaceColor 1).

(** A freshly configured engine with one listener: the slot is empty and
    no timer is pending. *)
Definition idleState : DryerPhysics :=
  configured (Fin 0.80) (Fin 0.30) 5 (tennisBallAt 0.24 0 0 0).

(** The ball at rest exactly on the inner end point of vane 0, in a drum
    of radius 0.8 m with five vanes of height 50 %. *)
Definition onVaneState : DryerPhysics :=
  configured (Fin 0.80) (Fin 0.50) 5 (tennisBallAt 0.4 0 0 0).

(** The segment rule of the specification, on a position [(x, y)]: the
    angle [atan2(y, x)] normalized to [0, 2π), floor-divided by
    [2π / vaneCount], taken mod [vaneCount], plus the offset, mod
    [vaneCount].  The specification applies it to the position of the ball
    BEFORE the positional correction. *)
Definition specSegmentIndex (y x vaneCount offset : jsnum) : jsnum :=
  let ballAngle := jatan2 y x in
  let anglePerSegment := (Fin 2 * jPI / vaneCount)%js in
  let normalizedAngle :=
    if (ballAngle <? Fin 0)%js then (ballAngle + Fin 2 * jPI)%js
    else ballAngle in
  let segmentIndex :=
    (jfloor (normalizedAngle / anglePerSegment) %% vaneCount)%js in
  let segmentIndex := ((segmentIndex + offset) %% vaneCount)%js in
  if (segmentIndex <? Fin 0)%js then (segmentIndex + vaneCount)%js
  else segmentIndex.

(** The velocity update of [wallImpact]. *)
Definition wallReflect (nx ny vn : jsnum) (s : DryerPhysics)
  : DryerPhysics :=
  let s :=
    assign_vx
      (ball_vx (ball s) - (Fin 1 + restitution (ball s)) * vn * nx)%js s in
  assign_vy
    (ball_vy (ball s) - (Fin 1 + restitution (ball s)) * vn * ny)%js s.

(** The drum segment [m] as [updateSurfaces] builds it. *)
Definition drumSurface (m : nat) : Surface :=
  mkSurface drum ("drum_" ++ natToString m) (ofNat m)
    (getSurfaceColor (m * 2)).

(** A ball of radius 0.9 m in the drum of radius 0.8 m with two vanes, at
    (0.5, 0) with velocity (1, 0). *)
Definition oversizeState : DryerPhysics :=
  configured (Fin 0.80) (Fin 0.30) 2
    (mkBall (Fin 0.5) (Fin 0) (Fin 1) (Fin 0)
       (Fin 0.9) (Fin 0.058) (Fin 0.75) (Fin 0.55)).

(** Differing in the debug fields only. *)
Definition sameButDebug (s s' : DryerPhysics) : Prop :=
  s' = set_debugInfo (debugInfo s') s.

(** The drum at rest (the constructor leaves the angular velocity at 0
    until [setParameters] runs), air drag switched off, the ball on the
    inner end point of vane 0 with the upward velocity that gravity
    cancels in one step of 1/128 s. *)
Definition risingState : DryerPhysics :=
  toggleDrag (Some false)
    (configured (Fin 0.80) (Fin 0.50) 5
       (tennisBallAt 0.4 0 0 (9.81 * (1 / 128)))).

(* ================================================================== *)
(** ** What a step may write, and the debounce invariant *)
(* ================================================================== *)

(** The ball [b] with the position and velocity of [b']. *)
Definition moved (b' b : Ball) : Ball :=
  mkBall (ball_x b') (ball_y b') (ball_vx b') (ball_vy b')
    (radius b) (mass b) (restitution b) (dragCoeff b).

(** [s'] is [s] but for the position and velocity of the ball, the drum
    angle, the debug record, the debounce slot, the pending timers and the
    log of listener invocations. *)
Definition stepFrame (s s' : DryerPhysics) : Prop :=
  s' =
  set_calls (calls s')
    (set_timers (timers s')
       (set_lastCollisionSurface (lastCollisionSurface s')
          (set_debugInfo (debugInfo s')
             (set_drumAngle (drumAngle s')
                (set_ball (moved (ball s') (ball s)) s))))).

(** A listener invocation that reports a surface of the current surface
    list to a registered listener. *)
Definition okCall (s : DryerPhysics) (c : Call) : Prop :=
  In (call_surface c) (surfaces s)
  /\ In (call_listener c) (collisionCallbacks s).

(** The debounce invariant: every pending timer is due within the next
    50 ms, and a held slot has a pending timer that carries its id. *)
Definition debounceInv (s : DryerPhysics) : Prop :=
  (forall t, In t (timers s) -> (clock s < fst t <= clock s + 50)%Z)
  /\ (forall id, lastCollisionSurface s = Some id ->
                 exists d, In (d, id) (timers s)).

(** The same for a collision block, which moves the ball and reports
    events, and leaves the drum angle and the debug record alone. *)
Definition collisionFrame (s s' : DryerPhysics) : Prop :=
  s' =
  set_calls (calls s')
    (set_timers (timers s')
       (set_lastCollisionSurface (lastCollisionSurface s')
          (set_ball (moved (ball s') (ball s)) s))).

(** The same for a force block of [step], which may write the velocity
    and the debug record only. *)
Definition forceFrame (s s' : DryerPhysics) : Prop :=
  s' = set_debugInfo (debugInfo s') (set_ball (moved (ball s') (ball s)) s).

(** The events of a block: the log of listener invocations grows by
    invocations that report current surfaces to registered listeners, and
    the debounce invariant is kept. *)
Definition emits (s s' : DryerPhysics) : Prop :=
  (exists new, calls s' = (calls s ++ new)%list /\ Forall (okCall s) new)
  /\ (debounceInv s -> debounceInv s').

Definition collides (s s' : DryerPhysics) : Prop :=
  collisionFrame s s' /\ emits s s'.

Definition advances (s s' : DryerPhysics) : Prop :=
  stepFrame s s' /\ emits s s'.

(** The states an application can reach: construction, the host advancing
    the clock between two tasks, and the public methods. *)
Inductive reachable : DryerPhysics -> Prop :=
| reach_new (now : Z) (s : DryerPhysics) :
    constructor now = Some s -> reachable s
| reach_clock (now : Z) (s : DryerPhysics) :
    reachable s -> (clock s <= now)%Z -> reachable (runTimers now s)
| reach_step (dt : jsnum) (s s' : DryerPhysics) :
    reachable s -> step dt s = Some s' -> reachable s'
| reach_setParameters (rpm drumSizeCm vaneCount vaneHeightPercent : jsnum)
    (s s' : DryerPhysics) :
    reachable s ->
    setParameters rpm drumSizeCm vaneCount vaneHeightPercent s = Some s' ->
    reachable s'
| reach_setBallProperties (radius mass restitution dragCoeff : option jsnum)
    (s : DryerPhysics) :
    reachable s ->
    reachable (setBallProperties radius mass restitution dragCoeff s)
| reach_setLintTrap (enabled : bool) (s : DryerPhysics) :
    reachable s -> reachable (setLintTrap enabled s)
| reach_setMoonGravity (enabled : bool) (s : DryerPhysics) :
    reachable s -> reachable (setMoonGravity enabled s)
| reach_reset (s : DryerPhysics) :
    reachable s -> reachable (reset s)
| reach_onCollision (callback : Listener) (s : DryerPhysics) :
    reachable s -> reachable (onCollision callback s).

(** The idle engine after an impact of 1 m/s on drum segment 0 at time 0:
    the slot holds [drum_0] and its timer is pending. *)
Definition struckState : DryerPhysics := impactAt 0 drum0 (Fin 1) idleState.

(** The ball flying outwards at the wall of a drum that turns at
    2 rad/s. *)
Definition spinningState : DryerPhysics :=
  set_drumAngularVelocity (Fin 2) wallImpactState.


(** The ball at the wall on the positive x axis, after
    [dryerDebug.fixSegmentOffset(-1)]. *)
Definition offsetState : DryerPhysics :=
  dryerDebug.fixSegmentOffset (Some (Fin (-1))) wallImpactState.

(* ================================================================== *)
(** ** Valid knobs *)
(* ================================================================== *)

(** A knob with integral bounds [lo <= hi], an integral step, an integral
    value within the bounds, and an integral value and a finite pointer
    position recorded at the start of the drag. *)
Definition knobOk (lo hi : Z) (knob : DryerUI.Knob) : Prop :=
  exists st v v0 : Z, exists y : R,
    DryerUI.min knob = Fin (IZR lo) /\ DryerUI.max knob = Fin (IZR hi)
    /\ (lo <= hi)%Z
    /\ DryerUI.step knob = Fin (IZR st)
    /\ DryerUI.value knob = Fin (IZR v) /\ (lo <= v <= hi)%Z
    /\ DryerUI.startValue knob = Fin (IZR v0)
    /\ DryerUI.startY knob = Fin y.

(** The knob [id] of [ui] exists and is valid for the range [lo .. hi]. *)
Definition knobIn (ui : DryerUI.DryerUI) (id : string) (lo hi : Z) : Prop :=
  exists knob,
    JSMap.get id (DryerUI.knobs ui) = Some knob /\ knobOk lo hi knob.

(** The four knobs of the panel are valid for the ranges of
    [knobConfigs]. *)
Definition uiOk (ui : DryerUI.DryerUI) : Prop :=
  knobIn ui "rpm" 0 35 /\ knobIn ui "drumSize" 40 80
  /\ knobIn ui "vanes" 1 7 /\ knobIn ui "vaneHeight" 10 50.

(** The value a drag leaves: the value at the start of the drag plus one
    step per two pixels of upward movement (rounded to the nearest
    number of steps), clamped to the range. *)
Definition draggedValue (lo hi st v0 : Z) (y0 y : R) : Z :=
  Z.max lo (Z.min hi (v0 + Int_part ((y0 - y) / 2 + 1 / 2) * st)).

(** The vanes knob (range 1 .. 7) at 4, grabbed with the pointer at
    [clientY = 100]. *)
Definition grabbedKnob : DryerUI.Knob :=
  DryerUI.mkKnob (Fin 4) (Fin 1) (Fin 7) (Fin 1) true (Fin 100) (Fin 4).

(** What one rendered frame does to a highlight: it loses 0.05 and is
    dropped once that leaves nothing. *)
Definition decayed (entry : string * jsnum) : list (string * jsnum) :=
  let newValue := jsub (snd entry) (Fin 0.05) in
  if jle newValue (Fin 0) then [] else [(fst entry, newValue)].

(** A panel on which two surfaces have been highlighted, one of them
    five frames ago. *)
Definition litPanel : DryerUI.DryerUI :=
  DryerUI.set_activeCollisions
    [("drum_0"%string, Fin 0.05); ("vane_1_lead"%string, Fin 1.0)]
    DryerUI.constructor.

(** An initialized audio engine with a MIDI output selected and the
    notes of a drum with two vanes assigned. *)
Definition liveAudio : DryerAudio.DryerAudio :=
  DryerAudio.assignNotesToSurfaces (flat_map surfacesOf (seq 0 2))
    (DryerAudio.mkDryerAudio true (Some "IAC Driver Bus 1"%string) true []
       (Fin 36) true [] []).

(** The application as its constructors leave it, before [init] has
    called the parameter callback; the clock of the last frame is 0. *)
Definition freshApp : DryerApp.DryerApp :=
  DryerApp.mkDryerApp idleState DryerAudio.constructor DryerUI.constructor
    false (Fin 0).

(** The application running with the drum turning at 2 rad/s, last frame
    at 1000 ms. *)
Definition runningApp : DryerApp.DryerApp :=
  DryerApp.mkDryerApp spinningState DryerAudio.constructor
    DryerUI.constructor true (Fin 1000).

(* ================================================================== *)
(** ** Proof automation *)
(* ================================================================== *)

(** Reduce the field projections of the ball after the blocks' updates. *)
Ltac ball_fields :=
  cbn [assign_x assign_y assign_vx assign_vy
       ball ball_x ball_y ball_vx ball_vy radius mass restitution dragCoeff
       set_ball set_ball_x set_ball_y set_ball_vx set_ball_vy
       drumRadius vaneCount vaneHeight surfaces segmentIndexOffset].

Ltac destruct_if :=
  match goal with |- context [if ?c then _ else _] => destruct c end.

Ltac destruct_find :=
  match goal with |- context [find ?f ?l] => destruct (find f l) end.

(** Open a state and its ball into their fields. *)
Ltac open_state s :=
  let b := fresh "b" in
  destruct s as [? ? ? ? b ? ? ? ? ? ? ? ? ? ? ? ? ? ? ? ? ? ? ? ? ? ?];
  destruct b.
(* ================================================================== *)
(** ** Finite arithmetic *)
(* ================================================================== *)

Section FiniteArithmetic.

Lemma jdiv_fin (a b : R) : b <> 0 -> jdiv (Fin a) (Fin b) = Fin (a / b).
Proof.
  intros Hb. unfold jdiv. destruct (Req_dec_T b 0); [contradiction|reflexivity].
Qed.

Lemma jdiv_zero_zero : jdiv (Fin 0) (Fin 0) = NaN.
Proof.
  unfold jdiv. destruct (Req_dec_T 0 0) as [_|H]; [reflexivity|now elim H].
Qed.

Lemma jsqrt_fin (a : R) : 0 <= a -> jsqrt (Fin a) = Fin (sqrt a).
Proof.
  intros Ha. unfold jsqrt. destruct (Rlt_dec a 0); [lra|reflexivity].
Qed.

Lemma jlt_fin (a b : R) : jlt (Fin a) (Fin b) = true <-> a < b.
Proof.
  unfold jlt. destruct (Rlt_dec a b); split; auto; discriminate.
Qed.

Lemma jlt_fin_false (a b : R) : jlt (Fin a) (Fin b) = false <-> b <= a.
Proof.
  unfold jlt. destruct (Rlt_dec a b); split; intros; try lra; auto;
    discriminate.
Qed.

Lemma jle_fin (a b : R) : jle (Fin a) (Fin b) = true <-> a <= b.
Proof.
  unfold jle. destruct (Rle_dec a b); split; auto; discriminate.
Qed.

Lemma jle_fin_false (a b : R) : jle (Fin a) (Fin b) = false <-> b < a.
Proof.
  unfold jle. destruct (Rle_dec a b); split; intros; try lra; auto;
    discriminate.
Qed.

Lemma jeq_fin (a b : R) : jeq (Fin a) (Fin b) = true <-> a = b.
Proof.
  unfold jeq. destruct (Req_dec_T a b); split; auto; discriminate.
Qed.

Lemma Int_part_IZR (k : Z) : Int_part (IZR k) = k.
Proof.
  symmetry. apply Int_part_spec. split; [lra|lra].
Qed.

Lemma tripCount_IZR (k : Z) : tripCount (Fin (IZR k)) = Some (Z.to_nat k).
Proof.
  unfold tripCount. rewrite <- opp_IZR, Int_part_IZR.
  now rewrite Z.opp_involutive.
Qed.

Lemma tripCount_ofNat (n : nat) : tripCount (ofNat n) = Some n.
Proof.
  unfold ofNat. rewrite INR_IZR_INZ, tripCount_IZR.
  now rewrite Nat2Z.id.
Qed.

Lemma sqrt_sum_sq_pos (a b : R) : 0 <= a * a + b * b.
Proof. nra. Qed.

Lemma sqrt_sq_eq (a c : R) : 0 <= c -> a = c * c -> sqrt a = c.
Proof.
  intros Hc ->. apply sqrt_lem_1; nra.
Qed.

Lemma sqrt_gt_of_sq (a c : R) : 0 <= c -> c * c < a -> c < sqrt a.
Proof.
  intros Hc H. rewrite <- (sqrt_sq_eq (c * c) c Hc eq_refl).
  apply sqrt_lt_1; nra.
Qed.

Lemma sqrt_le_of_sq (a c : R) : 0 <= a -> 0 <= c -> a <= c * c -> sqrt a <= c.
Proof.
  intros Ha Hc H. rewrite <- (sqrt_sq_eq (c * c) c Hc eq_refl).
  apply sqrt_le_1; nra.
Qed.

Lemma sqrt_lt_of_sq (a c : R) : 0 <= a -> 0 < c -> a < c * c -> sqrt a < c.
Proof.
  intros Ha Hc H. rewrite <- (sqrt_sq_eq (c * c) c (Rlt_le _ _ Hc) eq_refl).
  apply sqrt_lt_1; nra.
Qed.



End FiniteArithmetic.

(* ================================================================== *)
(** ** Binary64 rounding *)
(* ================================================================== *)

Section Rounding.

Lemma Int_part_le (x y : R) : x <= y -> (Int_part x <= Int_part y)%Z.
Proof.
  intros H. destruct (base_Int_part x) as [A _].
  destruct (base_Int_part y) as [_ B].
  apply Z.lt_succ_r. apply lt_IZR. rewrite succ_IZR. lra.
Qed.

Lemma ZnearestE_IZR (n : Z) : ZnearestE (IZR n) = n.
Proof.
  unfold ZnearestE. rewrite Int_part_IZR.
  destruct (Rlt_dec (IZR n - IZR n) (1 / 2)) as [_|N]; [reflexivity|].
  exfalso. apply N. lra.
Qed.

Lemma ZnearestE_le (x y : R) : x <= y -> (ZnearestE x <= ZnearestE y)%Z.
Proof.
  intros H. pose proof (Int_part_le x y H) as F.
  destruct (base_Int_part x) as [Ax Bx].
  destruct (base_Int_part y) as [Ay By].
  assert (Lx : (ZnearestE x <= Int_part x + 1)%Z).
  { unfold ZnearestE. cbv zeta.
    repeat match goal with |- context [if ?c then _ else _] => destruct c end;
      lia. }
  assert (Ly : (Int_part y <= ZnearestE y)%Z).
  { unfold ZnearestE. cbv zeta.
    repeat match goal with |- context [if ?c then _ else _] => destruct c end;
      lia. }
  destruct (Z.eq_dec (Int_part x) (Int_part y)) as [E|N]; [|lia].
  unfold ZnearestE. cbv zeta. rewrite <- E.
  destruct (Rlt_dec (x - IZR (Int_part x)) (1 / 2)) as [a|a].
  - repeat match goal with |- context [if ?c then _ else _] => destruct c end;
      lia.
  - destruct (Rlt_dec (y - IZR (Int_part x)) (1 / 2)) as [b|b]; [lra|].
    destruct (Rlt_dec (1 / 2) (x - IZR (Int_part x))) as [c|c].
    + destruct (Rlt_dec (1 / 2) (y - IZR (Int_part x))) as [d|d]; [lia|lra].
    + destruct (Rlt_dec (1 / 2) (y - IZR (Int_part x))) as [d|d];
        destruct (Z.even (Int_part x)); lia.
Qed.

Lemma pow2_pos (k : Z) : 0 < powerRZ 2 k.
Proof. apply powerRZ_lt. lra. Qed.

Lemma pow2_le (a b : Z) : (a <= b)%Z -> powerRZ 2 a <= powerRZ 2 b.
Proof.
  intros H. rewrite !powerRZ_Rpower by lra.
  apply Rle_Rpower; [lra|]. now apply IZR_le.
Qed.

Lemma pow2_add (a b : Z) : powerRZ 2 (a + b) = powerRZ 2 a * powerRZ 2 b.
Proof. apply powerRZ_add. lra. Qed.

Lemma pow2_cancel (a : Z) : powerRZ 2 (- a) * powerRZ 2 a = 1.
Proof.
  rewrite <- pow2_add. replace (- a + a)%Z with 0%Z by lia. reflexivity.
Qed.

Lemma IZR_pow2 (k : Z) : (0 <= k)%Z -> IZR (2 ^ k) = powerRZ 2 k.
Proof.
  intros H. rewrite <- (Z2Nat.id k H). rewrite <- pow_IZR, pow_powerRZ.
  reflexivity.
Qed.

Lemma ln2_pos : 0 < ln 2.
Proof. rewrite <- ln_1. apply ln_increasing; lra. Qed.

(** The binary exponent of a positive real. *)
Lemma mag2_spec (x : R) :
  0 < x ->
  let m := Int_part (ln x / ln 2) in
  powerRZ 2 m <= x < powerRZ 2 (m + 1).
Proof.
  intros Hx m. pose proof ln2_pos as L.
  destruct (base_Int_part (ln x / ln 2)) as [A B]. fold m in A, B.
  assert (A' : IZR m * ln 2 <= ln x).
  { apply Rmult_le_reg_r with (/ ln 2); [now apply Rinv_0_lt_compat|].
    rewrite Rmult_assoc, Rinv_r by lra. rewrite Rmult_1_r. exact A. }
  assert (B' : ln x < IZR (m + 1) * ln 2).
  { rewrite plus_IZR.
    apply Rmult_lt_reg_r with (/ ln 2); [now apply Rinv_0_lt_compat|].
    rewrite Rmult_assoc, Rinv_r by lra. rewrite Rmult_1_r.
    unfold Rdiv in B. lra. }
  rewrite !powerRZ_Rpower by lra. unfold Rpower.
  pose proof (exp_ln x Hx) as E. split.
  - rewrite <- E.
    destruct A' as [A'|A'];
      [left; now apply exp_increasing|right; now rewrite A'].
  - rewrite <- E at 1. now apply exp_increasing.
Qed.

Lemma ulpExp_pos (x : R) :
  0 < x -> (-1074 < ulpExp x)%Z -> powerRZ 2 (ulpExp x + 52) <= x.
Proof.
  intros Hx H. unfold ulpExp in *. rewrite Rabs_pos_eq in * by lra.
  destruct (mag2_spec x Hx) as [A _].
  replace (Z.max (-1074) (Int_part (ln x / ln 2) - 52) + 52)%Z
    with (Int_part (ln x / ln 2)) by lia.
  exact A.
Qed.

Lemma round64_0 : round64 0 = 0.
Proof.
  unfold round64.
  destruct (Req_dec_T 0 0) as [_|N]; [reflexivity|now elim N].
Qed.

Lemma round64_pos_eq (x : R) :
  0 < x ->
  round64 x
  = IZR (ZnearestE (x * powerRZ 2 (- ulpExp x))) * powerRZ 2 (ulpExp x).
Proof.
  intros H. unfold round64.
  destruct (Req_dec_T x 0) as [E|_]; [lra|reflexivity].
Qed.

(** Rounding does not cross a representable number. *)
Lemma round64_repr_le (x : R) (n k : Z) :
  0 < x -> (-1074 <= k)%Z -> (0 <= n < 2 ^ 53)%Z ->
  x <= IZR n * powerRZ 2 k -> round64 x <= IZR n * powerRZ 2 k.
Proof.
  intros Hx Hk Hn H. rewrite round64_pos_eq by exact Hx.
  set (e := ulpExp x).
  destruct (Z_le_gt_dec e k) as [L|G].
  - assert (EN : IZR n * powerRZ 2 k = IZR (n * 2 ^ (k - e)) * powerRZ 2 e).
    { rewrite mult_IZR, IZR_pow2 by lia. rewrite Rmult_assoc, <- pow2_add.
      f_equal. f_equal. lia. }
    rewrite EN. apply Rmult_le_compat_r; [left; apply pow2_pos|].
    apply IZR_le. rewrite <- (ZnearestE_IZR (n * 2 ^ (k - e))).
    apply ZnearestE_le.
    apply Rmult_le_reg_r with (powerRZ 2 e); [apply pow2_pos|].
    rewrite Rmult_assoc, pow2_cancel, Rmult_1_r, <- EN. exact H.
  - exfalso.
    assert (P : powerRZ 2 (e + 52) <= x)
      by (apply ulpExp_pos; [exact Hx|fold e; lia]).
    assert (Q : powerRZ 2 (k + 53) <= powerRZ 2 (e + 52))
      by (apply pow2_le; lia).
    assert (T : IZR n * powerRZ 2 k < powerRZ 2 (k + 53)).
    { rewrite Z.add_comm, pow2_add.
      apply Rmult_lt_compat_r; [apply pow2_pos|].
      rewrite <- IZR_pow2 by lia. apply IZR_lt. lia. }
    lra.
Qed.

Lemma round64_repr_ge (x : R) (n k : Z) :
  0 < x -> (-1074 <= k)%Z -> (0 <= n <= 2 ^ 53)%Z ->
  IZR n * powerRZ 2 k <= x -> IZR n * powerRZ 2 k <= round64 x.
Proof.
  intros Hx Hk Hn H. rewrite round64_pos_eq by exact Hx.
  set (e := ulpExp x).
  destruct (Z_le_gt_dec e k) as [L|G].
  - assert (EN : IZR n * powerRZ 2 k = IZR (n * 2 ^ (k - e)) * powerRZ 2 e).
    { rewrite mult_IZR, IZR_pow2 by lia. rewrite Rmult_assoc, <- pow2_add.
      f_equal. f_equal. lia. }
    rewrite EN. apply Rmult_le_compat_r; [left; apply pow2_pos|].
    apply IZR_le. rewrite <- (ZnearestE_IZR (n * 2 ^ (k - e))) at 1.
    apply ZnearestE_le.
    apply Rmult_le_reg_r with (powerRZ 2 e); [apply pow2_pos|].
    rewrite Rmult_assoc, pow2_cancel, Rmult_1_r, <- EN. exact H.
  - assert (P : powerRZ 2 (e + 52) <= x)
      by (apply ulpExp_pos; [exact Hx|fold e; lia]).
    assert (Z52 : (2 ^ 52 <= ZnearestE (x * powerRZ 2 (- e)))%Z).
    { rewrite <- (ZnearestE_IZR (2 ^ 52)). apply ZnearestE_le.
      rewrite IZR_pow2 by lia.
      apply Rmult_le_reg_r with (powerRZ 2 e); [apply pow2_pos|].
      rewrite Rmult_assoc, pow2_cancel, Rmult_1_r, <- pow2_add.
      replace (52 + e)%Z with (e + 52)%Z by lia. exact P. }
    apply IZR_le in Z52. rewrite IZR_pow2 in Z52 by lia.
    assert (Q : powerRZ 2 (k + 53) <= powerRZ 2 (52 + e))
      by (apply pow2_le; lia).
    assert (T : IZR n * powerRZ 2 k <= powerRZ 2 (k + 53)).
    { rewrite Z.add_comm, pow2_add.
      apply Rmult_le_compat_r; [left; apply pow2_pos|].
      rewrite <- IZR_pow2 by lia. apply IZR_le. lia. }
    rewrite (pow2_add 52 e) in Q.
    pose proof (pow2_pos e) as Pe.
    assert (U : powerRZ 2 52 * powerRZ 2 e
                <= IZR (ZnearestE (x * powerRZ 2 (- e))) * powerRZ 2 e).
    { apply Rmult_le_compat_r; [lra|exact Z52]. }
    lra.
Qed.

(** Rounding a number that is not negative does not cross an integer
    below [2^53], nor one half. *)
Lemma round64_ge_int (x : R) (n : Z) :
  0 <= x -> (0 <= n <= 2 ^ 53)%Z -> IZR n <= x -> IZR n <= round64 x.
Proof.
  intros Hx Hn H. destruct (Req_dec x 0) as [->|N].
  - rewrite round64_0. exact H.
  - pose proof (round64_repr_ge x n 0 ltac:(lra) ltac:(lia) Hn) as G.
    rewrite powerRZ_O, Rmult_1_r in G. now apply G.
Qed.

Lemma round64_le_int (x : R) (n : Z) :
  0 <= x -> (0 <= n < 2 ^ 53)%Z -> x <= IZR n -> round64 x <= IZR n.
Proof.
  intros Hx Hn H. destruct (Req_dec x 0) as [->|N].
  - rewrite round64_0. now apply IZR_le.
  - pose proof (round64_repr_le x n 0 ltac:(lra) ltac:(lia) Hn) as G.
    rewrite powerRZ_O, Rmult_1_r in G. now apply G.
Qed.

Lemma round64_le_half (x : R) : 0 <= x <= 1 / 2 -> round64 x <= 1 / 2.
Proof.
  intros [Hx H]. destruct (Req_dec x 0) as [->|N].
  - rewrite round64_0. lra.
  - pose proof (round64_repr_le x 1 (-1) ltac:(lra) ltac:(lia) ltac:(lia))
      as G.
    assert (E : 1 * powerRZ 2 (-1) = 1 / 2)
      by (change (1 * / (2 * 1) = 1 / 2); lra).
    rewrite E in G. now apply G.
Qed.

Lemma pow2_1024 : 128 <= powerRZ 2 1024.
Proof.
  assert (E : powerRZ 2 7 = 128).
  { change (2 * (2 * (2 * (2 * (2 * (2 * (2 * 1)))))) = 128). lra. }
  rewrite <- E. apply pow2_le. lia.
Qed.

End Rounding.

(* ================================================================== *)
(** ** Surface identifiers *)
(* ================================================================== *)

Section SurfaceIds.

Local Open Scope string_scope.

Lemma length_append (a b : string) :
  String.length (a ++ b) = (String.length a + String.length b)%nat.
Proof. induction a as [|c a IH]; simpl; [reflexivity|now rewrite IH]. Qed.

Lemma append_inj_r (c a b : string) : a ++ c = b ++ c -> a = b.
Proof.
  revert b. induction a as [|x a IH]; intros [|y b] H; simpl in H.
  - reflexivity.
  - apply (f_equal String.length) in H. simpl in H.
    rewrite length_append in H. lia.
  - apply (f_equal String.length) in H. simpl in H.
    rewrite length_append in H. lia.
  - injection H as -> H. f_equal. now apply IH.
Qed.

Lemma list_ascii_append (a b : string) :
  list_ascii_of_string (a ++ b)
  = (list_ascii_of_string a ++ list_ascii_of_string b)%list.
Proof. induction a as [|c a IH]; simpl; [reflexivity|now rewrite IH]. Qed.

Lemma lead_trail_differ (a b : string) : a ++ "_lead" <> b ++ "_trail".
Proof.
  intros H. apply (f_equal list_ascii_of_string) in H.
  rewrite !list_ascii_append in H.
  apply (f_equal (@List.rev ascii)) in H. rewrite !List.rev_app_distr in H.
  simpl in H. discriminate H.
Qed.

Lemma natToString_inj (i j : nat) : natToString i = natToString j -> i = j.
Proof.
  unfold natToString. intros H.
  apply (f_equal NilEmpty.uint_of_string) in H.
  rewrite !NilEmpty.usu in H. injection H as H.
  apply (f_equal Nat.of_uint) in H.
  now rewrite !DecimalNat.Unsigned.of_to in H.
Qed.

Lemma idsOf_NoDup (i : nat) : NoDup (idsOf i).
Proof.
  unfold idsOf, surfacesOf. simpl.
  repeat constructor; simpl.
  - intros [H|[H|[]]]; discriminate H.
  - intros [H|[]]. injection H as H. symmetry in H.
    now apply lead_trail_differ in H.
  - intros [].
Qed.

Lemma idsOf_disjoint (i j : nat) (x : string) :
  In x (idsOf i) -> In x (idsOf j) -> i = j.
Proof.
  unfold idsOf, surfacesOf. simpl.
  intros [Hi|[Hi|[Hi|[]]]] [Hj|[Hj|[Hj|[]]]]; subst x;
    try discriminate Hj.
  - injection Hj as Hj. now apply natToString_inj in Hj.
  - injection Hj as Hj. apply append_inj_r in Hj.
    now apply natToString_inj in Hj.
  - injection Hj as Hj. symmetry in Hj. now apply lead_trail_differ in Hj.
  - injection Hj as Hj. now apply lead_trail_differ in Hj.
  - injection Hj as Hj. apply append_inj_r in Hj.
    now apply natToString_inj in Hj.
Qed.

Lemma NoDup_flat_map {A B : Type} (f : A -> list B) (l : list A) :
  NoDup l ->
  (forall a, NoDup (f a)) ->
  (forall a b x, In x (f a) -> In x (f b) -> a = b) ->
  NoDup (flat_map f l).
Proof.
  intros Hl Hf Hd. induction Hl as [|a l Ha Hl IH]; simpl.
  - constructor.
  - apply NoDup_app.
    + apply Hf.
    + exact IH.
    + intros x Hx Hx'. apply in_flat_map in Hx' as (b & Hb & Hxb).
      assert (a = b) by (eapply Hd; eauto). subst b. contradiction.
Qed.

Lemma ids_flat_map (l : list nat) :
  List.map surf_id (flat_map surfacesOf l) = flat_map idsOf l.
Proof.
  induction l as [|i l IH]; [reflexivity|].
  cbn [flat_map]. rewrite List.map_app, IH. reflexivity.
Qed.

Lemma ids_NoDup (n : nat) :
  NoDup (List.map surf_id (flat_map surfacesOf (seq 0 n))).
Proof.
  rewrite ids_flat_map. apply NoDup_flat_map.
  - apply seq_NoDup.
  - apply idsOf_NoDup.
  - apply idsOf_disjoint.
Qed.

End SurfaceIds.

(* ================================================================== *)
(** ** Surface-set regeneration *)
(* ================================================================== *)

Section Regeneration.

Lemma pushSurfaces_fold (l : list nat) (s : DryerPhysics) :
  let s' :=
    fold_left (fun acc i => set_surfaces (surfaces acc ++ surfacesOf i) acc)
              l s in
  surfaces s' = (surfaces s ++ flat_map surfacesOf l)%list
  /\ vaneCount s' = vaneCount s.
Proof.
  revert s. induction l as [|i l IH]; intros s; cbn [fold_left flat_map].
  - now rewrite app_nil_r.
  - destruct (IH (set_surfaces (surfaces s ++ surfacesOf i) s)) as [H1 H2].
    cbn zeta in H1, H2. rewrite H1, H2. cbn [surfaces vaneCount set_surfaces].
    now rewrite <- app_assoc.
Qed.

Lemma updateSurfaces_spec (s s' : DryerPhysics) :
  updateSurfaces s = Some s' ->
  exists n, tripCount (vaneCount s) = Some n
            /\ surfaces s' = flat_map surfacesOf (seq 0 n)
            /\ vaneCount s' = vaneCount s.
Proof.
  unfold updateSurfaces, forLoop. cbn [vaneCount set_surfaces].
  destruct (tripCount (vaneCount s)) as [n|]; [|discriminate].
  intros H. injection H as <-. exists n. split; [reflexivity|].
  destruct (pushSurfaces_fold (seq 0 n) (set_surfaces [] s)) as [H1 H2].
  cbn zeta in H1, H2. rewrite H1, H2. now cbn.
Qed.

Lemma updateSurfaces_total (s : DryerPhysics) :
  vaneCount s <> PInf -> exists s', updateSurfaces s = Some s'.
Proof.
  intros H. unfold updateSurfaces, forLoop. cbn [vaneCount set_surfaces].
  destruct (vaneCount s) as [r|[|]|]; cbn [tripCount]; eauto.
  now elim H.
Qed.

Lemma setParameters_vaneCount rpm drumSizeCm vc vaneHeightPercent s s' :
  setParameters rpm drumSizeCm vc vaneHeightPercent s = Some s' ->
  vaneCount s' = jfloor vc.
Proof.
  unfold setParameters. cbv zeta. intros H.
  apply updateSurfaces_spec in H as (n & _ & _ & H). rewrite H. reflexivity.
Qed.

Lemma setParameters_total rpm drumSizeCm vc vaneHeightPercent s :
  jfloor vc <> PInf ->
  exists s', setParameters rpm drumSizeCm vc vaneHeightPercent s = Some s'.
Proof.
  intros H. unfold setParameters. cbv zeta. apply updateSurfaces_total.
  exact H.
Qed.

Lemma surfacesOf_length (l : list nat) :
  List.length (flat_map surfacesOf l) = (3 * List.length l)%nat.
Proof.
  induction l as [|i l IH]; [reflexivity|].
  cbn [flat_map]. rewrite List.length_app, IH. cbn. lia.
Qed.

Lemma ofNat_inj (i j : nat) : ofNat i = ofNat j -> i = j.
Proof.
  unfold ofNat. intros H. injection H as H. now apply INR_eq.
Qed.

(** The loop of [updateSurfaces] does not run on a count that is not
    positive. *)
Lemma tripCount_nonpos (c : R) : c <= 0 -> tripCount (Fin c) = Some 0%nat.
Proof.
  intros H. cbn [tripCount]. f_equal.
  destruct (base_Int_part (- c)) as [_ U].
  assert (L : IZR (-1) < IZR (Int_part (- c))) by lra.
  apply lt_IZR in L. lia.
Qed.

(** C9, counterexample.  On a freshly constructed engine
    [setParameters(20, 80, -1.5, 30)] is accepted: it stores the vane
    count [floor(-1.5) = -2] and leaves [surfaces] empty, which is not
    [3 * vaneCount] elements. *)
Lemma surfaces_regenerated_counterexample :
  exists s0 s1 : DryerPhysics,
    constructor 0 = Some s0
    /\ setParameters (Fin 20) (Fin 80) (Fin (- (1.5))) (Fin 30) s0 = Some s1
    /\ vaneCount s1 = Fin (-2) /\ surfaces s1 = []
    /\ INR (List.length (surfaces s1)) <> 3 * -2.
Proof.
  assert (F : jfloor (Fin (- (1.5))) = Fin (-2)).
  { unfold jfloor. f_equal. f_equal. symmetry. apply Int_part_spec. lra. }
  destruct (updateSurfaces_total (reset (fields0 0))) as [s0 H0];
    [discriminate|].
  destruct (setParameters_total (Fin 20) (Fin 80) (Fin (- (1.5))) (Fin 30) s0)
    as [s1 H1]; [rewrite F; discriminate|].
  exists s0, s1. split; [exact H0|]. split; [exact H1|].
  pose proof (setParameters_vaneCount _ _ _ _ _ _ H1) as V. rewrite F in V.
  unfold setParameters in H1. cbv zeta in H1.
  apply updateSurfaces_spec in H1 as (k & Hk & Hs & _).
  assert (K : k = 0%nat).
  { assert (E : tripCount (Fin (-2)) = Some k).
    { rewrite <- F. exact Hk. }
    rewrite tripCount_nonpos in E by lra. now injection E. }
  subst k. cbn [seq flat_map] in Hs.
  split; [exact V|]. split; [exact Hs|].
  rewrite Hs. cbn [List.length INR]. lra.
Qed.

(** C9, as the code has it.  After [updateSurfaces], called directly or
    by [setParameters], has returned, [surfaces] holds exactly [3 * m]
    records, where [m] is the number of iterations of the loop on the
    stored vane count: for each index [i] in [0, m), in order, the drum
    segment [i], the leading face and the trailing face of vane [i]; each
    (type, index) pair below [m] names exactly one record, and the ids
    are pairwise distinct.  [m] is the vane count when that is a natural
    number, and 0 when it is not positive; [setParameters] stores the
    floor of its argument. *)
Theorem surfaces_regenerated (s s' : DryerPhysics) :
  updateSurfaces s = Some s'
  \/ (exists rpmIn sizeIn vcIn heightIn : jsnum,
        setParameters rpmIn sizeIn vcIn heightIn s = Some s') ->
  exists m : nat,
    tripCount (vaneCount s') = Some m
    /\ List.length (surfaces s') = (3 * m)%nat
    /\ surfaces s' = flat_map surfacesOf (seq 0 m)
    /\ (forall i ty, (i < m)%nat ->
          exists! sf, In sf (surfaces s')
                      /\ surf_type sf = ty /\ surf_index sf = ofNat i)
    /\ NoDup (List.map surf_id (surfaces s'))
    /\ (forall n : nat, vaneCount s' = ofNat n -> m = n)
    /\ (forall c : R, vaneCount s' = Fin c -> c <= 0 -> m = 0%nat)
    /\ (forall rpmIn sizeIn vcIn heightIn : jsnum,
          setParameters rpmIn sizeIn vcIn heightIn s = Some s' ->
          vaneCount s' = jfloor vcIn).
Proof.
  intros H.
  assert (U : exists s1, updateSurfaces s1 = Some s').
  { destruct H as [H|(a & b & c & d & H)]; [now exists s|].
    unfold setParameters in H. cbv zeta in H. eauto. }
  clear H. destruct U as [s1 H].
  apply updateSurfaces_spec in H as (m & Hm & Hs & Hv).
  rewrite <- Hv in Hm.
  exists m. split; [exact Hm|]. rewrite Hs.
  split; [now rewrite surfacesOf_length, length_seq|].
  split; [reflexivity|]. split; [|split; [apply ids_NoDup|]].
  - intros i ty Hi.
    assert (Hin : forall sf, In sf (flat_map surfacesOf (seq 0 m)) <->
                  exists j, (j < m)%nat /\ In sf (surfacesOf j)).
    { intros sf. rewrite in_flat_map. split; intros (j & Hj & Hsf);
        exists j; split; auto; apply in_seq in Hj || apply in_seq; lia. }
    assert (Hex : exists sf, In sf (surfacesOf i) /\ surf_type sf = ty).
    { destruct ty; unfold surfacesOf; eexists; split;
        [ left; reflexivity | reflexivity
        | right; left; reflexivity | reflexivity
        | right; right; left; reflexivity | reflexivity ]. }
    destruct Hex as (sf & Hsf & Hty).
    assert (Hidx : forall j sf', In sf' (surfacesOf j) ->
                   surf_index sf' = ofNat j).
    { intros j sf' [<-|[<-|[<-|[]]]]; reflexivity. }
    exists sf. split.
    + split; [apply Hin; eauto|]. split; [exact Hty|]. now apply Hidx.
    + intros sf' (Hin' & Hty' & Hidx').
      apply Hin in Hin' as (j & Hj & Hsf').
      pose proof (Hidx _ _ Hsf') as E. rewrite Hidx' in E.
      apply ofNat_inj in E. subst j.
      destruct Hsf as [<-|[<-|[<-|[]]]], Hsf' as [<-|[<-|[<-|[]]]];
        cbn in Hty'; subst ty; try reflexivity; discriminate.
  - split; [|split].
    + intros n Hn. rewrite Hn, tripCount_ofNat in Hm. now injection Hm.
    + intros c Hc Hle. rewrite Hc, tripCount_nonpos in Hm by exact Hle.
      now injection Hm.
    + intros a b c d Hp. exact (setParameters_vaneCount _ _ _ _ _ _ Hp).
Qed.

(** The knob values of the user interface at start-up. *)
Lemma surfaces_regenerated_witness :
  exists s',
    setParameters (Fin 18) (Fin 60) (Fin 4) (Fin 30) (fields0 0) = Some s'
    /\ List.length (surfaces s') = 12%nat
    /\ NoDup (List.map surf_id (surfaces s')).
Proof.
  assert (F : jfloor (Fin 4) = ofNat 4).
  { unfold jfloor, ofNat. rewrite Int_part_IZR, INR_IZR_INZ. reflexivity. }
  destruct (setParameters_total (Fin 18) (Fin 60) (Fin 4) (Fin 30) (fields0 0))
    as [s' Hs'].
  { rewrite F. discriminate. }
  exists s'. split; [exact Hs'|].
  pose proof (setParameters_vaneCount _ _ _ _ _ _ Hs') as Hv.
  rewrite F in Hv.
  destruct (surfaces_regenerated (fields0 0) s')
    as (m & _ & H1 & _ & _ & H4 & Hn & _); [right; eauto|].
  rewrite (Hn 4%nat Hv) in H1.
  split; [exact H1|exact H4].
Defined.

End Regeneration.

(* ================================================================== *)
(** ** Wall and vane collisions on finite states *)
(* ================================================================== *)

Section Collisions.

Lemma triggerCollision_cases sf v s :
  triggerCollision sf v s = s \/
  triggerCollision sf v s =
    set_calls
      (calls s ++ List.map (fun cb => mkCall cb sf v) (collisionCallbacks s))
      (set_timers (timers s ++ [((clock s + 50)%Z, surf_id sf)])
         (set_lastCollisionSurface (Some (surf_id sf)) s)).
Proof.
  unfold triggerCollision.
  destruct (lintTrapEnabled s && jlt v (lintTrapThreshold s)); auto.
  destruct (slotIs _ _); auto.
Qed.

Lemma sameDrum_refl s : sameDrum s s.
Proof. repeat split. Qed.

Lemma sameDrum_trans s1 s2 s3 :
  sameDrum s1 s2 -> sameDrum s2 s3 -> sameDrum s1 s3.
Proof.
  intros (A1 & A2 & A3 & A4 & A5 & A6 & A7) (B1 & B2 & B3 & B4 & B5 & B6 & B7).
  repeat split; congruence.
Qed.

Lemma triggerCollision_ball sf v s : ball (triggerCollision sf v s) = ball s.
Proof. destruct (triggerCollision_cases sf v s) as [->| ->]; reflexivity. Qed.

Lemma triggerCollision_sameDrum sf v s : sameDrum s (triggerCollision sf v s).
Proof.
  destruct (triggerCollision_cases sf v s) as [->| ->]; repeat split.
Qed.

Lemma wallImpact_position nx ny vn s :
  ball_x (ball (wallImpact nx ny vn s)) = ball_x (ball s)
  /\ ball_y (ball (wallImpact nx ny vn s)) = ball_y (ball s).
Proof.
  unfold wallImpact. cbv zeta.
  match goal with |- context [find ?f ?l] => destruct (find f l) end;
    rewrite ?triggerCollision_ball; ball_fields; split; reflexivity.
Qed.

Lemma wallImpact_sameDrum nx ny vn s : sameDrum s (wallImpact nx ny vn s).
Proof.
  unfold wallImpact. cbv zeta.
  match goal with |- context [find ?f ?l] => destruct (find f l) end.
  - eapply sameDrum_trans; [|apply triggerCollision_sameDrum].
    repeat split.
  - repeat split.
Qed.

Lemma wallCollision_sameDrum s : sameDrum s (wallCollision s).
Proof.
  unfold wallCollision. cbv zeta.
  match goal with |- context [if ?c then _ else _] => destruct c end;
    [|apply sameDrum_refl].
  match goal with |- context [if ?c then _ else _] => destruct c end;
    [|repeat split].
  eapply sameDrum_trans; [|apply wallImpact_sameDrum]. repeat split.
Qed.


Lemma vaneCollision_geom (s : DryerPhysics) (vir Rd n : R) (i : nat)
    (bx by_ : R) :
  ball_x (ball s) = Fin bx -> ball_y (ball s) = Fin by_ ->
  drumRadius s = Fin Rd -> vaneCount s = Fin n ->
  let g := vaneGeom vir Rd n i bx by_ in
  n <> 0 -> vg_len g <> 0 ->
  vaneCollision (Fin vir) i s =
  if jge (Fin (vg_t g)) (Fin 0) && jle (Fin (vg_t g)) (Fin 1) then
    if jlt (Fin (vg_dist g)) (radius (ball s)) then
      vaneResolve i (Fin (vg_dx g)) (Fin (vg_dy g)) (Fin (vg_vdx g))
        (Fin (vg_vdy g)) (Fin (vg_len g)) (Fin (vg_distX g))
        (Fin (vg_distY g)) (Fin (vg_dist g)) s
    else s
  else s.
Proof.
  intros Hx Hy HR Hn g Hn0 HL.
  unfold vaneCollision. cbv zeta.
  rewrite Hx, Hy, HR, Hn.
  unfold ofNat. rewrite (jdiv_fin _ n) by exact Hn0.
  cbn [jmul jadd jsub jcos jsin jPI].
  rewrite jsqrt_fin by apply sqrt_sum_sq_pos.
  cbn [jmul jadd jsub].
  rewrite jdiv_fin.
  2:{ intros E. apply HL. apply Rmult_integral in E.
      destruct E as [E|E]; exact E. }
  cbn [jmul jadd jsub jneg].
  rewrite jsqrt_fin by apply sqrt_sum_sq_pos.
  reflexivity.
Qed.

Lemma vaneResolve_position (s : DryerPhysics) (i : nat)
    (dx dy vdx vdy len : jsnum) (bx by_ r distX distY dist : R) :
  ball_x (ball s) = Fin bx -> ball_y (ball s) = Fin by_ ->
  radius (ball s) = Fin r ->
  dist <> 0 ->
  let s' :=
    vaneResolve i dx dy vdx vdy len (Fin distX) (Fin distY) (Fin dist) s in
  ball_x (ball s') = Fin (bx + distX / dist * (r - dist))
  /\ ball_y (ball s') = Fin (by_ + distY / dist * (r - dist)).
Proof.
  intros Hx Hy Hr Hd s'.
  unfold s', vaneResolve. cbv zeta. ball_fields.
  rewrite Hx, Hy, Hr.
  rewrite !jdiv_fin by exact Hd.
  cbn [jmul jadd jsub].
  destruct_if.
  - destruct_find; rewrite ?triggerCollision_ball; ball_fields;
      split; reflexivity.
  - ball_fields. split; reflexivity.
Qed.


Lemma jmul_nan_l (a : jsnum) : jmul NaN a = NaN.
Proof. reflexivity. Qed.

Lemma jmul_nan_r (a : jsnum) : jmul a NaN = NaN.
Proof. destruct a; reflexivity. Qed.

Lemma jadd_nan_l (a : jsnum) : jadd NaN a = NaN.
Proof. reflexivity. Qed.

Lemma jadd_nan_r (a : jsnum) : jadd a NaN = NaN.
Proof. destruct a; reflexivity. Qed.

Lemma jsub_nan_l (a : jsnum) : jsub NaN a = NaN.
Proof. reflexivity. Qed.

Lemma jsub_nan_r (a : jsnum) : jsub a NaN = NaN.
Proof. destruct a; reflexivity. Qed.

Lemma jdiv_nan_l (a : jsnum) : jdiv NaN a = NaN.
Proof. reflexivity. Qed.

(** A contact at distance zero: the normal is [0/0]. *)
Lemma vaneResolve_degenerate (s : DryerPhysics) (i : nat)
    (dx dy vdx vdy len : jsnum) :
  let s' := vaneResolve i dx dy vdx vdy len (Fin 0) (Fin 0) (Fin 0) s in
  ball_x (ball s') = NaN /\ ball_y (ball s') = NaN.
Proof.
  cbv zeta. unfold vaneResolve. cbv zeta. ball_fields.
  rewrite jdiv_zero_zero.
  rewrite !jmul_nan_l, !jadd_nan_r, !jmul_nan_r, !jadd_nan_r.
  cbn [jlt]. ball_fields. split; reflexivity.
Qed.

Lemma wallCollision_miss (s : DryerPhysics) (bx by_ r Rd : R) :
  ball_x (ball s) = Fin bx -> ball_y (ball s) = Fin by_ ->
  radius (ball s) = Fin r -> drumRadius s = Fin Rd ->
  sqrt (bx * bx + by_ * by_) + r <= Rd ->
  wallCollision s = s.
Proof.
  intros Hx Hy Hr HR H.
  unfold wallCollision. cbv zeta. rewrite Hx, Hy, Hr, HR.
  cbn [jmul jadd]. rewrite jsqrt_fin by apply sqrt_sum_sq_pos.
  cbn [jadd]. unfold jgt.
  replace (jlt (Fin Rd) (Fin (sqrt (bx * bx + by_ * by_) + r))) with false;
    [reflexivity|].
  symmetry. now apply jlt_fin_false.
Qed.

Lemma wallCollision_position (s : DryerPhysics) (bx by_ r Rd : R) :
  ball_x (ball s) = Fin bx -> ball_y (ball s) = Fin by_ ->
  radius (ball s) = Fin r -> drumRadius s = Fin Rd ->
  let d := sqrt (bx * bx + by_ * by_) in
  0 < d -> Rd < d + r ->
  ball_x (ball (wallCollision s)) = Fin ((Rd - r) / d * bx)
  /\ ball_y (ball (wallCollision s)) = Fin ((Rd - r) / d * by_).
Proof.
  intros Hx Hy Hr HR d Hd Hfire.
  unfold wallCollision. cbv zeta. ball_fields.
  rewrite Hx, Hy, Hr, HR.
  cbn [jmul jadd]. rewrite jsqrt_fin by apply sqrt_sum_sq_pos. fold d.
  cbn [jadd jsub jneg]. unfold jgt.
  replace (jlt (Fin Rd) (Fin (d + r))) with true
    by (symmetry; now apply jlt_fin).
  rewrite !jdiv_fin by lra.
  cbn [jmul jadd jsub].
  assert (Ex : bx + - bx / d * (d + r - Rd) = (Rd - r) / d * bx)
    by (field; lra).
  assert (Ey : by_ + - by_ / d * (d + r - Rd) = (Rd - r) / d * by_)
    by (field; lra).
  rewrite Ex, Ey.
  destruct_if.
  - match goal with |- context [wallImpact ?a ?b ?c ?s0] =>
      destruct (wallImpact_position a b c s0) as [-> ->]
    end.
    ball_fields. split; reflexivity.
  - ball_fields. split; reflexivity.
Qed.



End Collisions.

(* ================================================================== *)
(** ** Geometry of the corrections *)
(* ================================================================== *)

Section Geometry.



Lemma Ratan2_scale (k y x : R) : 0 < k -> Ratan2 (k * y) (k * x) = Ratan2 y x.
Proof.
  intros Hk. unfold Ratan2.
  assert (Hq : x <> 0 -> k * y / (k * x) = y / x) by (intros; field; lra).
  destruct (Rlt_dec 0 x) as [Hx|Hx].
  - destruct (Rlt_dec 0 (k * x)) as [_|N]; [|exfalso; apply N; nra].
    rewrite Hq by lra. reflexivity.
  - destruct (Rlt_dec 0 (k * x)) as [P|_]; [exfalso; nra|].
    destruct (Rlt_dec x 0) as [Hx'|Hx'].
    + destruct (Rlt_dec (k * x) 0) as [_|N]; [|exfalso; apply N; nra].
      rewrite Hq by lra.
      destruct (Rlt_dec y 0) as [Hy|Hy].
      * destruct (Rlt_dec (k * y) 0) as [_|N];
          [reflexivity|exfalso; apply N; nra].
      * destruct (Rlt_dec (k * y) 0) as [P|_]; [exfalso; nra|reflexivity].
    + destruct (Rlt_dec (k * x) 0) as [P|_]; [exfalso; nra|].
      destruct (Rlt_dec 0 y) as [Hy|Hy].
      * destruct (Rlt_dec 0 (k * y)) as [_|N];
          [reflexivity|exfalso; apply N; nra].
      * destruct (Rlt_dec 0 (k * y)) as [P|_]; [exfalso; nra|].
        destruct (Rlt_dec y 0) as [Hy'|Hy'].
        -- destruct (Rlt_dec (k * y) 0) as [_|N];
          [reflexivity|exfalso; apply N; nra].
        -- destruct (Rlt_dec (k * y) 0) as [P|_]; [exfalso; nra|reflexivity].
Qed.

Lemma sqrt_scale (k a b : R) :
  0 <= k -> sqrt (k * a * (k * a) + k * b * (k * b)) = k * sqrt (a * a + b * b).
Proof.
  intros Hk.
  replace (k * a * (k * a) + k * b * (k * b)) with ((k * k) * (a * a + b * b))
    by ring.
  rewrite sqrt_mult by nra.
  rewrite (sqrt_sq_eq (k * k) k Hk eq_refl). reflexivity.
Qed.

Lemma forLoop_fixed {S : Type} (n : jsnum) (k : nat) (body : nat -> S -> S)
    (s : S) :
  tripCount n = Some k ->
  (forall i, (i < k)%nat -> body i s = s) ->
  forLoop n body s = Some s.
Proof.
  intros Hk Hfix. unfold forLoop. rewrite Hk. f_equal.
  assert (G : forall l, (forall i, In i l -> (i < k)%nat) ->
                        fold_left (fun acc i => body i acc) l s = s).
  { induction l as [|i l IH]; intros Hl; cbn [fold_left]; [reflexivity|].
    rewrite Hfix by (apply Hl; now left). apply IH.
    intros j Hj. apply Hl. now right. }
  apply G. intros i Hi. apply in_seq in Hi. lia.
Qed.

Lemma vaneGeom_axis (vir Rd n bx by_ : R) :
  vir < Rd ->
  let g := vaneGeom vir Rd n 0 bx by_ in
  vg_len g = Rd - vir /\ vg_t g = (bx - vir) / (Rd - vir)
  /\ vg_distX g = 0 /\ vg_distY g = by_ /\ vg_dist g = Rabs by_
  /\ vg_closestX g = bx /\ vg_closestY g = 0.
Proof.
  intros Hlt g.
  assert (A : INR 0 / n * 2 * PI = 0) by (cbn [INR]; unfold Rdiv; ring).
  assert (S : sqrt ((Rd * 1 - vir * 1) * (Rd * 1 - vir * 1)
                    + (Rd * 0 - vir * 0) * (Rd * 0 - vir * 0)) = Rd - vir)
    by (apply sqrt_sq_eq; [lra|ring]).
  assert (L : vg_len g = Rd - vir).
  { unfold g, vaneGeom. cbn [vg_len]. rewrite A, cos_0, sin_0. exact S. }
  assert (T : vg_t g = (bx - vir) / (Rd - vir)).
  { unfold g, vaneGeom. cbn [vg_t]. rewrite A, cos_0, sin_0, S. field. lra. }
  assert (CX : vg_closestX g = bx).
  { unfold g, vaneGeom. cbn [vg_closestX]. rewrite A, cos_0, sin_0, S.
    field. lra. }
  assert (CY : vg_closestY g = 0).
  { unfold g, vaneGeom. cbn [vg_closestY]. rewrite A, cos_0, sin_0, S.
    field. lra. }
  assert (DX : vg_distX g = 0).
  { change (vg_distX g) with (bx - vg_closestX g). rewrite CX. ring. }
  assert (DY : vg_distY g = by_).
  { change (vg_distY g) with (by_ - vg_closestY g). rewrite CY. ring. }
  repeat split; auto.
  change (vg_dist g) with
    (sqrt (vg_distX g * vg_distX g + vg_distY g * vg_distY g)).
  rewrite DX, DY.
  replace (0 * 0 + by_ * by_) with (Rsqr by_) by (unfold Rsqr; ring).
  apply sqrt_Rsqr_abs.
Qed.


End Geometry.

(* ================================================================== *)
(** ** The wall correction (C10) and containment (C1) *)
(* ================================================================== *)

Section Wall.








End Wall.

(* ================================================================== *)
(** ** The vane test (C3) *)
(* ================================================================== *)

Section VaneTest.

Lemma vaneCollision_outside (s : DryerPhysics) (vir Rd n : R) (i : nat)
    (bx by_ : R) :
  ball_x (ball s) = Fin bx -> ball_y (ball s) = Fin by_ ->
  drumRadius s = Fin Rd -> vaneCount s = Fin n ->
  let g := vaneGeom vir Rd n i bx by_ in
  n <> 0 -> vg_len g <> 0 ->
  vg_t g < 0 \/ 1 < vg_t g ->
  vaneCollision (Fin vir) i s = s.
Proof.
  intros Hx Hy HR Hn g Hn0 HL Ht.
  rewrite (vaneCollision_geom s vir Rd n i bx by_ Hx Hy HR Hn Hn0 HL).
  fold g. unfold jge. destruct Ht as [Ht|Ht].
  - replace (jle (Fin 0) (Fin (vg_t g))) with false; [reflexivity|].
    symmetry. now apply jle_fin_false.
  - replace (jle (Fin (vg_t g)) (Fin 1)) with false;
      [now rewrite andb_false_r|].
    symmetry. now apply jle_fin_false.
Qed.

Lemma vaneCollision_far (s : DryerPhysics) (vir Rd n r : R) (i : nat)
    (bx by_ : R) :
  ball_x (ball s) = Fin bx -> ball_y (ball s) = Fin by_ ->
  radius (ball s) = Fin r ->
  drumRadius s = Fin Rd -> vaneCount s = Fin n ->
  let g := vaneGeom vir Rd n i bx by_ in
  n <> 0 -> vg_len g <> 0 ->
  r <= vg_dist g ->
  vaneCollision (Fin vir) i s = s.
Proof.
  intros Hx Hy Hr HR Hn g Hn0 HL Hd.
  rewrite (vaneCollision_geom s vir Rd n i bx by_ Hx Hy HR Hn Hn0 HL).
  fold g. rewrite Hr.
  replace (jlt (Fin (vg_dist g)) (Fin r)) with false
    by (symmetry; now apply jlt_fin_false).
  now destruct (_ && _).
Qed.

Lemma vaneCollision_inside (s : DryerPhysics) (vir Rd n r : R) (i : nat)
    (bx by_ : R) :
  ball_x (ball s) = Fin bx -> ball_y (ball s) = Fin by_ ->
  radius (ball s) = Fin r ->
  drumRadius s = Fin Rd -> vaneCount s = Fin n ->
  let g := vaneGeom vir Rd n i bx by_ in
  n <> 0 -> vg_len g <> 0 ->
  0 <= vg_t g <= 1 -> vg_dist g < r ->
  vaneCollision (Fin vir) i s =
  vaneResolve i (Fin (vg_dx g)) (Fin (vg_dy g)) (Fin (vg_vdx g))
    (Fin (vg_vdy g)) (Fin (vg_len g)) (Fin (vg_distX g))
    (Fin (vg_distY g)) (Fin (vg_dist g)) s.
Proof.
  intros Hx Hy Hr HR Hn g Hn0 HL Ht Hd.
  rewrite (vaneCollision_geom s vir Rd n i bx by_ Hx Hy HR Hn Hn0 HL).
  fold g. rewrite Hr. unfold jge.
  replace (jle (Fin 0) (Fin (vg_t g))) with true
    by (symmetry; apply jle_fin; lra).
  replace (jle (Fin (vg_t g)) (Fin 1)) with true
    by (symmetry; apply jle_fin; lra).
  replace (jlt (Fin (vg_dist g)) (Fin r)) with true
    by (symmetry; now apply jlt_fin).
  reflexivity.
Qed.

Lemma vg_dist_sq (vir Rd n : R) (i : nat) (bx by_ : R) :
  let g := vaneGeom vir Rd n i bx by_ in
  vg_dist g = sqrt (vg_distX g * vg_distX g + vg_distY g * vg_distY g)
  /\ vg_distX g = bx - vg_closestX g /\ vg_distY g = by_ - vg_closestY g.
Proof. repeat split. Qed.

(** Inside the segment the clamp of the specification is the identity. *)
Lemma specVaneDistance_inside (vir Rd n : R) (i : nat) (bx by_ : R) :
  let g := vaneGeom vir Rd n i bx by_ in
  0 <= vg_t g <= 1 ->
  specVaneDistance vir Rd n i bx by_ = vg_dist g.
Proof.
  intros g Ht. unfold specVaneDistance. cbv zeta.
  set (a := INR i / n * 2 * PI) in *.
  set (vdx := Rd * cos a - vir * cos a).
  set (vdy := Rd * sin a - vir * sin a).
  assert (E : vdx * vdx + vdy * vdy
              = sqrt (vdx * vdx + vdy * vdy) * sqrt (vdx * vdx + vdy * vdy))
    by (symmetry; apply sqrt_sqrt; nra).
  rewrite E.
  change (((bx - vir * cos a) * vdx + (by_ - vir * sin a) * vdy)
          / (sqrt (vdx * vdx + vdy * vdy) * sqrt (vdx * vdx + vdy * vdy)))
    with (vg_t g).
  rewrite Rmin_right by lra. rewrite Rmax_right by lra.
  reflexivity.
Qed.

(** C3, counterexample.  The ball is 1 cm before the inner end point of
    vane 0 and 1 cm off its line, so about 1.4 cm from the end point, well
    within its radius of 3.5 cm: the clamped test of the specification
    reports a contact, the code resolves none. *)
Lemma vane_endpoint_counterexample :
  specVaneDistance (0.80 * (1 - 0.30)) 0.80 (INR 1) 0 0.55 0.01 < 0.035
  /\ vaneCollision (Fin (0.80 * (1 - 0.30))) 0 endpointState = endpointState
  /\ handleCollisions endpointState = Some endpointState.
Proof.
  assert (A : INR 0 / INR 1 * 2 * PI = 0) by (cbn [INR]; unfold Rdiv; ring).
  split; [|split].
  - unfold specVaneDistance. cbv zeta. rewrite A, cos_0, sin_0.
    set (t := _ / _).
    assert (Ht : t < 0).
    { unfold t.
      replace ((0.55 - 0.80 * (1 - 0.30) * 1)
               * (0.80 * 1 - 0.80 * (1 - 0.30) * 1)
        + (0.01 - 0.80 * (1 - 0.30) * 0) * (0.80 * 0 - 0.80 * (1 - 0.30) * 0))
        with (- (0.0024)) by lra.
      replace ((0.80 * 1 - 0.80 * (1 - 0.30) * 1)
               * (0.80 * 1 - 0.80 * (1 - 0.30) * 1)
        + (0.80 * 0 - 0.80 * (1 - 0.30) * 0)
          * (0.80 * 0 - 0.80 * (1 - 0.30) * 0))
        with 0.0576 by lra.
      lra. }
    rewrite Rmin_right by lra. rewrite Rmax_left by lra.
    apply sqrt_lt_of_sq; nra.
  - destruct (vaneGeom_axis (0.80 * (1 - 0.30)) 0.80 (INR 1) 0.55 0.01)
      as (L & T & _); [lra|].
    apply (vaneCollision_outside endpointState (0.80 * (1 - 0.30)) 0.80
             (INR 1) 0 0.55 0.01); try reflexivity.
    + cbn [INR]. lra.
    + rewrite L. lra.
    + left. rewrite T. lra.
  - assert (W : wallCollision endpointState = endpointState).
    { apply (wallCollision_miss _ 0.55 0.01 0.035 0.80); try reflexivity.
      assert (H : sqrt (0.55 * 0.55 + 0.01 * 0.01) <= 0.6)
        by (apply sqrt_le_of_sq; lra).
      lra. }
    unfold handleCollisions. rewrite W.
    unfold checkVaneCollisions.
    apply forLoop_fixed with (k := 1%nat); [apply tripCount_ofNat|].
    intros i Hi. assert (i = 0%nat) by lia. subst i.
    destruct (vaneGeom_axis (0.80 * (1 - 0.30)) 0.80 (INR 1) 0.55 0.01)
      as (L & T & _); [lra|].
    apply (vaneCollision_outside endpointState (0.80 * (1 - 0.30)) 0.80
             (INR 1) 0 0.55 0.01); try reflexivity.
    + cbn [INR]. lra.
    + rewrite L. lra.
    + left. rewrite T. lra.
Qed.

(** C3, as the code has it.  For vane [i] and a finite ball position, with
    [t] the unclamped projection parameter and [dist] the distance from
    the ball centre to the point of the line at [t]: outside [0, 1] the
    vane test changes nothing; inside, it changes nothing when
    [ballRadius <= dist], and whenever [dist < ballRadius] it runs the
    block that resolves the collision, which moves the ball (for
    [dist > 0]: by the penetration along the normal).  Inside [0, 1] the
    clamped distance of the specification is [dist]. *)
Theorem vane_collision_gate (s : DryerPhysics) (vir Rd n r : R) (i : nat)
    (bx by_ : R) :
  ball_x (ball s) = Fin bx -> ball_y (ball s) = Fin by_ ->
  radius (ball s) = Fin r ->
  drumRadius s = Fin Rd -> vaneCount s = Fin n ->
  let g := vaneGeom vir Rd n i bx by_ in
  n <> 0 -> vg_len g <> 0 ->
  let s' := vaneCollision (Fin vir) i s in
  (vg_t g < 0 \/ 1 < vg_t g -> s' = s)
  /\ (0 <= vg_t g <= 1 ->
      specVaneDistance vir Rd n i bx by_ = vg_dist g
      /\ (r <= vg_dist g -> s' = s)
      /\ (vg_dist g < r ->
          s' = vaneResolve i (Fin (vg_dx g)) (Fin (vg_dy g))
                 (Fin (vg_vdx g)) (Fin (vg_vdy g)) (Fin (vg_len g))
                 (Fin (vg_distX g)) (Fin (vg_distY g)) (Fin (vg_dist g)) s
          /\ s' <> s)
      /\ (0 < vg_dist g < r ->
          exists x' y',
            ball_x (ball s') = Fin x' /\ ball_y (ball s') = Fin y'
            /\ x' = bx + vg_distX g / vg_dist g * (r - vg_dist g)
            /\ y' = by_ + vg_distY g / vg_dist g * (r - vg_dist g))).
Proof.
  intros Hx Hy Hr HR Hn g Hn0 HL s'.
  destruct (vg_dist_sq vir Rd n i bx by_) as (D & DX & DY).
  fold g in D, DX, DY.
  split.
  - intros Ht. apply (vaneCollision_outside s vir Rd n i bx by_); assumption.
  - intros Ht. split; [now apply specVaneDistance_inside|].
    split; [|split].
    + intros Hd. apply (vaneCollision_far s vir Rd n r i bx by_); assumption.
    + intros Hd. unfold s'.
      rewrite (vaneCollision_inside s vir Rd n r i bx by_); try assumption.
      fold g. split; [reflexivity|].
      assert (P0 : 0 <= vg_dist g) by (rewrite D; apply sqrt_pos).
      destruct (Req_dec (vg_dist g) 0) as [Z|NZ].
      * assert (S0 : vg_distX g * vg_distX g + vg_distY g * vg_distY g = 0).
        { apply sqrt_eq_0; [apply sqrt_sum_sq_pos|]. now rewrite <- D. }
        assert (X0 : vg_distX g = 0) by nra.
        assert (Y0 : vg_distY g = 0) by nra.
        rewrite Z, X0, Y0. intros E.
        destruct (vaneResolve_degenerate s i (Fin (vg_dx g)) (Fin (vg_dy g))
                    (Fin (vg_vdx g)) (Fin (vg_vdy g)) (Fin (vg_len g)))
          as [Ex _].
        cbv zeta in Ex. rewrite E, Hx in Ex. discriminate Ex.
      * assert (Hd0 : 0 < vg_dist g) by lra.
        destruct (vaneResolve_position s i (Fin (vg_dx g)) (Fin (vg_dy g))
                    (Fin (vg_vdx g)) (Fin (vg_vdy g)) (Fin (vg_len g))
                    bx by_ r (vg_distX g) (vg_distY g) (vg_dist g) Hx Hy Hr)
          as [Ex Ey]; [lra|].
        intros E. rewrite E in Ex, Ey. rewrite Hx in Ex. rewrite Hy in Ey.
        injection Ex as Ex. injection Ey as Ey.
        assert (Ex' : bx = bx + vg_distX g / vg_dist g * (r - vg_dist g))
          by exact Ex.
        assert (Ey' : by_ = by_ + vg_distY g / vg_dist g * (r - vg_dist g))
          by exact Ey.
        assert (P : 0 < (r - vg_dist g) / vg_dist g).
        { apply Rdiv_lt_0_compat; lra. }
        assert (X0 : vg_distX g = 0).
        { assert (Z : vg_distX g * ((r - vg_dist g) / vg_dist g) = 0).
          { replace (vg_distX g * ((r - vg_dist g) / vg_dist g))
              with (vg_distX g / vg_dist g * (r - vg_dist g))
              by (field; lra).
            lra. }
          apply Rmult_integral in Z. destruct Z; lra. }
        assert (Y0 : vg_distY g = 0).
        { assert (Z : vg_distY g * ((r - vg_dist g) / vg_dist g) = 0).
          { replace (vg_distY g * ((r - vg_dist g) / vg_dist g))
              with (vg_distY g / vg_dist g * (r - vg_dist g))
              by (field; lra).
            lra. }
          apply Rmult_integral in Z. destruct Z; lra. }
        rewrite D, X0, Y0 in Hd0.
        replace (0 * 0 + 0 * 0) with 0 in Hd0 by ring.
        rewrite sqrt_0 in Hd0. lra.
    + intros [Hd0 Hd]. unfold s'.
      rewrite (vaneCollision_inside s vir Rd n r i bx by_); try assumption.
      destruct (vaneResolve_position s i (Fin (vg_dx g)) (Fin (vg_dy g))
                  (Fin (vg_vdx g)) (Fin (vg_vdy g)) (Fin (vg_len g))
                  bx by_ r (vg_distX g) (vg_distY g) (vg_dist g) Hx Hy Hr)
        as [Ex Ey]; [lra|].
      fold g.
      eexists _, _. split; [exact Ex|]. split; [exact Ey|].
      split; reflexivity.
Qed.

Lemma vane_collision_gate_witness :
  vaneCollision (Fin (0.80 * (1 - 0.30))) 0 endpointState = endpointState.
Proof.
  destruct (vaneGeom_axis (0.80 * (1 - 0.30)) 0.80 (INR 1) 0.55 0.01)
    as (L & T & _); [lra|].
  assert (N : INR 1 <> 0) by (cbn [INR]; lra).
  assert (G : vg_len (vaneGeom (0.80 * (1 - 0.30)) 0.80 (INR 1) 0 0.55 0.01)
              <> 0) by (rewrite L; lra).
  apply (proj1 (vane_collision_gate endpointState (0.80 * (1 - 0.30)) 0.80
                  (INR 1) 0.035 0 0.55 0.01 eq_refl eq_refl eq_refl eq_refl
                  eq_refl N G)).
  left. rewrite T. lra.
Defined.

End VaneTest.

(* ================================================================== *)
(** ** Reflection and restitution (C6) *)
(* ================================================================== *)

Section Reflection.




Lemma div_unit_interval (a b : R) : 0 < b -> 0 <= a <= b -> 0 <= a / b <= 1.
Proof.
  intros Hb [H0 H1]. split.
  - apply Rmult_le_pos; [exact H0|]. apply Rlt_le, Rinv_0_lt_compat, Hb.
  - replace 1 with (b / b) by (field; lra).
    apply Rmult_le_compat_r; [|exact H1].
    apply Rlt_le, Rinv_0_lt_compat, Hb.
Qed.


End Reflection.

(* ================================================================== *)
(** ** Lint trap (C7) and debounce (C5) *)
(* ================================================================== *)

Section Events.

Lemma updateSurfaces_eq (s s' : DryerPhysics) :
  updateSurfaces s = Some s' ->
  exists n, tripCount (vaneCount s) = Some n
            /\ s' = set_surfaces (flat_map surfacesOf (seq 0 n)) s.
Proof.
  unfold updateSurfaces, forLoop. cbn [vaneCount set_surfaces].
  destruct (tripCount (vaneCount s)) as [n|]; [|discriminate].
  intros H. injection H as <-. exists n. split; [reflexivity|].
  assert (G : forall l acc,
             fold_left
               (fun acc i => set_surfaces (surfaces acc ++ surfacesOf i) acc)
               l (set_surfaces acc s)
             = set_surfaces (acc ++ flat_map surfacesOf l) s).
  { induction l as [|i l IH]; intros acc; cbn [fold_left flat_map].
    - now rewrite app_nil_r.
    - cbn [surfaces set_surfaces].
      change (set_surfaces (acc ++ surfacesOf i)%list (set_surfaces acc s))
        with (set_surfaces (acc ++ surfacesOf i)%list s).
      rewrite IH, <- app_assoc. reflexivity. }
  apply (G (seq 0 n) []).
Qed.

Lemma constructor_defaults (now : Z) (s : DryerPhysics) :
  constructor now = Some s ->
  lintTrapEnabled s = false /\ lintTrapThreshold s = Fin 0.15
  /\ lastCollisionSurface s = None /\ timers s = [].
Proof.
  unfold constructor. intros H.
  apply updateSurfaces_eq in H as (n & _ & ->). repeat split.
Qed.

(** C7.  With the lint trap enabled, an impact whose speed is below the
    threshold returns at once: nothing is notified and the slot, the
    timers and every other field are what they were.  With the lint trap
    disabled the same impact, unless the slot already holds its surface
    id, invokes every listener once and takes the slot.  The constructor
    sets the threshold to 0.15 and leaves the trap disabled. *)
Theorem lint_trap_filter (surface : Surface) (velocity : jsnum)
    (s : DryerPhysics) :
  (velocity <? lintTrapThreshold s)%js = true ->
  triggerCollision surface velocity (setLintTrap true s) = setLintTrap true s
  /\ (slotIs (lastCollisionSurface s) (surf_id surface) = false ->
      let s' := triggerCollision surface velocity (setLintTrap false s) in
      calls s' = (calls s ++ List.map (fun cb => mkCall cb surface velocity)
                                      (collisionCallbacks s))%list
      /\ lastCollisionSurface s' = Some (surf_id surface))
  /\ (forall now s0, constructor now = Some s0 ->
      lintTrapEnabled s0 = false /\ lintTrapThreshold s0 = Fin 0.15).
Proof.
  intros Hv. split; [|split].
  - unfold triggerCollision, setLintTrap.
    cbn [lintTrapEnabled lintTrapThreshold set_lintTrapEnabled].
    rewrite Hv. reflexivity.
  - intros Hslot s'. unfold s', triggerCollision, setLintTrap.
    cbn [lintTrapEnabled lintTrapThreshold set_lintTrapEnabled
         lastCollisionSurface andb].
    rewrite Hslot. split; reflexivity.
  - intros now s0 H. apply constructor_defaults in H. tauto.
Qed.

(** An impact at 0.1 m/s on drum segment 0 of a fresh engine. *)
Lemma lint_trap_filter_witness :
  triggerCollision drum0 (Fin 0.1) (setLintTrap true idleState)
  = setLintTrap true idleState
  /\ notified (triggerCollision drum0 (Fin 0.1) (setLintTrap false idleState))
     = ["drum_0"%string].
Proof.
  assert (Hv : (Fin 0.1 <? lintTrapThreshold idleState)%js = true).
  { apply jlt_fin. lra. }
  destruct (lint_trap_filter drum0 (Fin 0.1) idleState Hv) as (A & B & _).
  split; [exact A|].
  destruct (B eq_refl) as [C _]. unfold notified. rewrite C. reflexivity.
Defined.

Lemma runTimers_idle (now : Z) (s : DryerPhysics) :
  timers s = [] -> runTimers now s = set_clock now (set_timers [] s).
Proof. intros H. unfold runTimers. rewrite H. reflexivity. Qed.

(** The debounce on an idle engine (empty slot, no pending timer, one
    listener, lint trap off): an impact on [A] at [t0] is notified; until
    [t0 + 50] a further impact on [A] is not, an impact on another
    surface [B] is; from [t0 + 50] on an impact on [A] is notified again. *)
Lemma debounce_idle (s : DryerPhysics) (A B : Surface) (v : jsnum)
    (cb : Listener) (t0 t1 : Z) :
  lintTrapEnabled s = false -> lastCollisionSurface s = None ->
  timers s = [] -> collisionCallbacks s = [cb] ->
  surf_id A <> surf_id B ->
  let s1 := impactAt t0 A v s in
  notified s1 = (notified s ++ [surf_id A])%list
  /\ ((t1 < t0 + 50)%Z -> notified (impactAt t1 A v s1) = notified s1)
  /\ ((t1 < t0 + 50)%Z ->
      notified (impactAt t1 B v s1) = (notified s1 ++ [surf_id B])%list)
  /\ ((t0 + 50 <= t1)%Z ->
      notified (impactAt t1 A v s1) = (notified s1 ++ [surf_id A])%list).
Proof.
  intros Hl Hs Ht Hc Hab s1.
  assert (E1 : s1 =
    set_calls (calls s ++ [mkCall cb A v])
      (set_timers [((t0 + 50)%Z, surf_id A)]
         (set_lastCollisionSurface (Some (surf_id A))
            (set_clock t0 (set_timers [] s))))).
  { unfold s1, impactAt. rewrite (runTimers_idle t0 s Ht).
    unfold triggerCollision.
    cbn [lintTrapEnabled lastCollisionSurface set_clock set_timers
         set_lastCollisionSurface clock timers calls collisionCallbacks].
    rewrite Hl, Hs, Hc. reflexivity. }
  assert (N1 : notified s1 = (notified s ++ [surf_id A])%list).
  { rewrite E1. unfold notified. cbn [calls set_calls].
    rewrite List.map_app. reflexivity. }
  assert (AA : String.eqb (surf_id A) (surf_id A) = true)
    by apply String.eqb_refl.
  assert (AB : String.eqb (surf_id A) (surf_id B) = false)
    by (apply String.eqb_neq; exact Hab).
  split; [exact N1|]. split; [|split].
  - intros Hlt. unfold impactAt at 1. unfold runTimers.
    rewrite E1 at 1 2 3. cbn [timers set_calls set_timers filter fst].
    replace (t0 + 50 <=? t1)%Z with false by (symmetry; apply Z.leb_gt; lia).
    cbn [negb fold_left]. unfold triggerCollision.
    cbn [lintTrapEnabled lastCollisionSurface set_clock set_timers
         set_calls set_lastCollisionSurface slotIs].
    rewrite Hl, AA. cbn [andb].
    unfold notified. cbn [calls set_clock set_timers set_calls].
    rewrite E1. reflexivity.
  - intros Hlt. unfold impactAt at 1. unfold runTimers.
    rewrite E1 at 1 2 3. cbn [timers set_calls set_timers filter fst].
    replace (t0 + 50 <=? t1)%Z with false by (symmetry; apply Z.leb_gt; lia).
    cbn [negb fold_left]. unfold triggerCollision.
    cbn [lintTrapEnabled lastCollisionSurface set_clock set_timers
         set_calls set_lastCollisionSurface slotIs].
    rewrite Hl, AB. cbn [andb].
    unfold notified.
    cbn [calls set_clock set_timers set_calls set_lastCollisionSurface
         collisionCallbacks].
    rewrite Hc, List.map_app. rewrite E1 at 1. reflexivity.
  - intros Hge. unfold impactAt at 1. unfold runTimers.
    rewrite E1 at 1 2 3. cbn [timers set_calls set_timers filter fst].
    replace (t0 + 50 <=? t1)%Z with true by (symmetry; apply Z.leb_le; lia).
    cbn [negb fold_left snd]. unfold timerCallback.
    cbn [lastCollisionSurface set_clock set_timers set_calls
         set_lastCollisionSurface slotIs].
    rewrite AA. unfold triggerCollision.
    cbn [lintTrapEnabled lastCollisionSurface set_clock set_timers
         set_calls set_lastCollisionSurface slotIs].
    rewrite Hl. cbn [andb].
    unfold notified.
    cbn [calls set_clock set_timers set_calls set_lastCollisionSurface
         collisionCallbacks].
    rewrite Hc, List.map_app. rewrite E1 at 1. reflexivity.
Qed.

(** C5, the trace on which the code departs from the claim.  Impacts on
    drum segment 0 at 0 ms, on the leading face of vane 0 at 10 ms and on
    drum segment 0 again at 20 ms are all notified (the slot changed in
    between).  The timer set at 0 ms for drum segment 0 is still pending:
    at 50 ms it finds the slot holding that id (taken at 20 ms) and clears
    it, so the impact on drum segment 0 at 55 ms, 35 ms after the last
    notification of that surface and with no other surface in between, is
    notified as well. *)
Theorem debounce_stale_timer :
  let v := Fin 1 in
  let s1 := impactAt 0 drum0 v idleState in
  let s2 := impactAt 10 vane0lead v s1 in
  let s3 := impactAt 20 drum0 v s2 in
  let s4 := impactAt 55 drum0 v s3 in
  notified s3 = ["drum_0"; "vane_0_lead"; "drum_0"]%string
  /\ lastCollisionSurface s3 = Some "drum_0"%string
  /\ timers s3 = [(50, "drum_0"); (60, "vane_0_lead"); (70, "drum_0")]%string%Z
  /\ lastCollisionSurface (runTimers 55 s3) = None
  /\ notified s4 = ["drum_0"; "vane_0_lead"; "drum_0"; "drum_0"]%string.
Proof.
  cbv zeta. repeat split; reflexivity.
Qed.

End Events.

(* ================================================================== *)
(** ** Degenerate geometry (C8) *)
(* ================================================================== *)

Section Degenerate.

(** Once the position is NaN no vane test fires any more. *)
Lemma vaneCollision_nan (vir : jsnum) (i : nat) (s : DryerPhysics) :
  ball_x (ball s) = NaN -> ball_y (ball s) = NaN ->
  vaneCollision vir i s = s.
Proof.
  intros Hx Hy. unfold vaneCollision. cbv zeta. rewrite Hx, Hy.
  rewrite !jsub_nan_l, !jmul_nan_l, !jadd_nan_l, !jdiv_nan_l.
  reflexivity.
Qed.

Lemma forLoop_first {S : Type} (n : jsnum) (k : nat) (body : nat -> S -> S)
    (s : S) :
  tripCount n = Some (Datatypes.S k) ->
  (forall i, (0 < i)%nat -> body i (body 0%nat s) = body 0%nat s) ->
  forLoop n body s = Some (body 0%nat s).
Proof.
  intros Hk Hfix. unfold forLoop. rewrite Hk. f_equal.
  cbn [seq fold_left].
  assert (G : forall l, (forall i, In i l -> (0 < i)%nat) ->
                        fold_left (fun acc i => body i acc) l (body 0%nat s)
                        = body 0%nat s).
  { induction l as [|i l IH]; intros Hl; cbn [fold_left]; [reflexivity|].
    rewrite Hfix by (apply Hl; now left). apply IH.
    intros j Hj. apply Hl. now right. }
  apply G. intros i Hi. apply in_seq in Hi. lia.
Qed.

(** A ball centre on the line of vane 0, between its end points and clear
    of the wall: the vane test divides [0] by [0]. *)
Lemma handleCollisions_on_vane (s : DryerPhysics) (bx r Rd h : R)
    (k : nat) :
  ball_x (ball s) = Fin bx -> ball_y (ball s) = Fin 0 ->
  radius (ball s) = Fin r -> drumRadius s = Fin Rd ->
  vaneHeight s = Fin h -> vaneCount s = ofNat (S k) ->
  0 < r -> 0 <= bx -> Rd * (1 - h) < Rd ->
  Rd * (1 - h) <= bx <= Rd -> bx + r <= Rd ->
  exists s',
    handleCollisions s = Some s'
    /\ ball_x (ball s') = NaN /\ ball_y (ball s') = NaN.
Proof.
  intros Hx Hy Hr HR Hh Hn Hr0 Hb0 Hv Hb Hw.
  set (vir := Rd * (1 - h)) in *.
  assert (W : wallCollision s = s).
  { apply (wallCollision_miss _ bx 0 r Rd); try assumption.
    assert (H : sqrt (bx * bx + 0 * 0) <= bx)
      by (apply sqrt_le_of_sq; nra).
    lra. }
  destruct (vaneGeom_axis vir Rd (INR (S k)) bx 0 Hv)
    as (L & T & DX & DY & D & _).
  assert (Nk : INR (S k) <> 0) by (apply not_0_INR; lia).
  assert (V : vaneCollision (Fin vir) 0 s
              = vaneResolve 0
                  (Fin (vg_dx (vaneGeom vir Rd (INR (S k)) 0 bx 0)))
                  (Fin (vg_dy (vaneGeom vir Rd (INR (S k)) 0 bx 0)))
                  (Fin (vg_vdx (vaneGeom vir Rd (INR (S k)) 0 bx 0)))
                  (Fin (vg_vdy (vaneGeom vir Rd (INR (S k)) 0 bx 0)))
                  (Fin (vg_len (vaneGeom vir Rd (INR (S k)) 0 bx 0)))
                  (Fin 0) (Fin 0) (Fin 0) s).
  { rewrite (vaneCollision_inside s vir Rd (INR (S k)) r 0 bx 0);
      try assumption.
    - rewrite DX, DY, D, Rabs_R0. reflexivity.
    - rewrite L. lra.
    - rewrite T. apply div_unit_interval; lra.
    - rewrite D, Rabs_R0. lra. }
  match type of V with _ = vaneResolve 0 ?a ?b ?c ?d ?e _ _ _ _ =>
    destruct (vaneResolve_degenerate s 0 a b c d e) as [Nx Ny]
  end.
  rewrite <- V in Nx, Ny.
  exists (vaneCollision (Fin vir) 0 s).
  split; [|split; assumption].
  unfold handleCollisions. rewrite W. unfold checkVaneCollisions.
  rewrite HR, Hh, Hn. cbn [jsub jmul]. fold vir.
  apply forLoop_first with (k := k).
  - apply tripCount_ofNat.
  - intros i _. apply vaneCollision_nan; assumption.
Qed.

Lemma jgt_fin (a b : R) : jgt (Fin a) (Fin b) = true <-> b < a.
Proof. unfold jgt. apply jlt_fin. Qed.

Lemma centrifugalForce_at_rest (s : DryerPhysics) (bx by_ : R) :
  ball_x (ball s) = Fin bx -> ball_y (ball s) = Fin by_ ->
  drumAngularVelocity s = Fin 0 ->
  exists cx cy s1,
    centrifugalForce s = (Fin cx, Fin cy, s1)
    /\ cx = 0 /\ cy = 0 /\ sameButDebug s s1.
Proof.
  intros Hx Hy Hw. unfold centrifugalForce. cbv zeta.
  rewrite Hx, Hy, Hw. cbn [jmul jadd].
  rewrite jsqrt_fin by apply sqrt_sum_sq_pos.
  set (d := sqrt (bx * bx + by_ * by_)).
  destruct (enableCentrifugal s).
  - destruct (jgt (Fin d) (Fin 0.0001)) eqn:E.
    + apply jgt_fin in E. rewrite !jdiv_fin by lra. cbn [jmul].
      eexists _, _, _. split; [reflexivity|].
      split; [ring|]. split; [ring|]. reflexivity.
    + exists 0, 0, s. repeat split. now destruct s.
  - exists 0, 0, s. repeat split. now destruct s.
Qed.

Lemma sameButDebug_fields (s s1 : DryerPhysics) :
  sameButDebug s s1 ->
  ball s1 = ball s /\ drumAngularVelocity s1 = drumAngularVelocity s
  /\ enableCoriolis s1 = enableCoriolis s
  /\ coriolisSignFlip s1 = coriolisSignFlip s
  /\ enableAirDrag s1 = enableAirDrag s
  /\ useQuadraticDrag s1 = useQuadraticDrag s
  /\ drumRadius s1 = drumRadius s /\ vaneHeight s1 = vaneHeight s
  /\ vaneCount s1 = vaneCount s.
Proof.
  unfold sameButDebug. intros E. rewrite E. repeat split.
Qed.

Lemma sameButDebug_trans (s s1 s2 : DryerPhysics) :
  sameButDebug s s1 -> sameButDebug s1 s2 -> sameButDebug s s2.
Proof.
  unfold sameButDebug. intros E1 E2. rewrite E2 at 1. rewrite E1 at 1.
  reflexivity.
Qed.

Lemma coriolisForce_at_rest (s : DryerPhysics) (bvx bvy : R) :
  ball_vx (ball s) = Fin bvx -> ball_vy (ball s) = Fin bvy ->
  drumAngularVelocity s = Fin 0 -> coriolisSignFlip s = Fin 1 ->
  exists ox oy s1,
    coriolisForce s = (Fin ox, Fin oy, s1)
    /\ ox = 0 /\ oy = 0 /\ sameButDebug s s1.
Proof.
  intros Hvx Hvy Hw Hs. unfold coriolisForce. cbv zeta.
  rewrite Hvx, Hvy, Hw, Hs.
  assert (T : jor (Fin 1) (Fin 1) = Fin 1).
  { unfold jor, truthy. destruct (Req_dec_T 1 0); [lra|reflexivity]. }
  rewrite T. cbn [jmul jadd].
  destruct (enableCoriolis s).
  - eexists _, _, _. split; [reflexivity|].
    split; [ring|]. split; [ring|]. reflexivity.
  - exists 0, 0, s. repeat split. now destruct s.
Qed.

Lemma step_rising :
  exists sm,
    step (Fin (1 / 128)) risingState = handleCollisions sm
    /\ ball_x (ball sm) = Fin 0.4 /\ ball_y (ball sm) = Fin 0
    /\ radius (ball sm) = Fin 0.035 /\ drumRadius sm = Fin 0.80
    /\ vaneHeight sm = Fin 0.50 /\ vaneCount sm = ofNat 5.
Proof.
  unfold step. cbv zeta.
  set (s0 := set_drumAngle _ risingState).
  destruct (centrifugalForce_at_rest s0 0.4 0)
    as (cx & cy & s1 & E1 & -> & -> & D1); try reflexivity.
  destruct (sameButDebug_fields s0 s1 D1)
    as (B1 & W1 & _ & S1 & A1 & Q1 & R1 & H1 & N1).
  destruct (coriolisForce_at_rest s1 0 (9.81 * (1 / 128)))
    as (ox & oy & s2 & E2 & -> & -> & D2);
    try (rewrite ?B1, ?W1, ?S1; reflexivity).
  destruct (sameButDebug_fields s1 s2 D2)
    as (B2 & W2 & _ & S2 & A2 & Q2 & R2 & H2 & N2).
  rewrite E1, E2.
  assert (E3 : airDrag (Fin (1 / 128)) s2 = (Fin 0, Fin 0, s2)).
  { unfold airDrag. rewrite A2, A1. reflexivity. }
  rewrite E3, Q2, Q1.
  change (useQuadraticDrag s0) with false. cbv iota.
  change (drumAngle s0) with (Fin (0 + 0 * (1 / 128))).
  change (gravity s0) with (Fin 9.81).
  cbn [jcos jsin jneg jmul jadd].
  unfold integrate. cbv zeta.
  eexists. split; [reflexivity|].
  unfold assign_x, assign_y, assign_vx, assign_vy.
  cbn [ball set_ball set_debugInfo ball_x ball_y ball_vx ball_vy radius
       set_ball_x set_ball_y set_ball_vx set_ball_vy
       drumRadius vaneHeight vaneCount].
  rewrite B2, B1, R2, R1, H2, H1, N2, N1.
  change (ball s0) with (tennisBallAt 0.4 0 0 (9.81 * (1 / 128))).
  unfold tennisBallAt.
  cbn [ball_x ball_y ball_vx ball_vy radius jmul jadd].
  assert (Z0 : 0 + 0 * (1 / 128) = 0) by lra.
  rewrite Z0, sin_0, cos_0.
  split; [f_equal; lra|]. split; [f_equal; lra|].
  repeat split.
Qed.

(** The guard of the centrifugal term: on the axis the term is zero. *)
Lemma centrifugal_guard_on_axis (s : DryerPhysics) :
  ball_x (ball s) = Fin 0 -> ball_y (ball s) = Fin 0 ->
  centrifugalForce s = (Fin 0, Fin 0, s).
Proof.
  intros Hx Hy. unfold centrifugalForce. cbv zeta. rewrite Hx, Hy.
  cbn [jmul jadd]. rewrite jsqrt_fin by lra.
  replace (0 * 0 + 0 * 0) with 0 by ring. rewrite sqrt_0.
  replace (jgt (Fin 0) (Fin 0.0001)) with false
    by (symmetry; unfold jgt; apply jlt_fin_false; lra).
  now destruct (enableCentrifugal s).
Qed.

(** The wall normal has no such guard: a ball on the axis that is larger
    than the drum gets the normal [0/0]. *)
Lemma wall_normal_nan_on_axis (s : DryerPhysics) (r Rd : R) :
  ball_x (ball s) = Fin 0 -> ball_y (ball s) = Fin 0 ->
  radius (ball s) = Fin r -> drumRadius s = Fin Rd -> Rd < r ->
  ball_x (ball (wallCollision s)) = NaN
  /\ ball_y (ball (wallCollision s)) = NaN.
Proof.
  intros Hx Hy Hr HR Hlt. unfold wallCollision. cbv zeta. ball_fields.
  rewrite Hx, Hy, Hr, HR. cbn [jmul jadd jneg].
  rewrite jsqrt_fin by lra.
  replace (0 * 0 + 0 * 0) with 0 by ring. rewrite sqrt_0, Ropp_0.
  cbn [jadd jsub]. unfold jgt.
  replace (jlt (Fin Rd) (Fin (0 + r))) with true
    by (symmetry; apply jlt_fin; lra).
  rewrite jdiv_zero_zero.
  repeat rewrite ?jmul_nan_l, ?jadd_nan_r, ?jmul_nan_r.
  cbn [jlt]. ball_fields. split; reflexivity.
Qed.

(** C8, the input on which the code departs from the claim.  The ball
    centre lies on vane 0 (here on its inner end point): [dist] is 0, the
    test [dist < radius] passes and the normal is [0/0].  When
    [handleCollisions] returns the position of the ball is NaN; and a
    [step] that brings the ball to that point returns it with a NaN
    position. *)
Theorem vane_normal_nan :
  (exists s',
     handleCollisions onVaneState = Some s'
     /\ ball_x (ball s') = NaN /\ ball_y (ball s') = NaN)
  /\ (exists s',
       step (Fin (1 / 128)) risingState = Some s'
       /\ ball_x (ball s') = NaN /\ ball_y (ball s') = NaN).
Proof.
  split.
  - apply (handleCollisions_on_vane onVaneState 0.4 0.035 0.80 0.50 4);
      try reflexivity; lra.
  - destruct step_rising as (sm & E & X & Y & R & D & H & N).
    rewrite E.
    apply (handleCollisions_on_vane sm 0.4 0.035 0.80 0.50 4);
      try assumption; lra.
Qed.

End Degenerate.

(* ================================================================== *)
(** ** Configuration updates (C4) *)
(* ================================================================== *)

Section Configuration.

Lemma updateSurfaces_run (s : DryerPhysics) (n : nat) :
  tripCount (vaneCount s) = Some n ->
  updateSurfaces s = Some (set_surfaces (flat_map surfacesOf (seq 0 n)) s).
Proof.
  intros Hn.
  destruct (updateSurfaces_total s) as [s' Hs'].
  { intros E. rewrite E in Hn. discriminate. }
  rewrite Hs'. apply updateSurfaces_eq in Hs' as (k & Hk & ->).
  rewrite Hn in Hk. injection Hk as <-. reflexivity.
Qed.

Lemma jfloor_IZR (k : Z) : jfloor (Fin (IZR k)) = Fin (IZR k).
Proof. unfold jfloor. now rewrite Int_part_IZR. Qed.

Lemma wallCollision_nan (s : DryerPhysics) :
  ball_x (ball s) = NaN -> wallCollision s = s.
Proof.
  intros Hx. unfold wallCollision. cbv zeta. rewrite Hx.
  repeat (rewrite ?jmul_nan_l, ?jadd_nan_l; cbn [jsqrt]).
  unfold jgt. destruct (drumRadius s); reflexivity.
Qed.

Lemma handleCollisions_nan (s s' : DryerPhysics) :
  ball_x (ball s) = NaN -> ball_y (ball s) = NaN ->
  handleCollisions s = Some s' -> s' = s.
Proof.
  intros Hx Hy. unfold handleCollisions.
  rewrite (wallCollision_nan s Hx). unfold checkVaneCollisions.
  intros H.
  destruct (tripCount (vaneCount s)) as [k|] eqn:Hk.
  - rewrite (forLoop_fixed (vaneCount s) k) in H; auto.
    + now injection H.
    + intros i _. now apply vaneCollision_nan.
  - unfold forLoop in H. rewrite Hk in H. discriminate.
Qed.

Lemma centrifugalForce_frame (s : DryerPhysics) :
  let '(_, _, s') := centrifugalForce s in
  drumAngle s' = drumAngle s /\ vaneCount s' = vaneCount s.
Proof.
  unfold centrifugalForce. cbv zeta.
  repeat destruct_if; split; reflexivity.
Qed.

Lemma coriolisForce_frame (s : DryerPhysics) :
  let '(_, _, s') := coriolisForce s in
  drumAngle s' = drumAngle s /\ vaneCount s' = vaneCount s.
Proof.
  unfold coriolisForce. cbv zeta.
  repeat destruct_if; split; reflexivity.
Qed.

Lemma airDrag_frame (dt : jsnum) (s : DryerPhysics) :
  let '(_, _, s') := airDrag dt s in
  drumAngle s' = drumAngle s /\ vaneCount s' = vaneCount s.
Proof.
  unfold airDrag. cbv zeta.
  repeat destruct_if; split; reflexivity.
Qed.

Lemma handleCollisions_nan_run (s : DryerPhysics) :
  ball_x (ball s) = NaN -> ball_y (ball s) = NaN ->
  vaneCount s <> PInf ->
  handleCollisions s = Some s.
Proof.
  intros Hx Hy Hn. unfold handleCollisions.
  rewrite (wallCollision_nan s Hx). unfold checkVaneCollisions.
  destruct (tripCount (vaneCount s)) as [k|] eqn:Hk.
  - apply forLoop_fixed with (k := k); [exact Hk|].
    intros i _. now apply vaneCollision_nan.
  - destruct (vaneCount s) as [r|[|]|]; try discriminate. now elim Hn.
Qed.

(** A NaN angular velocity reaches the drum angle and the ball in one
    step. *)
Lemma step_nan_mid (dt : jsnum) (s : DryerPhysics) :
  drumAngularVelocity s = NaN ->
  exists sm, step dt s = handleCollisions sm
             /\ drumAngle sm = NaN /\ vaneCount sm = vaneCount s
             /\ ball_x (ball sm) = NaN /\ ball_y (ball sm) = NaN.
Proof.
  intros Hw. unfold step. cbv zeta. rewrite Hw.
  rewrite jmul_nan_l, jadd_nan_r.
  set (s0 := set_drumAngle NaN s).
  change (drumAngle s0) with NaN. cbn [jsin jcos].
  rewrite !jmul_nan_r.
  pose proof (centrifugalForce_frame s0) as F1.
  destruct (centrifugalForce s0) as [[cx cy] s1].
  pose proof (coriolisForce_frame s1) as F2.
  destruct (coriolisForce s1) as [[ox oy] s2].
  pose proof (airDrag_frame dt s2) as F3.
  destruct (airDrag dt s2) as [[dx dy] s3].
  rewrite !jadd_nan_l.
  assert (A : (if useQuadraticDrag s3 then NaN else NaN) = NaN)
    by (destruct (useQuadraticDrag s3); reflexivity).
  rewrite !A. unfold integrate. cbv zeta.
  rewrite !jmul_nan_l, !jadd_nan_r.
  match goal with |- context [handleCollisions ?m] => set (sm := m) end.
  exists sm. split; [reflexivity|].
  destruct F1 as [F1 G1], F2 as [F2 G2], F3 as [F3 G3].
  split; [|split; [|split; reflexivity]].
  - unfold sm, assign_x, assign_y, assign_vx, assign_vy.
    cbn [drumAngle set_ball set_debugInfo]. rewrite F3, F2, F1. reflexivity.
  - unfold sm, assign_x, assign_y, assign_vx, assign_vy.
    cbn [vaneCount set_ball set_debugInfo]. rewrite G3, G2, G1. reflexivity.
Qed.

Lemma step_nan (dt : jsnum) (s : DryerPhysics) :
  drumAngularVelocity s = NaN -> vaneCount s <> PInf ->
  exists s', step dt s = Some s'
             /\ drumAngle s' = NaN
             /\ ball_x (ball s') = NaN /\ ball_y (ball s') = NaN.
Proof.
  intros Hw Hn.
  destruct (step_nan_mid dt s Hw) as (sm & E & A & V & X & Y).
  exists sm. rewrite E. split; [|tauto].
  apply handleCollisions_nan_run; try assumption. now rewrite V.
Qed.

Lemma setParameters_run (rpmIn sizeIn vcIn heightIn : jsnum)
    (s : DryerPhysics) (n : nat) :
  tripCount (jfloor vcIn) = Some n ->
  setParameters rpmIn sizeIn vcIn heightIn s =
  Some (set_surfaces (flat_map surfacesOf (seq 0 n))
          (set_drumAngularVelocity (rpmIn * Fin 2 * jPI / Fin 60)%js
             (set_vaneHeight (heightIn / Fin 100)%js
                (set_vaneCount (jfloor vcIn)
                   (set_drumRadius (sizeIn / Fin 100)%js
                      (set_rpm rpmIn s)))))).
Proof.
  intros Hn. unfold setParameters. cbv zeta.
  now apply updateSurfaces_run.
Qed.

(** C4, counterexample.  On a freshly constructed engine (5 vanes, 15
    surfaces) [setParameters(20, 80, 0, 30)] is accepted and stores the
    vane count 0 with an empty surface set: the update is neither
    rejected nor clamped.  [setParameters(NaN, 80, 5, 30)] stores a NaN
    angular velocity, and the next [step] leaves the drum angle and the
    ball position NaN. *)
Lemma setParameters_counterexample :
  exists s0 s1 s2 s3 : DryerPhysics,
    constructor 0 = Some s0
    /\ vaneCount s0 = Fin 5 /\ List.length (surfaces s0) = 15%nat
    /\ setParameters (Fin 20) (Fin 80) (Fin 0) (Fin 30) s0 = Some s1
    /\ vaneCount s1 = Fin 0 /\ surfaces s1 = []
    /\ setParameters NaN (Fin 80) (Fin 5) (Fin 30) s0 = Some s2
    /\ drumAngularVelocity s2 = NaN
    /\ step (Fin (1 / 240)) s2 = Some s3
    /\ drumAngle s3 = NaN
    /\ ball_x (ball s3) = NaN /\ ball_y (ball s3) = NaN.
Proof.
  assert (T5 : tripCount (Fin 5) = Some 5%nat) by apply (tripCount_IZR 5).
  assert (F0 : jfloor (Fin 0) = Fin 0) by apply (jfloor_IZR 0).
  assert (F5 : jfloor (Fin 5) = Fin 5) by apply (jfloor_IZR 5).
  assert (T0 : tripCount (jfloor (Fin 0)) = Some 0%nat)
    by (rewrite F0; apply (tripCount_IZR 0)).
  assert (T5' : tripCount (jfloor (Fin 5)) = Some 5%nat)
    by (rewrite F5; exact T5).
  pose (s0 := set_surfaces (flat_map surfacesOf (seq 0 5))
                (reset (fields0 0))).
  assert (C : constructor 0 = Some s0).
  { unfold constructor. now apply updateSurfaces_run. }
  pose proof (setParameters_run (Fin 20) (Fin 80) (Fin 0) (Fin 30) s0 0 T0)
    as P1.
  pose proof (setParameters_run NaN (Fin 80) (Fin 5) (Fin 30) s0 5 T5')
    as P2.
  match type of P2 with _ = Some ?x => set (s2 := x) in * end.
  destruct (step_nan (Fin (1 / 240)) s2) as (s3 & S & A & X & Y).
  { reflexivity. }
  { unfold s2. cbn [vaneCount set_surfaces set_drumAngularVelocity
                    set_vaneHeight set_vaneCount]. rewrite F5. discriminate. }
  eexists s0, _, s2, s3.
  split; [exact C|]. split; [reflexivity|]. split; [reflexivity|].
  split; [exact P1|].
  split; [cbn [vaneCount set_surfaces set_drumAngularVelocity set_vaneHeight
               set_vaneCount]; exact F0|].
  split; [reflexivity|]. split; [exact P2|]. split; [reflexivity|].
  split; [exact S|]. split; [exact A|]. split; [exact X|exact Y].
Qed.

(** C4, as the code has it.  [setParameters] validates nothing: whenever
    it returns (the floored vane count is not [+Infinity]) it has stored
    [rpm], [drumSizeCm / 100], [floor(vaneCount)] and
    [vaneHeightPercent / 100] as given, recomputed the angular velocity
    and regenerated the surfaces for the indices below the loop bound;
    the ball is untouched.  A NaN [rpm] makes the drum angle and the ball
    position NaN in the next [step]. *)
Theorem setParameters_unvalidated
    (rpmIn sizeIn vcIn heightIn : jsnum) (s : DryerPhysics) :
  jfloor vcIn <> PInf ->
  exists (s' : DryerPhysics) (n : nat),
    setParameters rpmIn sizeIn vcIn heightIn s = Some s'
    /\ rpm s' = rpmIn
    /\ drumRadius s' = (sizeIn / Fin 100)%js
    /\ vaneCount s' = jfloor vcIn
    /\ vaneHeight s' = (heightIn / Fin 100)%js
    /\ drumAngularVelocity s' = (rpmIn * Fin 2 * jPI / Fin 60)%js
    /\ tripCount (jfloor vcIn) = Some n
    /\ surfaces s' = flat_map surfacesOf (seq 0 n)
    /\ ball s' = ball s
    /\ (rpmIn = NaN ->
        forall dt, exists s'',
          step dt s' = Some s''
          /\ drumAngle s'' = NaN
          /\ ball_x (ball s'') = NaN /\ ball_y (ball s'') = NaN).
Proof.
  intros Hinf.
  assert (Hn : exists n, tripCount (jfloor vcIn) = Some n).
  { destruct (jfloor vcIn) as [r|[|]|]; cbn [tripCount]; eauto.
    now elim Hinf. }
  destruct Hn as [n Hn].
  eexists _, n. split; [apply (setParameters_run _ _ _ _ _ n Hn)|].
  repeat (split; [reflexivity|]). split; [exact Hn|].
  repeat (split; [reflexivity|]).
  intros -> dt. apply step_nan; [reflexivity|exact Hinf].
Qed.

Lemma setParameters_unvalidated_witness :
  exists s',
    setParameters (Fin 20) (Fin (-10)) (Fin 0) (Fin 30) (fields0 0) = Some s'
    /\ drumRadius s' = (Fin (-10) / Fin 100)%js
    /\ vaneCount s' = Fin 0 /\ surfaces s' = [].
Proof.
  assert (F0 : jfloor (Fin 0) = Fin 0) by apply (jfloor_IZR 0).
  assert (H : jfloor (Fin 0) <> PInf) by (rewrite F0; discriminate).
  destruct (setParameters_unvalidated (Fin 20) (Fin (-10)) (Fin 0) (Fin 30)
              (fields0 0) H)
    as (s' & n & E & _ & R & V & _ & _ & T & S & _).
  exists s'. split; [exact E|]. split; [exact R|].
  split; [now rewrite V|].
  rewrite F0 in T. rewrite (tripCount_IZR 0) in T. injection T as <-.
  exact S.
Defined.

End Configuration.

(* ================================================================== *)
(** ** Segment classification (C2) *)
(* ================================================================== *)

Section Segments.

Lemma wallImpact_unfold (nx ny vn : jsnum) (s : DryerPhysics) :
  wallImpact nx ny vn s =
  let k := specSegmentIndex (ball_y (ball s)) (ball_x (ball s))
             (vaneCount s) (segmentIndexOffset s) in
  match find (fun sf => SurfaceType_eqb (surf_type sf) drum
                        && jeq (surf_index sf) k) (surfaces s) with
  | Some surface => triggerCollision surface (jabs vn) (wallReflect nx ny vn s)
  | None => wallReflect nx ny vn s
  end.
Proof. reflexivity. Qed.

Lemma Ratan2_axis_pos (x : R) : 0 < x -> Ratan2 0 x = 0.
Proof.
  intros Hx. unfold Ratan2. destruct (Rlt_dec 0 x); [|contradiction].
  replace (0 / x) with 0 by (field; lra). apply atan_0.
Qed.

Lemma Ratan2_axis_neg (x : R) : x < 0 -> Ratan2 0 x = PI.
Proof.
  intros Hx. unfold Ratan2.
  destruct (Rlt_dec 0 x); [lra|].
  destruct (Rlt_dec x 0); [|contradiction].
  destruct (Rlt_dec 0 0); [lra|].
  replace (0 / x) with 0 by (field; lra). rewrite atan_0. ring.
Qed.

Lemma Rtrunc_unit (q : R) : 0 <= q < 1 -> Rtrunc q = 0%Z.
Proof.
  intros [H0 H1]. unfold Rtrunc. destruct (Rlt_dec q 0); [lra|].
  symmetry. apply Int_part_spec. split; lra.
Qed.

Lemma jmod_small (a n : R) : 0 <= a < n -> jmod (Fin a) (Fin n) = Fin a.
Proof.
  intros [H0 H1]. unfold jmod.
  destruct (Req_dec_T n 0); [lra|].
  rewrite Rtrunc_unit.
  - f_equal. ring.
  - split.
    + apply Rmult_le_pos; [lra|]. apply Rlt_le, Rinv_0_lt_compat. lra.
    + apply Rmult_lt_reg_r with n; [lra|].
      replace (a / n * n) with a by (field; lra). lra.
Qed.

(** The rule on a finite position whose normalized angle [theta] lies in
    sector [m] of [k], with offset 0. *)
Lemma specSegmentIndex_sector (y x theta : R) (k m : nat) :
  (if Rlt_dec (Ratan2 y x) 0 then Ratan2 y x + 2 * PI else Ratan2 y x)
  = theta ->
  (m < k)%nat ->
  INR m * (2 * PI / INR k) <= theta < (INR m + 1) * (2 * PI / INR k) ->
  specSegmentIndex (Fin y) (Fin x) (ofNat k) (Fin 0) = ofNat m.
Proof.
  intros Hth Hm Hsec.
  assert (Hk : 0 < INR k) by (apply lt_0_INR; lia).
  assert (Hmk : INR m < INR k) by (apply lt_INR; exact Hm).
  assert (Hm0 : 0 <= INR m) by apply pos_INR.
  assert (Hp : 0 < 2 * PI / INR k).
  { apply Rdiv_lt_0_compat; [|exact Hk]. pose proof PI_RGT_0. lra. }
  unfold specSegmentIndex, ofNat, jPI. cbv zeta. cbn [jatan2 jmul].
  assert (N : (if jlt (Fin (Ratan2 y x)) (Fin 0)
               then jadd (Fin (Ratan2 y x)) (Fin (2 * PI))
               else Fin (Ratan2 y x)) = Fin theta).
  { unfold jlt. destruct (Rlt_dec (Ratan2 y x) 0); cbn [jadd];
      now rewrite <- Hth. }
  rewrite N.
  rewrite (jdiv_fin (2 * PI) (INR k)) by lra.
  rewrite jdiv_fin by lra.
  assert (F : Int_part (theta / (2 * PI / INR k)) = Z.of_nat m).
  { symmetry. apply Int_part_spec. rewrite <- INR_IZR_INZ.
    destruct Hsec as [S1 S2].
    set (p := 2 * PI / INR k) in *.
    assert (E : theta / p * p = theta) by (field; lra).
    split.
    - apply Rmult_lt_reg_r with p; [exact Hp|].
      replace ((theta / p - 1) * p) with (theta / p * p - p) by ring.
      rewrite E. lra.
    - apply Rmult_le_reg_r with p; [exact Hp|]. rewrite E. lra. }
  cbn [jfloor]. rewrite F, <- INR_IZR_INZ.
  rewrite jmod_small by lra.
  cbn [jadd]. rewrite jmod_small by lra.
  replace (jlt (Fin (INR m + 0)) (Fin 0)) with false
    by (symmetry; apply jlt_fin_false; lra).
  f_equal. ring.
Qed.

(** Looking up a drum segment that exists. *)
Lemma find_drum (l : list nat) (m : nat) :
  In m l ->
  find (fun sf => SurfaceType_eqb (surf_type sf) drum
                  && jeq (surf_index sf) (ofNat m))
       (flat_map surfacesOf l) = Some (drumSurface m).
Proof.
  induction l as [|i l IH]; intros Hin; [destruct Hin|].
  cbn [flat_map]. unfold surfacesOf at 1.
  cbn -[ofNat natToString getSurfaceColor jeq flat_map surfacesOf].
  destruct (jeq (ofNat i) (ofNat m)) eqn:E.
  - apply jeq_fin in E. apply INR_eq in E. subst i. reflexivity.
  - apply IH. destruct Hin as [->|Hin]; [|exact Hin].
    unfold ofNat in E.
    assert (T : jeq (Fin (INR m)) (Fin (INR m)) = true)
      by (apply jeq_fin; reflexivity).
    rewrite T in E. discriminate.
Qed.

(** In exact arithmetic, for a ball that fits in the drum, the rule
    applied after the correction gives what it gives before. *)
Lemma segment_unchanged_when_ball_fits (s : DryerPhysics)
    (bx by_ r Rd : R) :
  ball_x (ball s) = Fin bx -> ball_y (ball s) = Fin by_ ->
  radius (ball s) = Fin r -> drumRadius s = Fin Rd ->
  let d := sqrt (bx * bx + by_ * by_) in
  0 < d -> Rd < d + r -> r < Rd ->
  let s' := wallCollision s in
  specSegmentIndex (ball_y (ball s')) (ball_x (ball s'))
    (vaneCount s') (segmentIndexOffset s')
  = specSegmentIndex (ball_y (ball s)) (ball_x (ball s))
      (vaneCount s) (segmentIndexOffset s).
Proof.
  intros Hx Hy Hr HR d Hd Hfire Hlt s'.
  destruct (wallCollision_position s bx by_ r Rd Hx Hy Hr HR Hd Hfire)
    as [Ex Ey].
  fold d in Ex, Ey. fold s' in Ex, Ey.
  assert (A : jatan2 (ball_y (ball s')) (ball_x (ball s'))
              = jatan2 (ball_y (ball s)) (ball_x (ball s))).
  { rewrite Ex, Ey, Hx, Hy. cbn [jatan2]. f_equal.
    apply Ratan2_scale. apply Rdiv_lt_0_compat; lra. }
  destruct (wallCollision_sameDrum s) as (_ & N & _ & _ & _ & _ & O).
  fold s' in N, O.
  unfold specSegmentIndex. cbv zeta. rewrite A, N, O. reflexivity.
Qed.

Lemma wallCollision_active (s : DryerPhysics) (bx by_ bvx bvy r Rd : R) :
  ball_x (ball s) = Fin bx -> ball_y (ball s) = Fin by_ ->
  ball_vx (ball s) = Fin bvx -> ball_vy (ball s) = Fin bvy ->
  radius (ball s) = Fin r -> drumRadius s = Fin Rd ->
  let d := sqrt (bx * bx + by_ * by_) in
  0 < d -> Rd < d + r ->
  let q := reflectR bx by_ bvx bvy 0 (- bx / d) (- by_ / d) (d + r - Rd) in
  rf_vn q < 0 ->
  wallCollision s =
  wallImpact (Fin (- bx / d)) (Fin (- by_ / d)) (Fin (rf_vn q))
    (assign_y (Fin (rf_y q)) (assign_x (Fin (rf_x q)) s)).
Proof.
  intros Hx Hy Hvx Hvy Hr HR d Hd Hfire q Hvn.
  unfold wallCollision. cbv zeta. ball_fields.
  rewrite Hx, Hy, Hvx, Hvy, Hr, HR.
  cbn [jmul jadd]. rewrite jsqrt_fin by apply sqrt_sum_sq_pos. fold d.
  cbn [jadd jsub jneg]. unfold jgt.
  replace (jlt (Fin Rd) (Fin (d + r))) with true
    by (symmetry; now apply jlt_fin).
  rewrite !jdiv_fin by lra.
  cbn [jmul jadd jsub].
  change (bvx * (- bx / d) + bvy * (- by_ / d)) with (rf_vn q).
  replace (jlt (Fin (rf_vn q)) (Fin 0)) with true
    by (symmetry; now apply jlt_fin).
  reflexivity.
Qed.

(** C2, the input on which the code departs from the claim.  A ball of
    radius 0.9 m in the drum of radius 0.8 m with two vanes hits the wall
    at (0.5, 0) with velocity (1, 0).  Before the correction its angle is
    0, in sector 0.  The correction moves it to (-0.1, 0); the code takes
    [atan2] there, finds the angle π, sector 1, and notifies [drum_1]. *)
Theorem segment_after_correction :
  let s := oversizeState in
  let s' := wallCollision s in
  specSegmentIndex (ball_y (ball s)) (ball_x (ball s))
    (vaneCount s) (segmentIndexOffset s) = ofNat 0
  /\ ball_x (ball s') = Fin (-0.1) /\ ball_y (ball s') = Fin 0
  /\ specSegmentIndex (ball_y (ball s')) (ball_x (ball s'))
       (vaneCount s') (segmentIndexOffset s') = ofNat 1
  /\ notified s' = ["drum_1"%string].
Proof.
  cbv zeta.
  assert (D : sqrt (0.5 * 0.5 + 0 * 0) = 0.5) by (apply sqrt_sq_eq; lra).
  pose proof PI_RGT_0 as Hpi.
  assert (I1 : INR 1 = 1) by reflexivity.
  assert (I2 : INR 2 = 2) by (cbn [INR]; ring).
  assert (Pre : specSegmentIndex (Fin 0) (Fin 0.5) (ofNat 2) (Fin 0)
                = ofNat 0).
  { apply (specSegmentIndex_sector 0 0.5 0 2 0); [|lia|].
    - rewrite Ratan2_axis_pos by lra.
      destruct (Rlt_dec 0 0); [lra|reflexivity].
    - rewrite I2. cbn [INR]. split; [lra|].
      replace ((0 + 1) * (2 * PI / 2)) with PI by field. lra. }
  assert (Post : specSegmentIndex (Fin 0) (Fin (-0.1)) (ofNat 2) (Fin 0)
                 = ofNat 1).
  { apply (specSegmentIndex_sector 0 (-0.1) PI 2 1); [|lia|].
    - rewrite Ratan2_axis_neg by lra.
      destruct (Rlt_dec PI 0); [lra|reflexivity].
    - rewrite I1, I2.
      replace (1 * (2 * PI / 2)) with PI by field.
      replace ((1 + 1) * (2 * PI / 2)) with (2 * PI) by field. lra. }
  assert (X : 0.5 + - (0.5) / 0.5 * (0.5 + 0.9 - 0.80) = -0.1) by lra.
  assert (Y : 0 + - 0 / 0.5 * (0.5 + 0.9 - 0.80) = 0) by lra.
  assert (W : wallCollision oversizeState =
              wallImpact (Fin (- (0.5) / 0.5)) (Fin (- 0 / 0.5)) (Fin (-1))
                (assign_y (Fin 0) (assign_x (Fin (-0.1)) oversizeState))).
  { pose proof (wallCollision_active oversizeState 0.5 0 1 0 0.9 0.80
                  eq_refl eq_refl eq_refl eq_refl eq_refl eq_refl) as WA.
    cbv zeta in WA. unfold reflectR in WA. cbn [rf_vn rf_x rf_y] in WA.
    rewrite D, X, Y in WA.
    replace (1 * (- (0.5) / 0.5) + 0 * (- 0 / 0.5)) with (-1) in WA by lra.
    apply WA; lra. }
  split; [exact Pre|].
  rewrite W.
  match goal with |- context [wallImpact ?a ?b ?c ?m] =>
    destruct (wallImpact_position a b c m) as [Px Py];
    pose proof (wallImpact_sameDrum a b c m) as (_ & N & _ & _ & _ & _ & O)
  end.
  rewrite Px, Py, N, O.
  split; [reflexivity|]. split; [reflexivity|]. split; [exact Post|].
  rewrite wallImpact_unfold. cbv zeta.
  change (specSegmentIndex _ _ _ _)
    with (specSegmentIndex (Fin 0) (Fin (-0.1)) (ofNat 2) (Fin 0)).
  rewrite Post.
  change (surfaces (assign_y (Fin 0) (assign_x (Fin (-0.1)) oversizeState)))
    with (flat_map surfacesOf [0%nat; 1%nat]).
  rewrite find_drum by (right; left; reflexivity).
  reflexivity.
Qed.

End Segments.

(* ================================================================== *)
(** ** The free region inside the vanes *)
(* ================================================================== *)

Section InnerCircle.

Lemma sqrt_ge_of_sq (a c : R) : 0 <= c -> c * c <= a -> c <= sqrt a.
Proof.
  intros Hc H. rewrite <- (sqrt_square c Hc). now apply sqrt_le_1_alt.
Qed.

(** Cauchy-Schwarz against a unit vector. *)
Lemma dot_le_norm (bx by_ c sn : R) :
  c * c + sn * sn = 1 -> bx * c + by_ * sn <= sqrt (bx * bx + by_ * by_).
Proof.
  intros U.
  destruct (Rle_dec (bx * c + by_ * sn) 0) as [N|P].
  - pose proof (sqrt_pos (bx * bx + by_ * by_)). lra.
  - apply Rnot_le_lt in P.
    apply sqrt_ge_of_sq; [lra|].
    assert (E : bx * bx + by_ * by_
                = (bx * c + by_ * sn) * (bx * c + by_ * sn)
                  + (bx * sn - by_ * c) * (bx * sn - by_ * c)).
    { transitivity ((bx * bx + by_ * by_) * (c * c + sn * sn));
        [rewrite U; ring|ring]. }
    rewrite E.
    pose proof (Rle_0_sqr (bx * sn - by_ * c)) as Q. unfold Rsqr in Q. lra.
Qed.

Lemma unit_circle (a : R) : cos a * cos a + sin a * sin a = 1.
Proof. pose proof (sin2_cos2 a) as H. unfold Rsqr in H. lra. Qed.

(** A ball whose centre is nearer to the axis than the inner ends of the
    vanes projects before the inner end of every vane. *)
Lemma vaneGeom_inner (Rd h n : R) (i : nat) (bx by_ : R) :
  0 < Rd -> 0 < h ->
  sqrt (bx * bx + by_ * by_) < Rd * (1 - h) ->
  let g := vaneGeom (Rd * (1 - h)) Rd n i bx by_ in
  vg_len g <> 0 /\ vg_t g < 0.
Proof.
  intros HR Hh Hb. cbv zeta. unfold vaneGeom. cbv zeta.
  cbn [vg_len vg_t].
  set (a := INR i / n * 2 * PI).
  pose proof (unit_circle a) as U.
  pose proof (dot_le_norm bx by_ (cos a) (sin a) U) as D.
  set (c := cos a) in *. set (sn := sin a) in *.
  set (X := (Rd * c - Rd * (1 - h) * c) * (Rd * c - Rd * (1 - h) * c)
            + (Rd * sn - Rd * (1 - h) * sn) * (Rd * sn - Rd * (1 - h) * sn)).
  assert (EX : X = (Rd * h) * (Rd * h)).
  { unfold X. transitivity ((Rd * h) * (Rd * h) * (c * c + sn * sn));
      [ring|rewrite U; ring]. }
  assert (PRh : 0 < Rd * h) by now apply Rmult_lt_0_compat.
  assert (PX : 0 < X) by (rewrite EX; now apply Rmult_lt_0_compat).
  split.
  - intros Z. apply sqrt_eq_0 in Z; lra.
  - rewrite sqrt_sqrt by lra.
    assert (EN : (bx - Rd * (1 - h) * c) * (Rd * c - Rd * (1 - h) * c)
                 + (by_ - Rd * (1 - h) * sn) * (Rd * sn - Rd * (1 - h) * sn)
                 = Rd * h * ((bx * c + by_ * sn) - Rd * (1 - h))).
    { transitivity (Rd * h * ((bx * c + by_ * sn)
                              - Rd * (1 - h) * (c * c + sn * sn)));
        [ring|rewrite U; ring]. }
    rewrite EN.
    apply Rmult_lt_reg_r with X; [exact PX|].
    unfold Rdiv. rewrite Rmult_assoc, Rinv_l by lra.
    rewrite Rmult_0_l, Rmult_1_r. nra.
Qed.

(** A vane of height zero has no length: its projection parameter is
    [0/0], and the gate [t >= 0 && t <= 1] fails. *)
Lemma vaneCollision_flat (s : DryerPhysics) (Rd n : R) (i : nat)
    (bx by_ : R) :
  ball_x (ball s) = Fin bx -> ball_y (ball s) = Fin by_ ->
  drumRadius s = Fin Rd -> vaneCount s = Fin n -> n <> 0 ->
  vaneCollision (Fin (Rd * (1 - 0))) i s = s.
Proof.
  intros Hx Hy HR Hn Hn0.
  unfold vaneCollision. cbv zeta. rewrite Hx, Hy, HR, Hn.
  unfold ofNat. rewrite (jdiv_fin _ n) by exact Hn0.
  cbn [jmul jadd jsub jcos jsin jPI].
  rewrite jsqrt_fin by apply sqrt_sum_sq_pos.
  cbn [jmul jadd jsub].
  set (a := INR i / n * 2 * PI).
  replace ((Rd * cos a - Rd * (1 - 0) * cos a)
           * (Rd * cos a - Rd * (1 - 0) * cos a)
           + (Rd * sin a - Rd * (1 - 0) * sin a)
             * (Rd * sin a - Rd * (1 - 0) * sin a)) with 0 by ring.
  rewrite sqrt_0.
  replace ((bx - Rd * (1 - 0) * cos a) * (Rd * cos a - Rd * (1 - 0) * cos a)
           + (by_ - Rd * (1 - 0) * sin a)
             * (Rd * sin a - Rd * (1 - 0) * sin a)) with 0 by ring.
  replace (0 * 0) with 0 by ring.
  rewrite jdiv_zero_zero. reflexivity.
Qed.

(** The vane loop leaves such a ball alone. *)
Lemma checkVaneCollisions_inner (s : DryerPhysics) (bx by_ Rd h : R)
    (n : nat) :
  ball_x (ball s) = Fin bx -> ball_y (ball s) = Fin by_ ->
  drumRadius s = Fin Rd -> vaneHeight s = Fin h -> vaneCount s = ofNat n ->
  0 < Rd -> 0 <= h ->
  sqrt (bx * bx + by_ * by_) < Rd * (1 - h) ->
  checkVaneCollisions s = Some s.
Proof.
  intros Hx Hy HR Hh Hn PR Ph Hb.
  unfold checkVaneCollisions. cbv zeta. rewrite HR, Hh.
  cbn [jsub jmul].
  apply (forLoop_fixed _ n).
  - rewrite Hn. apply tripCount_ofNat.
  - intros i Hi.
    assert (N0 : INR n <> 0).
    { apply not_0_INR. lia. }
    destruct (Req_dec h 0) as [Z|NZ].
    + subst h. now apply (vaneCollision_flat s Rd (INR n) i bx by_).
    + destruct (vaneGeom_inner Rd h (INR n) i bx by_ PR) as [L T];
        [lra|exact Hb|].
      apply (vaneCollision_outside s _ Rd (INR n) i bx by_); auto.
Qed.

(** Inside the inner circle: a ball that fits the drum and whose centre
    is nearer to the axis than the inner ends of the vanes is free.
    [handleCollisions] returns the state as it is: no correction, no
    reflection, no event. *)
Theorem inner_circle_free (s : DryerPhysics) (bx by_ r Rd h : R) (n : nat) :
  ball_x (ball s) = Fin bx -> ball_y (ball s) = Fin by_ ->
  radius (ball s) = Fin r -> drumRadius s = Fin Rd ->
  vaneHeight s = Fin h -> vaneCount s = ofNat n ->
  0 <= r -> 0 <= h ->
  sqrt (bx * bx + by_ * by_) + r <= Rd ->
  sqrt (bx * bx + by_ * by_) < Rd * (1 - h) ->
  handleCollisions s = Some s.
Proof.
  intros Hx Hy Hr HR Hh Hn Pr Ph Hw Hb.
  unfold handleCollisions.
  rewrite (wallCollision_miss s bx by_ r Rd Hx Hy Hr HR Hw).
  apply (checkVaneCollisions_inner s bx by_ Rd h n); auto.
  pose proof (sqrt_pos (bx * bx + by_ * by_)). nra.
Qed.

Lemma inner_circle_free_witness :
  handleCollisions idleState = Some idleState.
Proof.
  apply (inner_circle_free idleState 0.24 0 0.035 0.80 0.30 5);
    try reflexivity; try lra.
  - replace (0.24 * 0.24 + 0 * 0) with (0.24 * 0.24) by ring.
    rewrite sqrt_square; lra.
  - replace (0.24 * 0.24 + 0 * 0) with (0.24 * 0.24) by ring.
    rewrite sqrt_square; lra.
Defined.

(** The rest position of [reset()] is free.  For a drum of positive
    radius with vanes lower than 70 % of the radius and a ball no larger
    than 70 % of the radius, the ball placed by [reset()] touches neither
    the wall nor a vane: [handleCollisions] returns the reset state as it
    is. *)
Theorem reset_collision_free (s : DryerPhysics) (r Rd h : R) (n : nat) :
  radius (ball s) = Fin r -> drumRadius s = Fin Rd ->
  vaneHeight s = Fin h -> vaneCount s = ofNat n ->
  0 < Rd -> 0 <= r <= 0.7 * Rd -> 0 <= h < 0.7 ->
  handleCollisions (reset s) = Some (reset s).
Proof.
  intros Hr HR Hh Hn PR Pr Ph.
  assert (Hx : ball_x (ball (reset s)) = Fin (Rd * 0.3)).
  { unfold reset. cbv zeta. ball_fields. cbn [ball set_drumAngle].
    ball_fields. rewrite HR. reflexivity. }
  assert (Hy : ball_y (ball (reset s)) = Fin 0) by reflexivity.
  assert (Q : sqrt (Rd * 0.3 * (Rd * 0.3) + 0 * 0) = Rd * 0.3).
  { replace (Rd * 0.3 * (Rd * 0.3) + 0 * 0) with ((Rd * 0.3) * (Rd * 0.3))
      by ring.
    apply sqrt_square. lra. }
  unfold handleCollisions.
  rewrite (wallCollision_miss (reset s) (Rd * 0.3) 0 r Rd Hx Hy Hr HR)
    by (rewrite Q; lra).
  apply (checkVaneCollisions_inner (reset s) (Rd * 0.3) 0 Rd h n);
    auto; try lra.
  rewrite Q. nra.
Qed.

Lemma reset_collision_free_witness :
  handleCollisions (reset wallImpactState) = Some (reset wallImpactState).
Proof.
  apply (reset_collision_free wallImpactState 0.035 0.80 0.30 5);
    try reflexivity; lra.
Defined.

End InnerCircle.

(* ================================================================== *)
(** ** What a step writes *)
(* ================================================================== *)

Section StepFrame.

Lemma stepFrame_refl s : stepFrame s s.
Proof. unfold stepFrame. open_state s. reflexivity. Qed.

Lemma stepFrame_trans s1 s2 s3 :
  stepFrame s1 s2 -> stepFrame s2 s3 -> stepFrame s1 s3.
Proof.
  unfold stepFrame. intros E1 E2.
  etransitivity; [exact E2|].
  rewrite E1. reflexivity.
Qed.

Lemma collisionFrame_refl s : collisionFrame s s.
Proof. unfold collisionFrame. open_state s. reflexivity. Qed.

Lemma collisionFrame_trans s1 s2 s3 :
  collisionFrame s1 s2 -> collisionFrame s2 s3 -> collisionFrame s1 s3.
Proof.
  unfold collisionFrame. intros E1 E2.
  etransitivity; [exact E2|].
  rewrite E1. reflexivity.
Qed.

Lemma collisionFrame_stepFrame s s' : collisionFrame s s' -> stepFrame s s'.
Proof.
  unfold collisionFrame, stepFrame. intros E. rewrite E.
  open_state s. reflexivity.
Qed.

Lemma collisionFrame_fields s s' :
  collisionFrame s s' ->
  drumAngle s' = drumAngle s /\ debugInfo s' = debugInfo s.
Proof. unfold collisionFrame. intros E. rewrite E. split; reflexivity. Qed.

Lemma stepFrame_fields s s' :
  stepFrame s s' ->
  clock s' = clock s /\ surfaces s' = surfaces s
  /\ collisionCallbacks s' = collisionCallbacks s
  /\ drumAngularVelocity s' = drumAngularVelocity s
  /\ vaneCount s' = vaneCount s.
Proof. unfold stepFrame. intros E. rewrite E. repeat split. Qed.

Lemma okCall_frame s s' c : stepFrame s s' -> okCall s' c -> okCall s c.
Proof.
  intros F. destruct (stepFrame_fields s s' F) as (_ & S & C & _).
  unfold okCall. now rewrite S, C.
Qed.

Lemma debounceInv_ext s s' :
  clock s' = clock s -> timers s' = timers s ->
  lastCollisionSurface s' = lastCollisionSurface s ->
  debounceInv s -> debounceInv s'.
Proof. unfold debounceInv. intros -> -> ->. auto. Qed.

Lemma emits_quiet s s' :
  clock s' = clock s -> calls s' = calls s -> timers s' = timers s ->
  lastCollisionSurface s' = lastCollisionSurface s -> emits s s'.
Proof.
  intros C L T S. split.
  - exists []. rewrite app_nil_r. auto.
  - now apply debounceInv_ext.
Qed.

Lemma emits_trans s1 s2 s3 :
  stepFrame s1 s2 -> emits s1 s2 -> emits s2 s3 -> emits s1 s3.
Proof.
  intros F [(n1 & E1 & O1) I1] [(n2 & E2 & O2) I2]. split; [|auto].
  exists (n1 ++ n2)%list. split.
  - now rewrite E2, E1, app_assoc.
  - apply Forall_app. split; [exact O1|].
    eapply Forall_impl; [|exact O2]. intros c. now apply okCall_frame.
Qed.

Lemma collides_refl s : collides s s.
Proof.
  split; [apply collisionFrame_refl|]. now apply emits_quiet.
Qed.

Lemma collides_trans s1 s2 s3 :
  collides s1 s2 -> collides s2 s3 -> collides s1 s3.
Proof.
  intros [F1 E1] [F2 E2]. split.
  - now apply collisionFrame_trans with s2.
  - apply emits_trans with s2; auto. now apply collisionFrame_stepFrame.
Qed.

Lemma advances_trans s1 s2 s3 :
  advances s1 s2 -> advances s2 s3 -> advances s1 s3.
Proof.
  intros [F1 E1] [F2 E2]. split.
  - now apply stepFrame_trans with s2.
  - now apply emits_trans with s2.
Qed.

Lemma collides_advances s s' : collides s s' -> advances s s'.
Proof. intros [F E]. split; [now apply collisionFrame_stepFrame|exact E]. Qed.

(** Assignments to the position and velocity of the ball. *)
Lemma collides_assign (f : jsnum -> DryerPhysics -> DryerPhysics) v s :
  f = assign_x \/ f = assign_y \/ f = assign_vx \/ f = assign_vy ->
  collides s (f v s).
Proof.
  intros [-> | [-> | [-> | ->]]];
    (split; [unfold collisionFrame; open_state s; reflexivity
            |now apply emits_quiet]).
Qed.

(** An emitted or suppressed event. *)
Lemma collides_trigger sf v s :
  In sf (surfaces s) -> collides s (triggerCollision sf v s).
Proof.
  intros Hsf.
  destruct (triggerCollision_cases sf v s) as [-> | ->];
    [apply collides_refl|].
  split; [unfold collisionFrame; open_state s; reflexivity|].
  split.
  - eexists. split; [reflexivity|].
    apply Forall_forall. intros c Hc. apply in_map_iff in Hc.
    destruct Hc as (cb & <- & Hcb). split; assumption.
  - intros [B P]. split; cbn [timers clock lastCollisionSurface set_calls
                               set_timers set_lastCollisionSurface].
    + intros t Ht. apply in_app_or in Ht. destruct Ht as [Ht|[<-|[]]].
      * now apply B.
      * cbn [fst]. lia.
    + intros id E. injection E as <-. exists (clock s + 50)%Z.
      apply in_or_app. right. now left.
Qed.

Ltac moves_ball s :=
  split;
  [ unfold collisionFrame; open_state s; reflexivity
  | apply emits_quiet; reflexivity ].

Lemma collides_wallImpact nx ny vn s : collides s (wallImpact nx ny vn s).
Proof.
  rewrite wallImpact_unfold. cbv zeta.
  assert (M : collides s (wallReflect nx ny vn s))
    by (unfold wallReflect; moves_ball s).
  destruct (find _ (surfaces s)) as [sf|] eqn:Hf; [|exact M].
  apply find_some in Hf. destruct Hf as [Hf _].
  apply collides_trans with (wallReflect nx ny vn s); [exact M|].
  apply collides_trigger. exact Hf.
Qed.

Lemma collides_wallCollision s : collides s (wallCollision s).
Proof.
  unfold wallCollision. cbv zeta.
  destruct_if; [|apply collides_refl].
  destruct_if.
  - eapply collides_trans; [|apply collides_wallImpact]. moves_ball s.
  - moves_ball s.
Qed.

Lemma collides_vaneResolve i dx dy vdx vdy len distX distY dist s :
  collides s (vaneResolve i dx dy vdx vdy len distX distY dist s).
Proof.
  unfold vaneResolve. cbv zeta.
  destruct_if; [|moves_ball s].
  match goal with
  | |- context [find ?f (surfaces ?m)] =>
      set (sm := m); destruct (find f (surfaces sm)) as [sf|] eqn:Hf
  end.
  - apply find_some in Hf. destruct Hf as [Hf _].
    apply collides_trans with sm; [unfold sm; moves_ball s|].
    now apply collides_trigger.
  - unfold sm. moves_ball s.
Qed.

Lemma collides_vaneCollision vir i s : collides s (vaneCollision vir i s).
Proof.
  unfold vaneCollision. cbv zeta.
  destruct_if; [|apply collides_refl].
  destruct_if; [|apply collides_refl].
  apply collides_vaneResolve.
Qed.

Lemma collides_forLoop (n : jsnum) (body : nat -> DryerPhysics -> DryerPhysics)
    (s s' : DryerPhysics) :
  (forall i m, collides m (body i m)) ->
  forLoop n body s = Some s' -> collides s s'.
Proof.
  intros B. unfold forLoop. destruct (tripCount n) as [k|]; [|discriminate].
  intros E. injection E as <-. generalize (seq 0 k). intros l. revert s.
  induction l as [|i l IH]; intros s; cbn [fold_left].
  - apply collides_refl.
  - eapply collides_trans; [apply B|apply IH].
Qed.

Lemma collides_handleCollisions s s' :
  handleCollisions s = Some s' -> collides s s'.
Proof.
  unfold handleCollisions, checkVaneCollisions. cbv zeta. intros E.
  apply collides_trans with (wallCollision s); [apply collides_wallCollision|].
  eapply collides_forLoop; [|exact E].
  intros i m. apply collides_vaneCollision.
Qed.

(** A block that keeps the drum angle and advances. *)
Lemma forceFrame_advances s s' :
  forceFrame s s' -> advances s s' /\ drumAngle s' = drumAngle s.
Proof.
  unfold forceFrame. intros E. split; [split|].
  - unfold stepFrame. rewrite E. open_state s. reflexivity.
  - apply emits_quiet; rewrite E; reflexivity.
  - rewrite E. reflexivity.
Qed.

Lemma forceFrame_refl s : forceFrame s s.
Proof. unfold forceFrame. open_state s. reflexivity. Qed.

Lemma centrifugalForce_forceFrame s :
  forceFrame s (snd (centrifugalForce s)).
Proof.
  unfold centrifugalForce. cbv zeta.
  repeat destruct_if; cbn [snd]; try apply forceFrame_refl.
  unfold forceFrame. open_state s. reflexivity.
Qed.

Lemma coriolisForce_forceFrame s :
  forceFrame s (snd (coriolisForce s)).
Proof.
  unfold coriolisForce. cbv zeta.
  repeat destruct_if; cbn [snd]; try apply forceFrame_refl.
  unfold forceFrame. open_state s. reflexivity.
Qed.

Lemma airDrag_forceFrame dt s :
  forceFrame s (snd (airDrag dt s)).
Proof.
  unfold airDrag. cbv zeta.
  repeat destruct_if; cbn [snd]; try apply forceFrame_refl;
    unfold forceFrame; open_state s; reflexivity.
Qed.

Lemma integrate_advances dt ax ay s s' :
  integrate dt ax ay s = Some s' ->
  advances s s' /\ drumAngle s' = drumAngle s.
Proof.
  unfold integrate. cbv zeta.
  match goal with |- handleCollisions ?m = _ -> _ => set (sm := m) end.
  intros E. apply collides_handleCollisions in E.
  assert (F : forceFrame s sm)
    by (unfold sm, forceFrame; open_state s; reflexivity).
  apply forceFrame_advances in F. destruct F as [A D].
  split.
  - apply advances_trans with sm; [exact A|].
    now apply collides_advances.
  - destruct E as [E _]. apply collisionFrame_fields in E.
    destruct E as [E _]. now rewrite E.
Qed.

(** One step: the frame, the events, and the drum angle. *)
Lemma step_advances dt s s' :
  step dt s = Some s' ->
  advances s s'
  /\ drumAngle s' = jadd (drumAngle s) (jmul (drumAngularVelocity s) dt).
Proof.
  unfold step. cbv zeta.
  set (s0 := set_drumAngle _ s).
  assert (A0 : advances s s0).
  { split; [unfold s0, stepFrame; open_state s; reflexivity|].
    now apply emits_quiet. }
  pose proof (centrifugalForce_forceFrame s0) as F1.
  destruct (centrifugalForce s0) as [[cx cy] s1]. cbn [snd] in F1.
  pose proof (coriolisForce_forceFrame s1) as F2.
  destruct (coriolisForce s1) as [[ox oy] s2]. cbn [snd] in F2.
  pose proof (airDrag_forceFrame dt s2) as F3.
  destruct (airDrag dt s2) as [[dx dy] s3]. cbn [snd] in F3.
  intros E. apply integrate_advances in E. destruct E as [A4 D4].
  apply forceFrame_advances in F1, F2, F3.
  destruct F1 as [A1 D1], F2 as [A2 D2], F3 as [A3 D3].
  split.
  - apply advances_trans with s0; [exact A0|].
    apply advances_trans with s1; [exact A1|].
    apply advances_trans with s2; [exact A2|].
    apply advances_trans with s3; [exact A3|exact A4].
  - rewrite D4, D3, D2, D1. reflexivity.
Qed.

(** The vane loop, and with it [handleCollisions] and [step], returns
    unless the vane count is [+Infinity]. *)
Lemma handleCollisions_total s :
  vaneCount s <> PInf -> exists s', handleCollisions s = Some s'.
Proof.
  intros Hn. unfold handleCollisions, checkVaneCollisions, forLoop.
  cbv zeta.
  destruct (collides_wallCollision s) as [F _].
  apply collisionFrame_stepFrame, stepFrame_fields in F.
  destruct F as (_ & _ & _ & _ & V). rewrite V.
  destruct (vaneCount s) as [r|[|]|]; cbn [tripCount]; eauto.
  now elim Hn.
Qed.

Lemma step_total dt s :
  vaneCount s <> PInf -> exists s', step dt s = Some s'.
Proof.
  intros Hn. unfold step. cbv zeta.
  set (s0 := set_drumAngle _ s).
  pose proof (centrifugalForce_forceFrame s0) as F1.
  destruct (centrifugalForce s0) as [[cx cy] s1]. cbn [snd] in F1.
  pose proof (coriolisForce_forceFrame s1) as F2.
  destruct (coriolisForce s1) as [[ox oy] s2]. cbn [snd] in F2.
  pose proof (airDrag_forceFrame dt s2) as F3.
  destruct (airDrag dt s2) as [[dx dy] s3]. cbn [snd] in F3.
  unfold integrate. cbv zeta.
  apply handleCollisions_total.
  unfold forceFrame in F1, F2, F3.
  unfold assign_x, assign_y, assign_vx, assign_vy.
  cbn [vaneCount set_ball set_debugInfo].
  rewrite F3. cbn [vaneCount set_ball set_debugInfo].
  rewrite F2. cbn [vaneCount set_ball set_debugInfo].
  rewrite F1. exact Hn.
Qed.

(** What a step writes.  Unless the vane count is [+Infinity], [step(dt)]
    returns; the state it leaves differs from the one it found at most in
    the position and velocity of the ball, the drum angle, the debug
    record, the debounce slot, the pending timers and the log of listener
    invocations; and the drum angle has advanced by
    [drumAngularVelocity * dt], without being reduced modulo a turn. *)
Theorem step_writes (dt : jsnum) (s : DryerPhysics) :
  vaneCount s <> PInf ->
  exists s',
    step dt s = Some s'
    /\ stepFrame s s'
    /\ drumAngle s' = jadd (drumAngle s) (jmul (drumAngularVelocity s) dt).
Proof.
  intros Hn. destruct (step_total dt s Hn) as [s' E].
  exists s'. split; [exact E|].
  apply step_advances in E. destruct E as [[F _] D]. now split.
Qed.

Lemma step_writes_witness :
  exists s',
    step (Fin (1 / 240)) wallImpactState = Some s'
    /\ stepFrame wallImpactState s'
    /\ drumAngle s'
       = jadd (drumAngle wallImpactState)
           (jmul (drumAngularVelocity wallImpactState) (Fin (1 / 240))).
Proof.
  apply (step_writes (Fin (1 / 240)) wallImpactState). discriminate.
Defined.

(** What a step reports.  The log of listener invocations only grows, and
    every invocation made during a step reports a surface of the current
    surface list to a registered listener. *)
Theorem step_reports_current_surfaces (dt : jsnum) (s s' : DryerPhysics) :
  step dt s = Some s' ->
  exists new, calls s' = (calls s ++ new)%list /\ Forall (okCall s) new.
Proof.
  intros E. apply step_advances in E. destruct E as [[_ [N _]] _]. exact N.
Qed.

Lemma step_reports_current_surfaces_witness :
  exists s' new,
    step (Fin (1 / 240)) wallImpactState = Some s'
    /\ calls s' = (calls wallImpactState ++ new)%list
    /\ Forall (okCall wallImpactState) new.
Proof.
  destruct (step_total (Fin (1 / 240)) wallImpactState) as [s' E];
    [discriminate|].
  destruct (step_reports_current_surfaces _ _ _ E) as (new & C & O).
  exists s', new. auto.
Defined.

End StepFrame.

(* ================================================================== *)
(** ** The debounce slot and its timers *)
(* ================================================================== *)

Section Debounce.

Lemma slotIs_true (slot : option string) (id : string) :
  slotIs slot id = true <-> slot = Some id.
Proof.
  unfold slotIs. destruct slot as [id'|]; [|split; discriminate].
  rewrite String.eqb_eq. split; [now intros ->|now intros [= ->]].
Qed.

(** The due callbacks can only clear the slot; if it is still held
    afterwards, none of them carried its id. *)
Lemma timerCallbacks_slot (l : list Timer) (s : DryerPhysics) :
  let s' := fold_left (fun acc t => timerCallback (snd t) acc) l s in
  clock s' = clock s /\ timers s' = timers s
  /\ (forall id, lastCollisionSurface s' = Some id ->
                 lastCollisionSurface s = Some id
                 /\ forall t, In t l -> snd t <> id).
Proof.
  revert s. induction l as [|t l IH]; intros s; cbn [fold_left].
  - split; [reflexivity|]. split; [reflexivity|].
    intros id E. split; [exact E|]. intros t [].
  - destruct (IH (timerCallback (snd t) s)) as (C & T & S). cbv zeta in *.
    unfold timerCallback in C, T, S |- *.
    destruct (slotIs (lastCollisionSurface s) (snd t)) eqn:Q.
    + split; [exact C|]. split; [exact T|].
      intros id E. apply S in E. destruct E as [E _]. discriminate.
    + split; [exact C|]. split; [exact T|].
      intros id E. apply S in E. destruct E as [E N].
      split; [exact E|]. intros t' [<-|H]; [|now apply N].
      intros F. rewrite E, F in Q.
      assert (Q' : slotIs (Some id) id = true) by now apply slotIs_true.
      congruence.
Qed.

Lemma runTimers_fields (now : Z) (s : DryerPhysics) :
  clock (runTimers now s) = now
  /\ timers (runTimers now s)
     = filter (fun t => negb (fst t <=? now)%Z) (timers s)
  /\ (forall id, lastCollisionSurface (runTimers now s) = Some id ->
                 lastCollisionSurface s = Some id
                 /\ forall t, In t (timers s) -> (fst t <= now)%Z ->
                              snd t <> id).
Proof.
  unfold runTimers. cbv zeta.
  match goal with
  | |- context [fold_left ?f ?l ?m] =>
      destruct (timerCallbacks_slot l m) as (C & T & S)
  end.
  cbv zeta in C, T, S. rewrite C, T. split; [reflexivity|].
  split; [reflexivity|].
  intros id E. apply S in E. destruct E as [E N]. split; [exact E|].
  intros t Ht Hd. apply N. apply filter_In. split; [exact Ht|].
  now apply Z.leb_le.
Qed.

Lemma runTimers_debounceInv (now : Z) (s : DryerPhysics) :
  debounceInv s -> (clock s <= now)%Z -> debounceInv (runTimers now s).
Proof.
  intros [B P] Hc. destruct (runTimers_fields now s) as (C & T & S).
  split.
  - rewrite C, T. intros t Ht. apply filter_In in Ht.
    destruct Ht as [Ht Hd]. apply negb_true_iff, Z.leb_gt in Hd.
    specialize (B t Ht). lia.
  - intros id E. apply S in E. destruct E as [E N].
    destruct (P id E) as [d Hd]. exists d. rewrite T.
    apply filter_In. split; [exact Hd|].
    apply negb_true_iff, Z.leb_gt.
    destruct (Z_lt_le_dec now d) as [L|L]; [exact L|].
    exfalso. exact (N (d, id) Hd L eq_refl).
Qed.

Lemma constructor_debounceInv (now : Z) (s : DryerPhysics) :
  constructor now = Some s -> debounceInv s.
Proof.
  unfold constructor. intros E. apply updateSurfaces_eq in E.
  destruct E as (k & _ & ->). split.
  - intros t [].
  - discriminate.
Qed.

(** The debounce invariant holds in every state an application reaches:
    after construction, after the host has advanced the clock and run the
    due timers, after a step and after every configuration call, each
    pending timer is due within the next 50 ms and a held slot has a
    pending timer that will release it. *)
Theorem reachable_debounceInv (s : DryerPhysics) :
  reachable s -> debounceInv s.
Proof.
  induction 1 as [now s E|now s _ IH Hc|dt s s' _ IH E
                 |a b c d s s' _ IH E|a b c d s _ IH|e s _ IH|e s _ IH
                 |s _ IH|cb s _ IH].
  - now apply constructor_debounceInv with now.
  - now apply runTimers_debounceInv.
  - apply step_advances in E. destruct E as [[_ [_ I]] _]. auto.
  - unfold setParameters in E. cbv zeta in E.
    apply updateSurfaces_eq in E. destruct E as (k & _ & ->).
    revert IH. now apply debounceInv_ext.
  - revert IH. now apply debounceInv_ext.
  - revert IH. now apply debounceInv_ext.
  - revert IH. now apply debounceInv_ext.
  - revert IH. now apply debounceInv_ext.
  - revert IH. now apply debounceInv_ext.
Qed.

Lemma reachable_debounceInv_witness :
  exists s, constructor 0 = Some s
            /\ debounceInv (runTimers 20 (onCollision 0%nat s)).
Proof.
  destruct (updateSurfaces_total (reset (fields0 0))) as [s E];
    [discriminate|].
  exists s. split; [exact E|].
  apply reachable_debounceInv.
  apply reach_clock; [apply reach_onCollision; now apply reach_new with 0%Z|].
  apply constructor_debounceInv in E as D.
  unfold constructor in E. apply updateSurfaces_eq in E.
  destruct E as (k & _ & ->). cbn. lia.
Defined.

Lemma triggerCollision_debounceInv sf v s :
  debounceInv s -> debounceInv (triggerCollision sf v s).
Proof.
  destruct (triggerCollision_cases sf v s) as [-> | ->]; [auto|].
  intros [B P]. split; cbn [timers clock lastCollisionSurface set_calls
                             set_timers set_lastCollisionSurface].
  - intros t Ht. apply in_app_or in Ht. destruct Ht as [Ht|[<-|[]]].
    + now apply B.
    + cbn [fst]. lia.
  - intros id E. injection E as <-. exists (clock s + 50)%Z.
    apply in_or_app. right. now left.
Qed.

Lemma runTimers_frame (now : Z) (s : DryerPhysics) :
  runTimers now s
  = set_lastCollisionSurface (lastCollisionSurface (runTimers now s))
      (set_clock now
         (set_timers (filter (fun t => negb (fst t <=? now)%Z) (timers s))
            s)).
Proof.
  unfold runTimers. cbv zeta.
  generalize (filter (fun t => (fst t <=? now)%Z) (timers s)).
  generalize (set_clock now
    (set_timers (filter (fun t => negb (fst t <=? now)%Z) (timers s)) s)).
  intros m l. revert m. induction l as [|t l IH]; intros m; cbn [fold_left].
  - now destruct m.
  - rewrite IH. unfold timerCallback. destruct (slotIs _ _); reflexivity.
Qed.

Lemma struckState_debounceInv : debounceInv struckState.
Proof.
  unfold struckState, impactAt. apply triggerCollision_debounceInv.
  apply runTimers_debounceInv; [|cbn; lia].
  split; [intros t []|discriminate].
Qed.

(** The slot is never stuck.  In a state that satisfies the debounce
    invariant, once the host has advanced the clock by 50 ms or more the
    due timers have emptied the slot and no timer is left pending, so the
    next impact that passes the lint trap is reported to every listener,
    whichever surface it hits. *)
Theorem debounce_quiescent (now : Z) (s : DryerPhysics) :
  debounceInv s -> (clock s + 50 <= now)%Z ->
  lastCollisionSurface (runTimers now s) = None
  /\ timers (runTimers now s) = []
  /\ forall sf v,
       lintTrapEnabled s && jlt v (lintTrapThreshold s) = false ->
       calls (impactAt now sf v s)
       = (calls s
          ++ List.map (fun cb => mkCall cb sf v) (collisionCallbacks s))%list.
Proof.
  intros [B P] Hn. destruct (runTimers_fields now s) as (C & T & S).
  assert (T0 : timers (runTimers now s) = []).
  { rewrite T. clear - B Hn. induction (timers s) as [|t l IH]; [reflexivity|].
    cbn [filter].
    replace (fst t <=? now)%Z with true
      by (symmetry; apply Z.leb_le; specialize (B t (or_introl eq_refl));
          lia).
    cbn [negb]. apply IH. intros t' H. apply B. now right. }
  assert (S0 : lastCollisionSurface (runTimers now s) = None).
  { destruct (lastCollisionSurface (runTimers now s)) as [id|];
      [|reflexivity].
    destruct (S id eq_refl) as [E N]. destruct (P id E) as [d Hd].
    exfalso. apply (N (d, id) Hd); [|reflexivity].
    specialize (B (d, id) Hd). cbn [fst] in B |- *. lia. }
  split; [exact S0|]. split; [exact T0|].
  intros sf v L. unfold impactAt, triggerCollision.
  pose proof (runTimers_frame now s) as F.
  assert (F1 : lintTrapEnabled (runTimers now s) = lintTrapEnabled s)
    by (rewrite F; reflexivity).
  assert (F2 : lintTrapThreshold (runTimers now s) = lintTrapThreshold s)
    by (rewrite F; reflexivity).
  assert (F3 : collisionCallbacks (runTimers now s) = collisionCallbacks s)
    by (rewrite F; reflexivity).
  assert (F4 : calls (runTimers now s) = calls s)
    by (rewrite F; reflexivity).
  rewrite S0, F1, F2, L.
  cbn [slotIs calls collisionCallbacks set_calls set_timers
       set_lastCollisionSurface].
  now rewrite F3, F4.
Qed.

Lemma debounce_quiescent_witness :
  lastCollisionSurface (runTimers 50 struckState) = None
  /\ timers (runTimers 50 struckState) = []
  /\ forall sf v,
       lintTrapEnabled struckState
       && jlt v (lintTrapThreshold struckState) = false ->
       calls (impactAt 50 sf v struckState)
       = (calls struckState
          ++ List.map (fun cb => mkCall cb sf v)
               (collisionCallbacks struckState))%list.
Proof.
  apply (debounce_quiescent 50 struckState).
  - exact struckState_debounceInv.
  - cbn. lia.
Defined.

(** No suppression without a recent event.  In a state that satisfies the
    debounce invariant, an impact that passes the lint trap is dropped
    only while a timer of its surface is pending, that is, only if an
    event of the same surface took the slot less than 50 ms before. *)
Theorem debounce_suppression_recent (sf : Surface) (v : jsnum)
    (s : DryerPhysics) :
  debounceInv s ->
  lintTrapEnabled s && jlt v (lintTrapThreshold s) = false ->
  triggerCollision sf v s = s ->
  exists d, In (d, surf_id sf) (timers s)
            /\ (clock s < d <= clock s + 50)%Z.
Proof.
  intros [B P] L. unfold triggerCollision. rewrite L.
  destruct (slotIs (lastCollisionSurface s) (surf_id sf)) eqn:Q.
  - intros _. apply slotIs_true in Q. destruct (P _ Q) as [d Hd].
    exists d. split; [exact Hd|]. exact (B (d, surf_id sf) Hd).
  - intros E. apply (f_equal timers) in E.
    cbn [timers set_calls set_timers set_lastCollisionSurface] in E.
    apply (f_equal (@List.length Timer)) in E.
    rewrite List.length_app in E. cbn [List.length] in E. lia.
Qed.

Lemma debounce_suppression_recent_witness :
  exists d, In (d, surf_id drum0) (timers struckState)
            /\ (clock struckState < d <= clock struckState + 50)%Z.
Proof.
  apply (debounce_suppression_recent drum0 (Fin 1) struckState).
  - exact struckState_debounceInv.
  - reflexivity.
  - reflexivity.
Defined.

End Debounce.

(* ================================================================== *)
(** ** The forces of the rotating frame *)
(* ================================================================== *)

Section Forces.






(** Linear air drag (the default model) only damps.  With a finite
    velocity faster than 1 mm/s the velocity is multiplied in place by
    [exp (-0.1 * dt)], whatever the mass, size and drag coefficient of the
    ball: no component changes its sign and, for [dt >= 0], none grows,
    so the speed does not grow.  No acceleration is returned.  At 1 mm/s
    or slower nothing is done. *)
Theorem linear_drag_damps (s : DryerPhysics) (vx vy dt : R) :
  enableAirDrag s = true -> useQuadraticDrag s = false ->
  ball_vx (ball s) = Fin vx -> ball_vy (ball s) = Fin vy ->
  let speed := sqrt (vx * vx + vy * vy) in
  let k := exp (- (0.1 * dt)) in
  (0.001 < speed ->
   exists s1,
     airDrag (Fin dt) s = (Fin 0, Fin 0, s1)
     /\ ball_vx (ball s1) = Fin (vx * k) /\ ball_vy (ball s1) = Fin (vy * k)
     /\ ball_x (ball s1) = ball_x (ball s)
     /\ ball_y (ball s1) = ball_y (ball s)
     /\ 0 <= vx * k * vx /\ 0 <= vy * k * vy
     /\ (0 <= dt ->
         Rabs (vx * k) <= Rabs vx /\ Rabs (vy * k) <= Rabs vy
         /\ sqrt (vx * k * (vx * k) + vy * k * (vy * k)) <= speed)
     /\ dragMagnitude (debugInfo s1) = Fin (0.1 * speed))
  /\ (speed <= 0.001 -> airDrag (Fin dt) s = (Fin 0, Fin 0, s)).
Proof.
  intros He Hq Hx Hy speed k.
  unfold airDrag. cbv zeta. rewrite He, Hq, Hx, Hy.
  cbn [jmul jadd]. rewrite jsqrt_fin by apply sqrt_sum_sq_pos.
  fold speed. split; intros Hs.
  - replace (jgt (Fin speed) (Fin 0.001)) with true
      by (symmetry; apply jgt_fin; exact Hs).
    cbn [jneg jmul jexp].
    replace (- (0.1) * dt) with (- (0.1 * dt)) by ring. fold k.
    eexists. split; [reflexivity|].
    ball_fields.
    cbn [ball debugInfo set_debugInfo set_ball ball_vx ball_vy ball_x ball_y
         set_ball_vx set_ball_vy dragMagnitude set_dragMagnitude].
    rewrite ?Hx, ?Hy. cbn [jmul].
    assert (Pk : 0 < k) by apply exp_pos.
    split; [reflexivity|]. split; [reflexivity|].
    split; [reflexivity|]. split; [reflexivity|].
    split.
    { replace (vx * k * vx) with (k * (vx * vx)) by ring.
      apply Rmult_le_pos; [lra|apply Rle_0_sqr]. }
    split.
    { replace (vy * k * vy) with (k * (vy * vy)) by ring.
      apply Rmult_le_pos; [lra|apply Rle_0_sqr]. }
    split; [|reflexivity].
    intros Hdt.
    assert (Hk : k <= 1).
    { unfold k. rewrite <- exp_0.
      destruct (Req_dec dt 0) as [->|N].
      - right. f_equal. ring.
      - left. apply exp_increasing. lra. }
    assert (A : forall v, Rabs (v * k) <= Rabs v).
    { intros v. rewrite Rabs_mult, (Rabs_right k) by lra.
      pose proof (Rabs_pos v). nra. }
    split; [apply A|]. split; [apply A|].
    replace (vx * k * (vx * k) + vy * k * (vy * k))
      with (k * vx * (k * vx) + k * vy * (k * vy)) by ring.
    rewrite sqrt_scale by lra. fold speed.
    pose proof (sqrt_pos (vx * vx + vy * vy)) as P. fold speed in P. nra.
  - replace (jgt (Fin speed) (Fin 0.001)) with false; [reflexivity|].
    symmetry. unfold jgt. apply jlt_fin_false. exact Hs.
Qed.

Lemma linear_drag_damps_witness :
  let k := exp (- (0.1 * (1 / 240))) in
  exists s1,
    airDrag (Fin (1 / 240)) spinningState = (Fin 0, Fin 0, s1)
    /\ ball_vx (ball s1) = Fin (1 * k) /\ ball_vy (ball s1) = Fin (0.5 * k)
    /\ ball_x (ball s1) = ball_x (ball spinningState)
    /\ ball_y (ball s1) = ball_y (ball spinningState)
    /\ 0 <= 1 * k * 1 /\ 0 <= 0.5 * k * 0.5
    /\ (0 <= 1 / 240 ->
        Rabs (1 * k) <= Rabs 1 /\ Rabs (0.5 * k) <= Rabs 0.5
        /\ sqrt (1 * k * (1 * k) + 0.5 * k * (0.5 * k))
           <= sqrt (1 * 1 + 0.5 * 0.5))
    /\ dragMagnitude (debugInfo s1) = Fin (0.1 * sqrt (1 * 1 + 0.5 * 0.5)).
Proof.
  apply (proj1 (linear_drag_damps spinningState 1 0.5 (1 / 240)
                  eq_refl eq_refl eq_refl eq_refl)).
  apply sqrt_gt_of_sq; lra.
Defined.



Lemma centrifugalForce_off (s : DryerPhysics) :
  enableCentrifugal s = false -> centrifugalForce s = (Fin 0, Fin 0, s).
Proof. intros E. unfold centrifugalForce. now rewrite E. Qed.

Lemma coriolisForce_off (s : DryerPhysics) :
  enableCoriolis s = false -> coriolisForce s = (Fin 0, Fin 0, s).
Proof. intros E. unfold coriolisForce. now rewrite E. Qed.

Lemma airDrag_off (dt : jsnum) (s : DryerPhysics) :
  enableAirDrag s = false -> airDrag dt s = (Fin 0, Fin 0, s).
Proof. intros E. unfold airDrag. now rewrite E. Qed.

(** The end of a step on a finite ball: the new velocity, the new
    position and the speed left in the debug record. *)
Lemma integrate_fin (s : DryerPhysics) (x y vx vy dt ax ay : R) :
  ball_x (ball s) = Fin x -> ball_y (ball s) = Fin y ->
  ball_vx (ball s) = Fin vx -> ball_vy (ball s) = Fin vy ->
  let vx' := vx + ax * dt in
  let vy' := vy + ay * dt in
  integrate (Fin dt) (Fin ax) (Fin ay) s =
  handleCollisions
    (set_debugInfo
       (set_totalVelocity (Fin (sqrt (vx' * vx' + vy' * vy'))) (debugInfo s))
       (set_ball
          (mkBall (Fin (x + vx' * dt)) (Fin (y + vy' * dt))
             (Fin vx') (Fin vy')
             (radius (ball s)) (mass (ball s)) (restitution (ball s))
             (dragCoeff (ball s))) s)).
Proof.
  intros Hx Hy Hvx Hvy vx' vy'. unfold integrate. cbv zeta. f_equal.
  open_state s. cbn in Hx, Hy, Hvx, Hvy. subst.
  unfold assign_x, assign_y, assign_vx, assign_vy.
  cbn [ball set_ball set_debugInfo debugInfo ball_x ball_y ball_vx ball_vy
       set_ball_x set_ball_y set_ball_vx set_ball_vy jmul jadd
       radius mass restitution dragCoeff].
  rewrite jsqrt_fin by apply sqrt_sum_sq_pos. reflexivity.
Qed.

(** Free flight under gravity alone.  After [onlyGravity()], a step of a
    finite state whose new position is free (inside the drum and nearer
    to the axis than the inner ends of the vanes) is one step of the
    semi-implicit Euler scheme: the drum angle advances first, gravity of
    magnitude [g] is turned into the rotating frame by the new angle,
    the velocity is updated by it, and the position by the new velocity.
    Nothing is reported. *)
Theorem gravity_only_step (s : DryerPhysics)
    (th w g x y vx vy dt r Rd h : R) (n : nat) :
  drumAngle s = Fin th -> drumAngularVelocity s = Fin w ->
  gravity s = Fin g ->
  ball_x (ball s) = Fin x -> ball_y (ball s) = Fin y ->
  ball_vx (ball s) = Fin vx -> ball_vy (ball s) = Fin vy ->
  radius (ball s) = Fin r -> drumRadius s = Fin Rd ->
  vaneHeight s = Fin h -> vaneCount s = ofNat n ->
  0 <= r -> 0 <= h ->
  let th' := th + w * dt in
  let vx' := vx - g * sin th' * dt in
  let vy' := vy - g * cos th' * dt in
  let x' := x + vx' * dt in
  let y' := y + vy' * dt in
  sqrt (x' * x' + y' * y') + r <= Rd ->
  sqrt (x' * x' + y' * y') < Rd * (1 - h) ->
  exists s',
    step (Fin dt) (onlyGravity s) = Some s'
    /\ drumAngle s' = Fin th'
    /\ ball_vx (ball s') = Fin vx' /\ ball_vy (ball s') = Fin vy'
    /\ ball_x (ball s') = Fin x' /\ ball_y (ball s') = Fin y'
    /\ calls s' = calls s
    /\ lastCollisionSurface s' = lastCollisionSurface s.
Proof.
  intros Hth Hw Hg Hx Hy Hvx Hvy Hr HR Hh Hn Pr Ph th' vx' vy' x' y' Hwall
    Hin.
  unfold step. cbv zeta.
  set (s0 := set_drumAngle _ (onlyGravity s)).
  rewrite (centrifugalForce_off s0) by reflexivity.
  rewrite (coriolisForce_off s0) by reflexivity.
  rewrite (airDrag_off _ s0) by reflexivity.
  assert (A0 : drumAngle s0 = Fin th').
  { unfold s0. cbn [drumAngle set_drumAngle].
    change (drumAngle (onlyGravity s)) with (drumAngle s).
    change (drumAngularVelocity (onlyGravity s))
      with (drumAngularVelocity s).
    rewrite Hth, Hw. reflexivity. }
  assert (G0 : gravity s0 = Fin g) by exact Hg.
  rewrite A0, G0. cbn [jcos jsin jneg jmul jadd].
  assert (Q : forall ax ay : R,
             ax = - g * sin th' -> ay = - g * cos th' ->
             exists s',
               integrate (Fin dt) (Fin ax) (Fin ay) s0 = Some s'
               /\ drumAngle s' = Fin th'
               /\ ball_vx (ball s') = Fin vx' /\ ball_vy (ball s') = Fin vy'
               /\ ball_x (ball s') = Fin x' /\ ball_y (ball s') = Fin y'
               /\ calls s' = calls s
               /\ lastCollisionSurface s' = lastCollisionSurface s).
  { intros ax ay Eax Eay.
    rewrite (integrate_fin s0 x y vx vy dt ax ay Hx Hy Hvx Hvy).
    cbv zeta.
    assert (Evx : vx + ax * dt = vx') by (unfold vx'; rewrite Eax; ring).
    assert (Evy : vy + ay * dt = vy') by (unfold vy'; rewrite Eay; ring).
    rewrite Evx, Evy. fold x' y'.
    match goal with |- context [handleCollisions ?m] => set (sm := m) end.
    exists sm.
    assert (Sx : ball_x (ball sm) = Fin x') by reflexivity.
    assert (Sy : ball_y (ball sm) = Fin y') by reflexivity.
    split.
    - unfold handleCollisions.
      rewrite (wallCollision_miss sm x' y' r Rd Sx Sy Hr HR Hwall).
      apply (checkVaneCollisions_inner sm x' y' Rd h n Sx Sy HR Hh Hn);
        [|exact Ph|exact Hin].
      pose proof (sqrt_pos (x' * x' + y' * y')). nra.
    - split; [exact A0|]. repeat split. }
  destruct (useQuadraticDrag s0).
  - apply Q; ring.
  - apply Q; ring.
Qed.

Lemma gravity_only_step_witness :
  exists s',
    step (Fin (1 / 100)) (onlyGravity idleState) = Some s'
    /\ drumAngle s' = Fin (0 + 0 * (1 / 100))
    /\ ball_vx (ball s')
       = Fin (0 - 9.81 * sin (0 + 0 * (1 / 100)) * (1 / 100))
    /\ ball_vy (ball s')
       = Fin (0 - 9.81 * cos (0 + 0 * (1 / 100)) * (1 / 100))
    /\ ball_x (ball s')
       = Fin (0.24
              + (0 - 9.81 * sin (0 + 0 * (1 / 100)) * (1 / 100)) * (1 / 100))
    /\ ball_y (ball s')
       = Fin (0
              + (0 - 9.81 * cos (0 + 0 * (1 / 100)) * (1 / 100)) * (1 / 100))
    /\ calls s' = calls idleState
    /\ lastCollisionSurface s' = lastCollisionSurface idleState.
Proof.
  assert (Z : 0 + 0 * (1 / 100) = 0) by lra.
  assert (D : sqrt
                ((0.24 + (0 - 9.81 * sin (0 + 0 * (1 / 100)) * (1 / 100))
                         * (1 / 100))
                 * (0.24 + (0 - 9.81 * sin (0 + 0 * (1 / 100)) * (1 / 100))
                           * (1 / 100))
                 + (0 + (0 - 9.81 * cos (0 + 0 * (1 / 100)) * (1 / 100))
                        * (1 / 100))
                   * (0 + (0 - 9.81 * cos (0 + 0 * (1 / 100)) * (1 / 100))
                          * (1 / 100))) < 0.25).
  { rewrite Z, sin_0, cos_0. apply sqrt_lt_of_sq; [nra|lra|nra]. }
  apply (gravity_only_step idleState 0 0 9.81 0.24 0 0 0 (1 / 100)
           0.035 0.80 0.30 5);
    try reflexivity; lra.
Defined.

(** [flipCoriolisSign()] negates the Coriolis acceleration.  For a finite
    sign [f] (zero counting as [+1]) the stored sign becomes [- f], the
    acceleration computed by the next step is the opposite of what it
    would have been, and a second flip restores a non-zero sign. *)
Theorem flip_negates_coriolis (s : DryerPhysics) (f w vx vy : R) :
  coriolisSignFlip s = Fin f -> drumAngularVelocity s = Fin w ->
  ball_vx (ball s) = Fin vx -> ball_vy (ball s) = Fin vy ->
  let sign := if Req_dec_T f 0 then 1 else f in
  exists f1 f2 cx cy cx' cy' s1 s2,
    coriolisSignFlip (flipCoriolisSign s) = Fin f1 /\ f1 = - sign
    /\ coriolisSignFlip (flipCoriolisSign (flipCoriolisSign s)) = Fin f2
    /\ f2 = sign
    /\ coriolisForce s = (Fin cx, Fin cy, s1)
    /\ coriolisForce (flipCoriolisSign s) = (Fin cx', Fin cy', s2)
    /\ cx' = - cx /\ cy' = - cy.
Proof.
  intros Hf Hw Hx Hy sign.
  assert (S : jor (Fin f) (Fin 1) = Fin sign).
  { unfold jor, truthy, sign. destruct (Req_dec_T f 0); reflexivity. }
  assert (N : sign <> 0).
  { unfold sign. destruct (Req_dec_T f 0); lra. }
  assert (S' : jor (Fin (sign * -1)) (Fin 1) = Fin (sign * -1)).
  { unfold jor, truthy. destruct (Req_dec_T (sign * -1) 0); [lra|].
    reflexivity. }
  assert (F1 : coriolisSignFlip (flipCoriolisSign s) = Fin (sign * -1)).
  { unfold flipCoriolisSign. cbn [coriolisSignFlip set_coriolisSignFlip].
    rewrite Hf, S. reflexivity. }
  assert (F2 : coriolisSignFlip (flipCoriolisSign (flipCoriolisSign s))
               = Fin (sign * -1 * -1)).
  { unfold flipCoriolisSign at 1.
    cbn [coriolisSignFlip set_coriolisSignFlip].
    rewrite F1, S'. reflexivity. }
  unfold coriolisForce. cbv zeta. rewrite F1, F2, S', Hf, S.
  change (enableCoriolis (flipCoriolisSign s)) with (enableCoriolis s).
  change (drumAngularVelocity (flipCoriolisSign s))
    with (drumAngularVelocity s).
  change (ball (flipCoriolisSign s)) with (ball s).
  rewrite Hw, Hx, Hy. cbn [jmul jadd].
  destruct (enableCoriolis s).
  - eexists _, _, _, _, _, _, _, _. split; [reflexivity|].
    split; [ring|]. split; [reflexivity|]. split; [ring|].
    split; [reflexivity|]. split; [reflexivity|]. split; ring.
  - eexists _, _, _, _, _, _, _, _. split; [reflexivity|].
    split; [ring|]. split; [reflexivity|]. split; [ring|].
    split; [reflexivity|]. split; [reflexivity|]. split; ring.
Qed.

Lemma flip_negates_coriolis_witness :
  exists f1 f2 cx cy cx' cy' s1 s2,
    coriolisSignFlip (flipCoriolisSign spinningState) = Fin f1 /\ f1 = - 1
    /\ coriolisSignFlip (flipCoriolisSign (flipCoriolisSign spinningState))
       = Fin f2
    /\ f2 = 1
    /\ coriolisForce spinningState = (Fin cx, Fin cy, s1)
    /\ coriolisForce (flipCoriolisSign spinningState)
       = (Fin cx', Fin cy', s2)
    /\ cx' = - cx /\ cy' = - cy.
Proof.
  pose proof (flip_negates_coriolis spinningState 1 2 1 0.5
                eq_refl eq_refl eq_refl eq_refl) as H.
  cbv zeta in H. destruct (Req_dec_T 1 0) as [E|_]; [lra|]. exact H.
Defined.

End Forces.

(* ================================================================== *)
(** ** Presets, toggles and colours *)
(* ================================================================== *)

Section Presets.

Lemma truthy_fin (r : R) : r <> 0 -> truthy (Fin r) = true.
Proof. intros N. unfold truthy. now destruct (Req_dec_T r 0). Qed.

Lemma truthy_zero : truthy (Fin 0) = false.
Proof.
  unfold truthy. destruct (Req_dec_T 0 0) as [_|N]; [reflexivity|].
  now elim N.
Qed.

(** Ball presets.  [setTennisBall()] and [setBalloonBall()] write all four
    ball properties, so each undoes the other whatever the ball was, and
    neither moves the ball.  The console preset [dryerDebug.tennisBall()]
    writes radius, mass and drag coefficient only: after a balloon the
    restitution stays at 0.10.  [dryerDebug.setBall] ignores a radius or
    mass of zero, where [setBallProperties] stores it. *)
Theorem ball_presets_compose (s : DryerPhysics) :
  setTennisBall (setBalloonBall s) = setTennisBall s
  /\ setBalloonBall (setTennisBall s) = setBalloonBall s
  /\ ball (setTennisBall s)
     = mkBall (ball_x (ball s)) (ball_y (ball s)) (ball_vx (ball s))
         (ball_vy (ball s)) (Fin 0.035) (Fin 0.058) (Fin 0.75) (Fin 0.55)
  /\ ball (dryerDebug.tennisBall (dryerDebug.balloon s))
     = mkBall (ball_x (ball s)) (ball_y (ball s)) (ball_vx (ball s))
         (ball_vy (ball s)) (Fin 0.035) (Fin 0.058) (Fin 0.10) (Fin 0.55)
  /\ dryerDebug.setBall (Some (Fin 0)) (Some (Fin 0)) s = s
  /\ radius (ball (setBallProperties (Some (Fin 0)) None None None s))
     = Fin 0.
Proof.
  split; [reflexivity|]. split; [reflexivity|]. split; [reflexivity|].
  split; [|split; [|reflexivity]].
  - unfold dryerDebug.tennisBall, dryerDebug.setBall. cbv zeta.
    rewrite !truthy_fin by lra. reflexivity.
  - unfold dryerDebug.setBall. rewrite truthy_zero.
    open_state s. reflexivity.
Qed.

(** Moon gravity.  The console toggle [dryerDebug.moon] does what
    [setMoonGravity] does, and in a state whose gravity agrees with its
    flag (as after construction) toggling twice restores the state. *)
Theorem moon_toggle_round_trip (s : DryerPhysics) :
  gravity s = (if moonGravityEnabled s then moonGravity s
               else earthGravity s) ->
  (forall e, dryerDebug.moon (Some e) s = setMoonGravity e s)
  /\ dryerDebug.moon None s = setMoonGravity (negb (moonGravityEnabled s)) s
  /\ gravity (dryerDebug.moon None s)
     = (if moonGravityEnabled s then earthGravity s else moonGravity s)
  /\ dryerDebug.moon None (dryerDebug.moon None s) = s.
Proof.
  intros G. split; [reflexivity|]. split; [reflexivity|]. split.
  - unfold dryerDebug.moon. cbv zeta.
    cbn [gravity set_gravity moonGravityEnabled set_moonGravityEnabled
         moonGravity earthGravity].
    now destruct (moonGravityEnabled s).
  - open_state s. cbn in G |- *. unfold dryerDebug.moon. cbv zeta. cbn.
    rewrite negb_involutive.
    destruct moonGravityEnabled0; cbn; now rewrite G.
Qed.

Lemma moon_toggle_round_trip_witness :
  (forall e, dryerDebug.moon (Some e) idleState = setMoonGravity e idleState)
  /\ dryerDebug.moon None idleState
     = setMoonGravity (negb (moonGravityEnabled idleState)) idleState
  /\ gravity (dryerDebug.moon None idleState)
     = (if moonGravityEnabled idleState then earthGravity idleState
        else moonGravity idleState)
  /\ dryerDebug.moon None (dryerDebug.moon None idleState) = idleState.
Proof. apply (moon_toggle_round_trip idleState). reflexivity. Defined.

Lemma colors_NoDup : NoDup colors.
Proof.
  unfold colors.
  repeat (constructor;
          [cbn [In]; intros H;
           repeat (destruct H as [H|H]; [discriminate H|]); exact H|]).
  constructor.
Qed.

Lemma getSurfaceColor_inj (a b : nat) :
  getSurfaceColor a = getSurfaceColor b <-> (a mod 12 = b mod 12)%nat.
Proof.
  unfold getSurfaceColor. change (List.length colors) with 12%nat.
  split; [|now intros ->].
  apply (proj1 (NoDup_nth colors "") colors_NoDup);
    change (List.length colors) with 12%nat;
    apply Nat.mod_upper_bound; discriminate.
Qed.

Lemma even_mod_12 (i : nat) : ((i * 2) mod 12 = 2 * (i mod 6))%nat.
Proof.
  symmetry. apply Nat.mod_unique with (i / 6)%nat.
  - pose proof (Nat.mod_upper_bound i 6). lia.
  - pose proof (Nat.div_mod_eq i 6). lia.
Qed.

Lemma odd_mod_12 (i : nat) :
  ((i * 2 + 1) mod 12 = 2 * (i mod 6) + 1)%nat.
Proof.
  symmetry. apply Nat.mod_unique with (i / 6)%nat.
  - pose proof (Nat.mod_upper_bound i 6). lia.
  - pose proof (Nat.div_mod_eq i 6). lia.
Qed.

(** Surface colours.  A surface of vane index [i] and a surface of vane
    index [j], as [updateSurfaces] builds them, have the same colour
    exactly when [i] and [j] agree modulo 6 and both are drum segments or
    both are vane faces: the two faces of a vane share a colour, a drum
    segment never has the colour of a vane, and the palette repeats from
    the seventh vane on. *)
Theorem surface_colours (i j : nat) (a b : Surface) :
  In a (surfacesOf i) -> In b (surfacesOf j) ->
  (surf_color a = surf_color b
   <-> (i mod 6 = j mod 6)%nat
       /\ (surf_type a = drum <-> surf_type b = drum)).
Proof.
  assert (DD : getSurfaceColor (i * 2)%nat = getSurfaceColor (j * 2)%nat
               <-> (i mod 6 = j mod 6)%nat).
  { rewrite getSurfaceColor_inj, !even_mod_12. lia. }
  assert (VV : getSurfaceColor (i * 2 + 1)%nat = getSurfaceColor (j * 2 + 1)%nat
               <-> (i mod 6 = j mod 6)%nat).
  { rewrite getSurfaceColor_inj, !odd_mod_12. lia. }
  assert (DV : getSurfaceColor (i * 2)%nat = getSurfaceColor (j * 2 + 1)%nat
               -> False).
  { rewrite getSurfaceColor_inj, even_mod_12, odd_mod_12. lia. }
  assert (VD : getSurfaceColor (i * 2 + 1)%nat = getSurfaceColor (j * 2)%nat
               -> False).
  { rewrite getSurfaceColor_inj, even_mod_12, odd_mod_12. lia. }
  unfold surfacesOf. cbn [In].
  intros [<-|[<-|[<-|[]]]] [<-|[<-|[<-|[]]]];
    cbn [surf_color surf_type];
    first
      [ rewrite DD; intuition discriminate
      | rewrite VV; intuition discriminate
      | split; [intros E; exfalso; auto
               |intros [_ [T1 T2]]; exfalso;
                first [discriminate (T1 eq_refl)
                      |discriminate (T2 eq_refl)]] ].
Qed.

Lemma surface_colours_witness :
  surf_color (drumSurface 0) = surf_color (drumSurface 6)
  <-> (0 mod 6 = 6 mod 6)%nat
      /\ (surf_type (drumSurface 0) = drum
          <-> surf_type (drumSurface 6) = drum).
Proof.
  apply (surface_colours 0 6 (drumSurface 0) (drumSurface 6));
    left; reflexivity.
Defined.

End Presets.

(* ================================================================== *)
(** ** Screen coordinates *)
(* ================================================================== *)

Section Screen.











End Screen.

(* ================================================================== *)
(** ** The reported drum segment *)
(* ================================================================== *)

Section Sectors.

Lemma Int_part_div (a b : Z) :
  (0 < b)%Z -> Int_part (IZR a / IZR b) = (a / b)%Z.
Proof.
  intros Hb. symmetry. apply Int_part_spec.
  pose proof (Z.div_mod a b ltac:(lia)) as E.
  pose proof (Z.mod_pos_bound a b Hb) as [L U].
  apply (f_equal IZR) in E. rewrite plus_IZR, mult_IZR in E.
  apply IZR_le in L. apply IZR_lt in U. apply IZR_lt in Hb.
  assert (Q : IZR a / IZR b = IZR (a / b) + IZR (a mod b) / IZR b).
  { rewrite E. field. lra. }
  rewrite Q.
  assert (0 <= IZR (a mod b) / IZR b < 1).
  { split.
    - apply Rmult_le_pos; [lra|]. left. now apply Rinv_0_lt_compat.
    - apply Rmult_lt_reg_r with (IZR b); [lra|].
      unfold Rdiv. rewrite Rmult_assoc, Rinv_l by lra. lra. }
  lra.
Qed.

(** Truncation of an integer quotient is [Z.quot]. *)
Lemma Rtrunc_quot (a b : Z) :
  (0 < b)%Z -> Rtrunc (IZR a / IZR b) = (a ÷ b)%Z.
Proof.
  intros Hb. unfold Rtrunc.
  pose proof (IZR_lt _ _ Hb) as Pb. cbn in Pb.
  destruct (Rlt_dec (IZR a / IZR b) 0) as [N|P].
  - assert (Ha : (a < 0)%Z).
    { apply lt_IZR. cbn.
      apply Rmult_lt_reg_r with (/ IZR b);
        [now apply Rinv_0_lt_compat|].
      rewrite Rmult_0_l. exact N. }
    replace (- (IZR a / IZR b)) with (IZR (- a) / IZR b)
      by (rewrite opp_IZR; field; lra).
    rewrite Int_part_div by exact Hb.
    rewrite <- Z.quot_div_nonneg by lia.
    rewrite Z.quot_opp_l by lia. lia.
  - assert (Ha : (0 <= a)%Z).
    { apply le_IZR. cbn. apply Rnot_lt_le in P.
      apply Rmult_le_reg_r with (/ IZR b);
        [now apply Rinv_0_lt_compat|].
      rewrite Rmult_0_l. exact P. }
    rewrite Int_part_div by exact Hb.
    symmetry. now apply Z.quot_div_nonneg.
Qed.

(** [%] on integers is [Z.rem]. *)
Lemma jmod_rem (a b : Z) :
  (0 < b)%Z -> jmod (Fin (IZR a)) (Fin (IZR b)) = Fin (IZR (Z.rem a b)).
Proof.
  intros Hb. unfold jmod.
  pose proof (IZR_lt _ _ Hb) as Pb. cbn in Pb.
  destruct (Req_dec_T (IZR b) 0) as [E|_]; [lra|].
  rewrite Rtrunc_quot by exact Hb. f_equal.
  rewrite <- mult_IZR, <- minus_IZR. f_equal.
  pose proof (Z.quot_rem' a b). lia.
Qed.

(** The remainder, raised by the divisor when negative, is the
    non-negative remainder. *)
Lemma rem_fixup (a b : Z) :
  (0 < b)%Z ->
  (if Z_lt_dec (Z.rem a b) 0 then Z.rem a b + b else Z.rem a b)%Z
  = (a mod b)%Z.
Proof.
  intros Hb. pose proof (Z.quot_rem' a b) as E.
  destruct (Z_lt_dec (Z.rem a b) 0) as [N|P].
  - apply Z.mod_unique with (a ÷ b - 1)%Z; [|lia].
    left. destruct (Z_le_dec 0 a) as [A|A].
    + pose proof (Z.rem_bound_pos a b A Hb). lia.
    + pose proof (Z.rem_bound_pos_neg a b Hb ltac:(lia)). lia.
  - apply Z.mod_unique with (a ÷ b)%Z; [|lia].
    left. destruct (Z_le_dec 0 a) as [A|A].
    + pose proof (Z.rem_bound_pos a b A Hb). lia.
    + pose proof (Z.rem_bound_pos_neg a b Hb ltac:(lia)). lia.
Qed.

(** The segment rule on a finite position whose normalized angle lies in
    sector [m] of [n], with an integral offset [o]. *)
Lemma specSegmentIndex_offset (y x theta : R) (n m : nat) (o : Z) :
  (if Rlt_dec (Ratan2 y x) 0 then Ratan2 y x + 2 * PI else Ratan2 y x)
  = theta ->
  (m < n)%nat ->
  INR m * (2 * PI / INR n) <= theta < (INR m + 1) * (2 * PI / INR n) ->
  specSegmentIndex (Fin y) (Fin x) (ofNat n) (Fin (IZR o))
  = Fin (IZR ((Z.of_nat m + o) mod Z.of_nat n)).
Proof.
  intros Hth Hm Hsec.
  assert (Hk : 0 < INR n) by (apply lt_0_INR; lia).
  assert (Hmk : INR m < INR n) by (apply lt_INR; exact Hm).
  assert (Hm0 : 0 <= INR m) by apply pos_INR.
  assert (Hp : 0 < 2 * PI / INR n).
  { apply Rdiv_lt_0_compat; [|exact Hk]. pose proof PI_RGT_0. lra. }
  assert (Zn : (0 < Z.of_nat n)%Z) by lia.
  unfold specSegmentIndex, ofNat, jPI. cbv zeta. cbn [jatan2 jmul].
  assert (N : (if jlt (Fin (Ratan2 y x)) (Fin 0)
               then jadd (Fin (Ratan2 y x)) (Fin (2 * PI))
               else Fin (Ratan2 y x)) = Fin theta).
  { unfold jlt. destruct (Rlt_dec (Ratan2 y x) 0); cbn [jadd];
      now rewrite <- Hth. }
  rewrite N.
  rewrite (jdiv_fin (2 * PI) (INR n)) by lra.
  rewrite jdiv_fin by lra.
  assert (F : Int_part (theta / (2 * PI / INR n)) = Z.of_nat m).
  { symmetry. apply Int_part_spec. rewrite <- INR_IZR_INZ.
    destruct Hsec as [S1 S2].
    set (p := 2 * PI / INR n) in *.
    assert (E : theta / p * p = theta) by (field; lra).
    split.
    - apply Rmult_lt_reg_r with p; [exact Hp|].
      replace ((theta / p - 1) * p) with (theta / p * p - p) by ring.
      rewrite E. lra.
    - apply Rmult_le_reg_r with p; [exact Hp|]. rewrite E. lra. }
  cbn [jfloor]. rewrite F, <- INR_IZR_INZ.
  rewrite jmod_small by lra.
  cbn [jadd]. rewrite (INR_IZR_INZ m), (INR_IZR_INZ n), <- plus_IZR.
  rewrite jmod_rem by exact Zn.
  rewrite <- (rem_fixup (Z.of_nat m + o) (Z.of_nat n) Zn).
  unfold jlt.
  destruct (Z_lt_dec (Z.rem (Z.of_nat m + o) (Z.of_nat n)) 0) as [L|L];
    destruct (Rlt_dec (IZR (Z.rem (Z.of_nat m + o) (Z.of_nat n))) 0)
      as [L'|L'].
  - cbn [jadd]. now rewrite plus_IZR.
  - exfalso. apply L'. apply (IZR_lt _ 0). exact L.
  - exfalso. apply L. apply lt_IZR. exact L'.
  - reflexivity.
Qed.

(** Which segment a wall impact reports.  On a drum whose surfaces were
    generated for [n] vanes, with a finite ball whose angle
    [atan2(y, x)], normalized to [[0, 2 pi)], lies in sector [m] (from
    [m * 2 pi / n] up to, but excluding, [(m + 1) * 2 pi / n]) and an
    integral [segmentIndexOffset] [o] of either sign, the block that
    handles an impact on the wall reports the drum segment
    [(m + o) mod n], the non-negative remainder: the index is always in
    range, the lookup always succeeds, and offsets that differ by a
    multiple of [n] report the same segment. *)
Theorem wall_impact_segment (s : DryerPhysics) (nx ny vn : jsnum)
    (x y theta : R) (n m : nat) (o : Z) :
  ball_x (ball s) = Fin x -> ball_y (ball s) = Fin y ->
  vaneCount s = ofNat n -> segmentIndexOffset s = Fin (IZR o) ->
  surfaces s = flat_map surfacesOf (seq 0 n) ->
  (if Rlt_dec (Ratan2 y x) 0 then Ratan2 y x + 2 * PI else Ratan2 y x)
  = theta ->
  (m < n)%nat ->
  INR m * (2 * PI / INR n) <= theta < (INR m + 1) * (2 * PI / INR n) ->
  let k := Z.to_nat ((Z.of_nat m + o) mod Z.of_nat n) in
  (k < n)%nat
  /\ wallImpact nx ny vn s
     = triggerCollision (drumSurface k) (jabs vn) (wallReflect nx ny vn s).
Proof.
  intros Hx Hy Hn Ho Hs Hth Hm Hsec k.
  pose proof (Z.mod_pos_bound (Z.of_nat m + o) (Z.of_nat n) ltac:(lia))
    as [L U].
  assert (Hk : (k < n)%nat) by (unfold k; lia).
  split; [exact Hk|].
  rewrite wallImpact_unfold. cbv zeta.
  rewrite Hx, Hy, Hn, Ho, Hs.
  rewrite (specSegmentIndex_offset y x theta n m o Hth Hm Hsec).
  replace (Fin (IZR ((Z.of_nat m + o) mod Z.of_nat n))) with (ofNat k).
  - rewrite find_drum; [reflexivity|]. apply in_seq. lia.
  - unfold ofNat, k. rewrite INR_IZR_INZ, Z2Nat.id by lia. reflexivity.
Qed.

Lemma wall_impact_segment_witness :
  (4 < 5)%nat
  /\ wallImpact (Fin (-1)) (Fin 0) (Fin (-1)) offsetState
     = triggerCollision (drumSurface 4) (jabs (Fin (-1)))
         (wallReflect (Fin (-1)) (Fin 0) (Fin (-1)) offsetState).
Proof.
  apply (wall_impact_segment offsetState (Fin (-1)) (Fin 0) (Fin (-1))
           0.78 0 0 5 0 (-1)); try reflexivity.
  - rewrite Ratan2_axis_pos by lra.
    destruct (Rlt_dec 0 0); [lra|reflexivity].
  - lia.
  - pose proof PI_RGT_0 as P.
    assert (Q : 0 < 2 * PI / INR 5).
    { apply Rdiv_lt_0_compat; [lra|]. apply lt_0_INR. lia. }
    change (INR 0) with 0. lra.
Defined.

End Sectors.

(* ================================================================== *)
(** ** Knobs *)
(* ================================================================== *)

Section Knobs.

Lemma jmin_Z (a b : Z) :
  jmin (Fin (IZR a)) (Fin (IZR b)) = Fin (IZR (Z.min a b)).
Proof.
  unfold jmin, jlt. destruct (Rlt_dec (IZR b) (IZR a)) as [L|L].
  - apply lt_IZR in L. now rewrite Z.min_r by lia.
  - apply Rnot_lt_le, le_IZR in L. now rewrite Z.min_l by lia.
Qed.

Lemma jmax_Z (a b : Z) :
  jmax (Fin (IZR a)) (Fin (IZR b)) = Fin (IZR (Z.max a b)).
Proof.
  unfold jmax, jlt. destruct (Rlt_dec (IZR a) (IZR b)) as [L|L].
  - apply lt_IZR in L. now rewrite Z.max_r by lia.
  - apply Rnot_lt_le, le_IZR in L. now rewrite Z.max_l by lia.
Qed.

Lemma jne_Z (a b : Z) :
  jne (Fin (IZR a)) (Fin (IZR b)) = negb (a =? b)%Z.
Proof.
  unfold jne, jeq. destruct (Req_dec_T (IZR a) (IZR b)) as [E|E].
  - apply eq_IZR in E. subst. now rewrite Z.eqb_refl.
  - destruct (Z.eqb_spec a b) as [->|N]; [now elim E|reflexivity].
Qed.

(** What a drag event computes on a valid knob. *)
Lemma updateDrag_spec (lo hi st v v0 : Z) (y0 y : R) (d : bool) :
  let knob :=
    DryerUI.mkKnob (Fin (IZR v)) (Fin (IZR lo)) (Fin (IZR hi))
      (Fin (IZR st)) d (Fin y0) (Fin (IZR v0)) in
  DryerUI.updateDrag (Fin y) knob
  = if d then
      let w := draggedValue lo hi st v0 y0 y in
      if (w =? v)%Z then (knob, false)
      else (DryerUI.mkKnob (Fin (IZR w)) (Fin (IZR lo)) (Fin (IZR hi))
              (Fin (IZR st)) d (Fin y0) (Fin (IZR v0)), true)
    else (knob, false).
Proof.
  cbv zeta. unfold DryerUI.updateDrag.
  cbn [DryerUI.isDragging DryerUI.startY DryerUI.startValue DryerUI.step
       DryerUI.min DryerUI.max DryerUI.value].
  destruct d; cbn [negb]; [|reflexivity].
  cbn [jsub]. rewrite jdiv_fin by lra.
  cbn [jround jmul jadd].
  rewrite <- mult_IZR, <- plus_IZR, jmin_Z, jmax_Z, jne_Z.
  fold (draggedValue lo hi st v0 y0 y).
  now destruct (draggedValue lo hi st v0 y0 y =? v)%Z.
Qed.

Lemma knobOk_open (lo hi : Z) (knob : DryerUI.Knob) :
  knobOk lo hi knob ->
  exists st v v0 y0 d,
    knob = DryerUI.mkKnob (Fin (IZR v)) (Fin (IZR lo)) (Fin (IZR hi))
             (Fin (IZR st)) d (Fin y0) (Fin (IZR v0))
    /\ (lo <= hi)%Z /\ (lo <= v <= hi)%Z.
Proof.
  intros (st & v & v0 & y0 & A & B & C & D & E & F & G & H).
  exists st, v, v0, y0, (DryerUI.isDragging knob).
  destruct knob. cbn in *. subst. auto.
Qed.

Lemma knobOk_make (lo hi st v v0 : Z) (y0 : R) (d : bool) :
  (lo <= hi)%Z -> (lo <= v <= hi)%Z ->
  knobOk lo hi
    (DryerUI.mkKnob (Fin (IZR v)) (Fin (IZR lo)) (Fin (IZR hi))
       (Fin (IZR st)) d (Fin y0) (Fin (IZR v0))).
Proof. intros H1 H2. exists st, v, v0, y0. cbn. auto 10. Qed.

(** Dragging a knob.  On a valid knob (integral bounds, step and value,
    finite pointer positions) a pointer move to [clientY] does nothing
    unless the knob is being dragged; otherwise the value becomes the
    value at the start of the drag plus one step per two pixels moved
    upwards, clamped to the range: it stays an integer within
    [[min, max]], and the change flag (rotation refreshed,
    [onParameterChange] called) is raised exactly when the value
    differs from the previous one. *)
Theorem knob_drag_in_range (lo hi : Z) (knob : DryerUI.Knob) (y : R) :
  knobOk lo hi knob ->
  let knob' := fst (DryerUI.updateDrag (Fin y) knob) in
  let changed := snd (DryerUI.updateDrag (Fin y) knob) in
  knobOk lo hi knob'
  /\ (DryerUI.isDragging knob = false -> knob' = knob /\ changed = false)
  /\ (changed = false -> knob' = knob)
  /\ (changed = true -> DryerUI.value knob' <> DryerUI.value knob)
  /\ (DryerUI.isDragging knob = true ->
      exists st v0 y0,
        DryerUI.step knob = Fin (IZR st)
        /\ DryerUI.startValue knob = Fin (IZR v0)
        /\ DryerUI.startY knob = Fin y0
        /\ DryerUI.value knob'
           = Fin (IZR (draggedValue lo hi st v0 y0 y))).
Proof.
  intros Hk. destruct (knobOk_open lo hi knob Hk)
    as (st & v & v0 & y0 & d & -> & Hlh & Hv).
  cbv zeta. rewrite updateDrag_spec.
  cbn [DryerUI.isDragging DryerUI.step DryerUI.startValue DryerUI.startY].
  destruct d; cbv zeta.
  - destruct (Z.eqb_spec (draggedValue lo hi st v0 y0 y) v) as [Q|Q];
      cbn [fst snd DryerUI.value].
    + split; [exact Hk|]. split; [discriminate|]. split; [reflexivity|].
      split; [discriminate|]. intros _. exists st, v0, y0.
      rewrite Q. auto.
    + split.
      { apply knobOk_make; [exact Hlh|]. unfold draggedValue. lia. }
      split; [discriminate|]. split; [discriminate|]. split.
      * intros _ F. injection F as F. apply eq_IZR in F. contradiction.
      * intros _. exists st, v0, y0. auto.
  - cbn [fst snd]. split; [exact Hk|]. split; [auto|].
    split; [reflexivity|]. split; discriminate.
Qed.

Lemma grabbedKnob_ok : knobOk 1 7 grabbedKnob.
Proof. apply (knobOk_make 1 7 1 4 4 100 true); lia. Qed.

Lemma knob_drag_in_range_witness :
  let knob' := fst (DryerUI.updateDrag (Fin 91) grabbedKnob) in
  let changed := snd (DryerUI.updateDrag (Fin 91) grabbedKnob) in
  knobOk 1 7 knob'
  /\ (DryerUI.isDragging grabbedKnob = false ->
      knob' = grabbedKnob /\ changed = false)
  /\ (changed = false -> knob' = grabbedKnob)
  /\ (changed = true -> DryerUI.value knob' <> DryerUI.value grabbedKnob)
  /\ (DryerUI.isDragging grabbedKnob = true ->
      exists st v0 y0,
        DryerUI.step grabbedKnob = Fin (IZR st)
        /\ DryerUI.startValue grabbedKnob = Fin (IZR v0)
        /\ DryerUI.startY grabbedKnob = Fin y0
        /\ DryerUI.value knob' = Fin (IZR (draggedValue 1 7 st v0 y0 91))).
Proof. exact (knob_drag_in_range 1 7 grabbedKnob 91 grabbedKnob_ok). Defined.

Lemma Int_part_half (v : Z) : Int_part (IZR v + 1 / 2) = v.
Proof. symmetry. apply Int_part_spec. lra. Qed.

(** The rotation of the indicator.  For a valid knob with [min < max]
    the rotation written by [updateKnobRotation] is
    [-135 + 270 * (value - min) / (max - min)] degrees: within
    [[-135, 135]], [-135] at the minimum and [135] at the maximum; the
    number displayed is the value.  A knob with [min = max] gets the
    rotation [NaN]. *)
Theorem knob_rotation_range (lo hi : Z) (knob : DryerUI.Knob) :
  knobOk lo hi knob ->
  ((lo < hi)%Z ->
   exists deg,
     DryerUI.updateKnobRotation knob = (Fin deg, DryerUI.value knob)
     /\ -135 <= deg <= 135
     /\ (DryerUI.value knob = DryerUI.min knob -> deg = -135)
     /\ (DryerUI.value knob = DryerUI.max knob -> deg = 135))
  /\ (lo = hi -> fst (DryerUI.updateKnobRotation knob) = NaN).
Proof.
  intros Hk. destruct (knobOk_open lo hi knob Hk)
    as (st & v & v0 & y0 & d & -> & Hlh & Hv).
  unfold DryerUI.updateKnobRotation. cbv zeta.
  cbn [DryerUI.value DryerUI.min DryerUI.max jsub jround fst].
  rewrite Int_part_half. split.
  - intros L. apply IZR_lt in L.
    rewrite jdiv_fin by lra. cbn [jmul jadd].
    eexists. split; [reflexivity|].
    destruct Hv as [V1 V2]. apply IZR_le in V1, V2.
    set (q := (IZR v - IZR lo) / (IZR hi - IZR lo)).
    assert (Q : 0 <= q <= 1).
    { apply div_unit_interval; lra. }
    split; [lra|]. split.
    + intros E. injection E as E.
      assert (Z0 : q = 0) by (unfold q; rewrite E; field; lra). lra.
    + intros E. injection E as E.
      assert (Z1 : q = 1) by (unfold q; rewrite E; field; lra). lra.
  - intros ->.
    assert (V : v = hi) by lia. subst v.
    replace (IZR hi - IZR hi) with 0 by ring.
    rewrite jdiv_zero_zero. reflexivity.
Qed.

Lemma knob_rotation_range_witness :
  exists deg,
    DryerUI.updateKnobRotation grabbedKnob
    = (Fin deg, DryerUI.value grabbedKnob)
    /\ -135 <= deg <= 135
    /\ (DryerUI.value grabbedKnob = DryerUI.min grabbedKnob -> deg = -135)
    /\ (DryerUI.value grabbedKnob = DryerUI.max grabbedKnob -> deg = 135).
Proof.
  apply (proj1 (knob_rotation_range 1 7 grabbedKnob grabbedKnob_ok)). lia.
Defined.

Lemma get_set (V : Type) (k k' : string) (v : V) (m : JSMap.t V) :
  JSMap.get k' (JSMap.set k v m)
  = if String.eqb k k' then Some v else JSMap.get k' m.
Proof.
  induction m as [|[k0 v0] m IH]; cbn [JSMap.set JSMap.get].
  - reflexivity.
  - destruct (String.eqb_spec k0 k) as [->|N]; cbn [JSMap.get].
    + destruct (String.eqb_spec k k'); reflexivity.
    + rewrite IH. destruct (String.eqb_spec k0 k') as [->|N'];
        [|reflexivity].
      destruct (String.eqb_spec k k') as [->|_]; [now elim N|reflexivity].
Qed.

Lemma knobIn_set (ui : DryerUI.DryerUI) (id id0 : string) (lo hi : Z)
    (knob knob' : DryerUI.Knob) :
  JSMap.get id (DryerUI.knobs ui) = Some knob ->
  (forall l h, knobOk l h knob -> knobOk l h knob') ->
  knobIn ui id0 lo hi ->
  knobIn (DryerUI.set_knobs (JSMap.set id knob' (DryerUI.knobs ui)) ui)
    id0 lo hi.
Proof.
  intros G P (k0 & G0 & K0). unfold knobIn.
  cbn [DryerUI.knobs DryerUI.set_knobs]. rewrite get_set.
  destruct (String.eqb_spec id id0) as [->|N].
  - exists knob'. split; [reflexivity|]. apply P.
    rewrite G in G0. injection G0 as ->. exact K0.
  - exists k0. auto.
Qed.

Lemma uiOk_set (ui : DryerUI.DryerUI) (id : string)
    (knob knob' : DryerUI.Knob) :
  JSMap.get id (DryerUI.knobs ui) = Some knob ->
  (forall l h, knobOk l h knob -> knobOk l h knob') ->
  uiOk ui ->
  uiOk (DryerUI.set_knobs (JSMap.set id knob' (DryerUI.knobs ui)) ui).
Proof.
  intros G P (A & B & C & D).
  repeat split; now apply knobIn_set with knob.
Qed.

Lemma startDrag_ok (lo hi : Z) (y : R) (knob : DryerUI.Knob) :
  knobOk lo hi knob -> knobOk lo hi (DryerUI.startDrag (Fin y) knob).
Proof.
  intros Hk. destruct (knobOk_open lo hi knob Hk)
    as (st & v & v0 & y0 & d & -> & Hlh & Hv).
  now apply knobOk_make.
Qed.

Lemma endDrag_ok (lo hi : Z) (knob : DryerUI.Knob) :
  knobOk lo hi knob -> knobOk lo hi (DryerUI.endDrag knob).
Proof.
  intros Hk. destruct (knobOk_open lo hi knob Hk)
    as (st & v & v0 & y0 & d & -> & Hlh & Hv).
  now apply knobOk_make.
Qed.

Lemma updateDrag_ok (lo hi : Z) (y : R) (knob : DryerUI.Knob) :
  knobOk lo hi knob ->
  knobOk lo hi (fst (DryerUI.updateDrag (Fin y) knob)).
Proof.
  intros Hk. destruct (knobOk_open lo hi knob Hk)
    as (st & v & v0 & y0 & d & -> & Hlh & Hv).
  rewrite updateDrag_spec. destruct d; cbv zeta; [|exact Hk].
  destruct (Z.eqb_spec (draggedValue lo hi st v0 y0 y) v); [exact Hk|].
  apply knobOk_make; [exact Hlh|]. unfold draggedValue. lia.
Qed.

Lemma constructor_uiOk : uiOk DryerUI.constructor.
Proof.
  repeat split; eexists; (split; [reflexivity|]).
  - apply (knobOk_make 0 35 1 18 18 0 false); lia.
  - apply (knobOk_make 40 80 1 60 60 0 false); lia.
  - apply (knobOk_make 1 7 1 4 4 0 false); lia.
  - apply (knobOk_make 10 50 1 30 30 0 false); lia.
Qed.

Lemma getParameters_ok (ui : DryerUI.DryerUI) :
  uiOk ui ->
  exists r d v h : Z,
    DryerUI.getParameters ui
    = Some (DryerUI.mkParameters (Fin (IZR r)) (Fin (IZR d))
              (Fin (IZR v)) (Fin (IZR h)))
    /\ (0 <= r <= 35)%Z /\ (40 <= d <= 80)%Z
    /\ (1 <= v <= 7)%Z /\ (10 <= h <= 50)%Z.
Proof.
  intros ((kr & Gr & Kr) & (kd & Gd & Kd) & (kv & Gv & Kv) & (kh & Gh & Kh)).
  unfold DryerUI.getParameters. rewrite Gr, Gd, Gv, Gh.
  destruct Kr as (_ & r & _ & _ & _ & _ & _ & _ & Er & Hr & _).
  destruct Kd as (_ & d & _ & _ & _ & _ & _ & _ & Ed & Hd & _).
  destruct Kv as (_ & v & _ & _ & _ & _ & _ & _ & Ev & Hv & _).
  destruct Kh as (_ & h & _ & _ & _ & _ & _ & _ & Eh & Hh & _).
  exists r, d, v, h. rewrite Er, Ed, Ev, Eh. auto.
Qed.

(** The panel stays valid.  If the four knobs are valid for the ranges
    of [knobConfigs] (rpm 0..35, drum size 40..80, vanes 1..7, vane
    height 10..50), as they are after construction, then they still are
    after [startKnobDrag], [updateKnobDrag] and [endKnobDrag] on any
    knob with any finite pointer position; and the parameters read by
    [getParameters] are integers within those ranges. *)
Theorem ui_knobs_stay_valid (ui : DryerUI.DryerUI) (id : string) (y : R) :
  uiOk ui ->
  (forall ui', DryerUI.startKnobDrag id (Fin y) ui = Some ui' -> uiOk ui')
  /\ (forall ui' changed,
        DryerUI.updateKnobDrag id (Fin y) ui = Some (ui', changed) ->
        uiOk ui')
  /\ (forall ui', DryerUI.endKnobDrag id ui = Some ui' -> uiOk ui')
  /\ exists r d v h : Z,
       DryerUI.getParameters ui
       = Some (DryerUI.mkParameters (Fin (IZR r)) (Fin (IZR d))
                 (Fin (IZR v)) (Fin (IZR h)))
       /\ (0 <= r <= 35)%Z /\ (40 <= d <= 80)%Z
       /\ (1 <= v <= 7)%Z /\ (10 <= h <= 50)%Z.
Proof.
  intros Hui. split; [|split; [|split]].
  - unfold DryerUI.startKnobDrag. intros ui'.
    destruct (JSMap.get id (DryerUI.knobs ui)) as [knob|] eqn:G;
      [|discriminate].
    intros [= <-]. apply uiOk_set with knob; [exact G| |exact Hui].
    intros l h. apply startDrag_ok.
  - unfold DryerUI.updateKnobDrag. intros ui' changed.
    destruct (JSMap.get id (DryerUI.knobs ui)) as [knob|] eqn:G;
      [|discriminate].
    pose proof (fun l h => updateDrag_ok l h y knob) as P.
    destruct (DryerUI.updateDrag (Fin y) knob) as [knob' c].
    intros [= <- _]. now apply uiOk_set with knob.
  - unfold DryerUI.endKnobDrag. intros ui'.
    destruct (JSMap.get id (DryerUI.knobs ui)) as [knob|] eqn:G;
      [|discriminate].
    intros [= <-]. apply uiOk_set with knob; [exact G| |exact Hui].
    intros l h. apply endDrag_ok.
  - now apply getParameters_ok.
Qed.

Lemma ui_knobs_stay_valid_witness :
  (forall ui',
     DryerUI.startKnobDrag "vanes" (Fin 100) DryerUI.constructor = Some ui' ->
     uiOk ui')
  /\ (forall ui' changed,
        DryerUI.updateKnobDrag "vanes" (Fin 100) DryerUI.constructor
        = Some (ui', changed) ->
        uiOk ui')
  /\ (forall ui',
        DryerUI.endKnobDrag "vanes" DryerUI.constructor = Some ui' ->
        uiOk ui')
  /\ exists r d v h : Z,
       DryerUI.getParameters DryerUI.constructor
       = Some (DryerUI.mkParameters (Fin (IZR r)) (Fin (IZR d))
                 (Fin (IZR v)) (Fin (IZR h)))
       /\ (0 <= r <= 35)%Z /\ (40 <= d <= 80)%Z
       /\ (1 <= v <= 7)%Z /\ (10 <= h <= 50)%Z.
Proof.
  exact (ui_knobs_stay_valid DryerUI.constructor "vanes" 100
           constructor_uiOk).
Defined.

End Knobs.

(* ================================================================== *)
(** ** Collision highlights *)
(* ================================================================== *)

Section Highlights.

Lemma delete_app (V : Type) (k : string) (v : V) (pre rest : JSMap.t V) :
  ~ In k (JSMap.keys pre) ->
  JSMap.delete k (pre ++ (k, v) :: rest)%list = (pre ++ rest)%list.
Proof.
  induction pre as [|[k0 v0] pre IH]; intros N; cbn [List.app JSMap.delete].
  - now rewrite String.eqb_refl.
  - destruct (String.eqb_spec k0 k) as [->|_].
    + exfalso. apply N. now left.
    + rewrite IH; [reflexivity|]. intros H. apply N. now right.
Qed.

Lemma set_app (V : Type) (k : string) (v w : V) (pre rest : JSMap.t V) :
  ~ In k (JSMap.keys pre) ->
  JSMap.set k w (pre ++ (k, v) :: rest)%list
  = (pre ++ (k, w) :: rest)%list.
Proof.
  induction pre as [|[k0 v0] pre IH]; intros N; cbn [List.app JSMap.set].
  - now rewrite String.eqb_refl.
  - destruct (String.eqb_spec k0 k) as [->|_].
    + exfalso. apply N. now left.
    + rewrite IH; [reflexivity|]. intros H. apply N. now right.
Qed.

(** The loop of [updateCollisionHighlights] from the middle of the map:
    the entries before the visited one are final. *)
Lemma decay_loop (pre todo : JSMap.t jsnum) :
  NoDup (JSMap.keys (pre ++ todo)%list) ->
  fold_left
    (fun m entry =>
       let '(id, value) := entry in
       let newValue := jsub value (Fin 0.05) in
       if jle newValue (Fin 0) then JSMap.delete id m
       else JSMap.set id newValue m)
    todo (pre ++ todo)%list
  = (pre ++ flat_map decayed todo)%list.
Proof.
  revert pre. induction todo as [|[id v] rest IH]; intros pre ND;
    cbn [fold_left flat_map].
  - reflexivity.
  - assert (Npre : ~ In id (JSMap.keys pre)).
    { unfold JSMap.keys in ND |- *. rewrite List.map_app in ND.
      cbn [List.map fst] in ND. apply NoDup_remove_2 in ND.
      intros H. apply ND. apply in_or_app. now left. }
    assert (NDrest : NoDup (JSMap.keys (pre ++ rest)%list)).
    { unfold JSMap.keys in ND |- *. rewrite List.map_app in ND |- *.
      cbn [List.map fst] in ND. now apply NoDup_remove_1 in ND. }
    cbv zeta. unfold decayed at 1. cbn [fst snd].
    destruct (jle (jsub v (Fin 0.05)) (Fin 0)).
    + rewrite delete_app by exact Npre. cbn [List.app]. now apply IH.
    + rewrite set_app by exact Npre.
      replace (pre ++ (id, jsub v (Fin 0.05)) :: rest)%list
        with ((pre ++ [(id, jsub v (Fin 0.05))]) ++ rest)%list
        by (rewrite <- app_assoc; reflexivity).
      rewrite IH.
      * rewrite <- app_assoc. reflexivity.
      * unfold JSMap.keys in ND |- *.
        rewrite <- app_assoc. cbn [List.app].
        rewrite List.map_app in ND |- *. exact ND.
Qed.

Lemma decayed_keys (l : JSMap.t jsnum) :
  NoDup (JSMap.keys l) -> NoDup (JSMap.keys (flat_map decayed l)).
Proof.
  unfold JSMap.keys.
  induction l as [|[id v] l IH]; intros ND; cbn [flat_map List.map fst].
  - constructor.
  - cbn [List.map fst] in ND. apply NoDup_cons_iff in ND.
    destruct ND as [N ND]. unfold decayed at 1. cbn [fst snd].
    destruct (jle (jsub v (Fin 0.05)) (Fin 0)); cbn [List.app List.map fst].
    + now apply IH.
    + constructor; [|now apply IH].
      intros H. apply N. clear - H.
      induction l as [|[id' v'] l IH]; cbn [flat_map List.map] in H |- *.
      * exact H.
      * rewrite List.map_app in H. apply in_app_or in H.
        destruct H as [H|H]; [|right; now apply IH].
        unfold decayed in H. cbn [fst snd] in H.
        destruct (jle (jsub v' (Fin 0.05)) (Fin 0)); [destruct H|].
        cbn [List.map fst In] in H. destruct H as [<-|[]]. now left.
Qed.

Lemma set_keys (V : Type) (k : string) (v : V) (m : JSMap.t V) :
  NoDup (JSMap.keys m) -> NoDup (JSMap.keys (JSMap.set k v m)).
Proof.
  unfold JSMap.keys. intros ND.
  assert (K : List.map fst (JSMap.set k v m) = List.map fst m
              \/ (~ In k (List.map fst m)
                  /\ List.map fst (JSMap.set k v m)
                     = (List.map fst m ++ [k])%list)).
  { clear ND. induction m as [|[k0 v0] m IH]; cbn [JSMap.set List.map fst].
    - right. split; [intros []|reflexivity].
    - destruct (String.eqb_spec k0 k) as [->|N]; cbn [List.map fst].
      + now left.
      + destruct IH as [E|[Nin E]].
        * left. now rewrite E.
        * right. split; [|now rewrite E].
          intros [H|H]; [now apply N|now apply Nin]. }
  destruct K as [->|[Nin ->]]; [exact ND|].
  apply NoDup_app; [exact ND|repeat constructor; intros []|].
  intros x Hx [<-|[]]. now apply Nin.
Qed.

(** Highlights.  On a map without duplicate keys (which
    [highlightCollision] and [updateCollisionHighlights] keep so),
    [highlightCollision(id)] makes the highlight of [id] 1, and one
    rendered frame replaces every highlight [v] by [v - 0.05] and drops
    it if that is not positive, in place and in order: the in-place
    deletion and overwriting during the iteration neither skips nor
    repeats an entry.  What remains is positive. *)
Theorem highlights_decay (ui : DryerUI.DryerUI) (id : string) :
  NoDup (JSMap.keys (DryerUI.activeCollisions ui)) ->
  DryerUI.activeCollisions (DryerUI.updateCollisionHighlights ui)
  = flat_map decayed (DryerUI.activeCollisions ui)
  /\ NoDup (JSMap.keys
              (DryerUI.activeCollisions
                 (DryerUI.updateCollisionHighlights ui)))
  /\ (forall k v,
        JSMap.get k
          (DryerUI.activeCollisions (DryerUI.updateCollisionHighlights ui))
        = Some (Fin v) -> 0 < v)
  /\ JSMap.get id
       (DryerUI.activeCollisions (DryerUI.highlightCollision id ui))
     = Some (Fin 1.0)
  /\ NoDup (JSMap.keys
              (DryerUI.activeCollisions (DryerUI.highlightCollision id ui))).
Proof.
  intros ND.
  assert (E : DryerUI.activeCollisions (DryerUI.updateCollisionHighlights ui)
              = flat_map decayed (DryerUI.activeCollisions ui)).
  { unfold DryerUI.updateCollisionHighlights.
    cbn [DryerUI.activeCollisions DryerUI.set_activeCollisions].
    exact (decay_loop [] (DryerUI.activeCollisions ui) ND). }
  split; [exact E|]. rewrite E. split; [now apply decayed_keys|].
  split; [|split].
  - clear. induction (DryerUI.activeCollisions ui) as [|[k0 v0] l IH];
      intros k v; cbn [flat_map JSMap.get]; [discriminate|].
    unfold decayed at 1. cbn [fst snd].
    destruct (jle (jsub v0 (Fin 0.05)) (Fin 0)) eqn:L; cbn [List.app];
      [apply IH|].
    cbn [JSMap.get]. destruct (String.eqb k0 k); [|apply IH].
    intros [= Q]. rewrite Q in L. apply jle_fin_false in L. exact L.
  - unfold DryerUI.highlightCollision.
    cbn [DryerUI.activeCollisions DryerUI.set_activeCollisions].
    rewrite get_set. now rewrite String.eqb_refl.
  - unfold DryerUI.highlightCollision.
    cbn [DryerUI.activeCollisions DryerUI.set_activeCollisions].
    now apply set_keys.
Qed.

Lemma highlights_decay_witness :
  DryerUI.activeCollisions (DryerUI.updateCollisionHighlights litPanel)
  = flat_map decayed (DryerUI.activeCollisions litPanel)
  /\ NoDup (JSMap.keys
              (DryerUI.activeCollisions
                 (DryerUI.updateCollisionHighlights litPanel)))
  /\ (forall k v,
        JSMap.get k
          (DryerUI.activeCollisions
             (DryerUI.updateCollisionHighlights litPanel))
        = Some (Fin v) -> 0 < v)
  /\ JSMap.get "drum_2"
       (DryerUI.activeCollisions
          (DryerUI.highlightCollision "drum_2" litPanel))
     = Some (Fin 1.0)
  /\ NoDup (JSMap.keys
              (DryerUI.activeCollisions
                 (DryerUI.highlightCollision "drum_2" litPanel))).
Proof.
  apply (highlights_decay litPanel "drum_2").
  repeat constructor; cbn [In]; intuition discriminate.
Defined.

End Highlights.

(* ================================================================== *)
(** ** Notes and MIDI messages *)
(* ================================================================== *)

Section Notes.

Lemma assignFrom_baseNote (l : list Surface) (i : nat)
    (a : DryerAudio.DryerAudio) :
  DryerAudio.baseNote (DryerAudio.assignFrom i l a) = DryerAudio.baseNote a
  /\ DryerAudio.sent (DryerAudio.assignFrom i l a) = DryerAudio.sent a
  /\ DryerAudio.played (DryerAudio.assignFrom i l a) = DryerAudio.played a.
Proof.
  revert i a. induction l as [|sf l IH]; intros i a;
    cbn [DryerAudio.assignFrom]; [auto|].
  cbv zeta. destruct (IH (S i)
    (DryerAudio.set_surfaceToNote
       (JSMap.set (surf_id sf)
          (jadd (DryerAudio.baseNote a) (ofNat i))
          (DryerAudio.surfaceToNote a)) a)) as (B & S & P).
  rewrite B, S, P. auto.
Qed.

Lemma assignFrom_miss (l : list Surface) (i : nat)
    (a : DryerAudio.DryerAudio) (id : string) :
  ~ In id (List.map surf_id l) ->
  JSMap.get id (DryerAudio.surfaceToNote (DryerAudio.assignFrom i l a))
  = JSMap.get id (DryerAudio.surfaceToNote a).
Proof.
  revert i a. induction l as [|sf l IH]; intros i a N;
    cbn [DryerAudio.assignFrom]; [reflexivity|].
  cbv zeta. rewrite IH by (intros H; apply N; now right).
  cbn [DryerAudio.surfaceToNote DryerAudio.set_surfaceToNote].
  rewrite get_set. destruct (String.eqb_spec (surf_id sf) id) as [E|_];
    [|reflexivity].
  exfalso. apply N. now left.
Qed.

Lemma assignFrom_get (l : list Surface) (i k : nat)
    (a : DryerAudio.DryerAudio) (sf : Surface) :
  NoDup (List.map surf_id l) -> nth_error l k = Some sf ->
  JSMap.get (surf_id sf)
    (DryerAudio.surfaceToNote (DryerAudio.assignFrom i l a))
  = Some (jadd (DryerAudio.baseNote a) (ofNat (i + k))).
Proof.
  revert i k a. induction l as [|s0 l IH]; intros i k a ND Hk.
  - destruct k; discriminate.
  - cbn [List.map] in ND. apply NoDup_cons_iff in ND. destruct ND as [N ND].
    cbn [DryerAudio.assignFrom]. cbv zeta. destruct k as [|k].
    + cbn [nth_error] in Hk. injection Hk as ->.
      rewrite assignFrom_miss by exact N.
      cbn [DryerAudio.surfaceToNote DryerAudio.set_surfaceToNote].
      rewrite get_set, String.eqb_refl, Nat.add_0_r. reflexivity.
    + cbn [nth_error] in Hk. rewrite (IH (S i) k _ ND Hk).
      replace (S i + k)%nat with (i + S k)%nat by lia. reflexivity.
Qed.

Lemma assignFrom_keys (l : list Surface) (i : nat)
    (a : DryerAudio.DryerAudio) :
  NoDup (JSMap.keys (DryerAudio.surfaceToNote a) ++ List.map surf_id l) ->
  JSMap.keys (DryerAudio.surfaceToNote (DryerAudio.assignFrom i l a))
  = (JSMap.keys (DryerAudio.surfaceToNote a) ++ List.map surf_id l)%list.
Proof.
  revert i a. induction l as [|sf l IH]; intros i a ND;
    cbn [DryerAudio.assignFrom List.map].
  - now rewrite app_nil_r.
  - cbv zeta.
    assert (K : JSMap.keys
                  (JSMap.set (surf_id sf)
                     (jadd (DryerAudio.baseNote a) (ofNat i))
                     (DryerAudio.surfaceToNote a))
                = (JSMap.keys (DryerAudio.surfaceToNote a)
                   ++ [surf_id sf])%list).
    { cbn [List.map] in ND. apply NoDup_remove_2 in ND.
      assert (N : ~ In (surf_id sf)
                    (JSMap.keys (DryerAudio.surfaceToNote a))).
      { intros H. apply ND. apply in_or_app. now left. }
      clear - N. unfold JSMap.keys in *.
      induction (DryerAudio.surfaceToNote a) as [|[k0 v0] m IH];
        cbn [JSMap.set List.map fst List.app]; [reflexivity|].
      destruct (String.eqb_spec k0 (surf_id sf)) as [E|_].
      - exfalso. apply N. now left.
      - cbn [List.map fst]. rewrite IH; [reflexivity|].
        intros H. apply N. now right. }
    rewrite IH; cbn [DryerAudio.surfaceToNote DryerAudio.set_surfaceToNote];
      rewrite K, <- app_assoc; [reflexivity|exact ND].
Qed.

Lemma noteOf_assigned (a : DryerAudio.DryerAudio) (l : list Surface)
    (b : R) (k : nat) (sf : Surface) :
  DryerAudio.baseNote a = Fin b -> 0 < b ->
  NoDup (List.map surf_id l) -> nth_error l k = Some sf ->
  DryerAudio.noteOf sf (DryerAudio.assignNotesToSurfaces l a)
  = Fin (b + INR k).
Proof.
  intros Hb Pb ND Hk.
  set (a0 := DryerAudio.set_surfaceToNote [] a).
  destruct (assignFrom_baseNote l 0 a0) as (B & _ & _).
  unfold DryerAudio.noteOf, DryerAudio.assignNotesToSurfaces. fold a0.
  rewrite (assignFrom_get l 0 k a0 sf ND Hk), B.
  change (DryerAudio.baseNote a0) with (DryerAudio.baseNote a).
  rewrite Hb. unfold ofNat. cbn [jadd Nat.add].
  unfold jor. rewrite truthy_fin; [reflexivity|].
  pose proof (pos_INR k). lra.
Qed.

(** Notes follow the order of the surfaces.  After
    [assignNotesToSurfaces(surfaces)] on surfaces with pairwise distinct
    ids and a positive base note [b], a collision with the [k]-th surface
    plays the note [b + k], a collision with a surface whose id is not in
    the list plays the base note, the map holds exactly the ids of the
    list, in order, and whatever it held before is gone. *)
Theorem notes_follow_surface_order (a : DryerAudio.DryerAudio)
    (l : list Surface) (b : R) :
  DryerAudio.baseNote a = Fin b -> 0 < b ->
  NoDup (List.map surf_id l) ->
  let a' := DryerAudio.assignNotesToSurfaces l a in
  (forall k sf, nth_error l k = Some sf ->
                DryerAudio.noteOf sf a' = Fin (b + INR k))
  /\ (forall sf, ~ In (surf_id sf) (List.map surf_id l) ->
                 DryerAudio.noteOf sf a' = Fin b)
  /\ JSMap.keys (DryerAudio.surfaceToNote a') = List.map surf_id l
  /\ DryerAudio.sent a' = DryerAudio.sent a
  /\ DryerAudio.played a' = DryerAudio.played a.
Proof.
  intros Hb Pb ND a'.
  set (a0 := DryerAudio.set_surfaceToNote [] a).
  destruct (assignFrom_baseNote l 0 a0) as (B & S & P).
  assert (Ba' : DryerAudio.baseNote a' = Fin b).
  { unfold a', DryerAudio.assignNotesToSurfaces. fold a0. now rewrite B. }
  split; [|split; [|split; [|split]]].
  - intros k sf Hk. now apply noteOf_assigned.
  - intros sf N. unfold DryerAudio.noteOf, a'.
    unfold DryerAudio.assignNotesToSurfaces. fold a0.
    rewrite (assignFrom_miss l 0 a0 _ N). cbn [JSMap.get].
    rewrite B. exact Hb.
  - unfold a', DryerAudio.assignNotesToSurfaces. fold a0.
    now rewrite assignFrom_keys.
  - unfold a', DryerAudio.assignNotesToSurfaces. fold a0. now rewrite S.
  - unfold a', DryerAudio.assignNotesToSurfaces. fold a0. now rewrite P.
Qed.

Lemma notes_follow_surface_order_witness :
  let l := flat_map surfacesOf (seq 0 2) in
  let a' := DryerAudio.assignNotesToSurfaces l DryerAudio.constructor in
  (forall k sf, nth_error l k = Some sf ->
                DryerAudio.noteOf sf a' = Fin (36 + INR k))
  /\ (forall sf, ~ In (surf_id sf) (List.map surf_id l) ->
                 DryerAudio.noteOf sf a' = Fin 36)
  /\ JSMap.keys (DryerAudio.surfaceToNote a') = List.map surf_id l
  /\ DryerAudio.sent a' = DryerAudio.sent DryerAudio.constructor
  /\ DryerAudio.played a' = DryerAudio.played DryerAudio.constructor.
Proof.
  apply (notes_follow_surface_order DryerAudio.constructor
           (flat_map surfacesOf (seq 0 2)) 36).
  - reflexivity.
  - lra.
  - apply ids_NoDup.
Defined.

Lemma Int_part_ge (z : Z) (r : R) : IZR z <= r -> (z <= Int_part r)%Z.
Proof.
  intros H. destruct (base_Int_part r) as [_ U].
  assert (L : IZR z < IZR (Int_part r + 1)) by (rewrite plus_IZR; lra).
  apply lt_IZR in L. lia.
Qed.

Lemma Int_part_lt (z : Z) (r : R) : r < IZR z -> (Int_part r < z)%Z.
Proof.
  intros H. destruct (base_Int_part r) as [L _].
  apply lt_IZR. lra.
Qed.

(** The MIDI velocity of a finite speed [v >= 0] is an integer between
    0 and 127: [min(127, floor(300 v))] or, when the product is rounded
    up to the next integer, one more. *)
Lemma velocityMIDI_spec (v : R) :
  0 <= v ->
  exists k : Z,
    DryerAudio.velocityMIDI (Fin v) = Fin (IZR k)
    /\ (0 <= k <= 127)%Z
    /\ (Z.min 127 (Int_part (v * 300)) <= k
        <= Z.min 127 (Int_part (v * 300) + 1))%Z
    /\ (v <= 1 / 600 -> k = 0%Z).
Proof.
  intros Pv. unfold DryerAudio.velocityMIDI. cbn [jmul binary64].
  set (x := v * 300). set (y := round64 x).
  assert (Px : 0 <= x) by (unfold x; lra).
  assert (Py : 0 <= y) by (apply (round64_ge_int x 0); [exact Px|lia|exact Px]).
  destruct (base_Int_part x) as [ML MU].
  set (m := Int_part x) in *.
  assert (Pm : (0 <= m)%Z) by (apply Int_part_ge; exact Px).
  assert (Big : (127 <= m)%Z -> 127 <= y).
  { intros H. apply (round64_ge_int x 127); [exact Px|lia|].
    apply IZR_le in H. lra. }
  assert (Small : (m <= 126)%Z -> IZR m <= y <= IZR (m + 1)).
  { intros H. split.
    - apply (round64_ge_int x m); [exact Px|lia|exact ML].
    - apply (round64_le_int x (m + 1)); [exact Px|lia|].
      rewrite plus_IZR. lra. }
  assert (Half : v <= 1 / 600 -> y <= 1 / 2).
  { intros H. apply round64_le_half. unfold x. lra. }
  pose proof pow2_1024 as P1024.
  destruct (Rle_dec (powerRZ 2 1024) (Rabs y)) as [O|NO].
  - rewrite Rabs_pos_eq in O by exact Py.
    assert (R0 : Rneg y = false).
    { unfold Rneg. destruct (Rlt_dec y 0); [lra|reflexivity]. }
    rewrite R0. cbn [jfloor jmin jlt].
    assert (M127 : (127 <= m)%Z).
    { destruct (Z_le_gt_dec 127 m) as [L|G]; [exact L|].
      destruct (Small ltac:(lia)) as [_ U].
      assert (IZR (m + 1) <= 127) by (apply IZR_le; lia).
      lra. }
    exists 127%Z. split; [reflexivity|]. split; [lia|]. split; [lia|].
    intros H. specialize (Half H). lra.
  - cbn [jfloor]. change 127 with (IZR 127). rewrite jmin_Z.
    exists (Z.min 127 (Int_part y)). split; [reflexivity|].
    assert (Fy : (0 <= Int_part y)%Z) by (apply Int_part_ge; exact Py).
    split; [lia|]. split.
    + destruct (Z_le_gt_dec 127 m) as [L|G].
      * assert (127 <= Int_part y)%Z by (apply Int_part_ge, Big, L). lia.
      * destruct (Small ltac:(lia)) as [A B].
        assert (m <= Int_part y)%Z by (apply Int_part_ge; exact A).
        assert (Int_part y < m + 2)%Z.
        { apply Int_part_lt. rewrite plus_IZR in *. lra. }
        lia.
    + intros H. specialize (Half H).
      assert (Int_part y < 1)%Z by (apply Int_part_lt; lra). lia.
Qed.

(** What a collision sends.  On an initialized engine with a MIDI output
    selected and an audio context, a collision of finite speed
    [v >= 0] sends a note-on [[0x90, note, k]] at once and a note-off
    [[0x80, note, 0]] stamped 100 ms later, and plays the same note, where
    [k] is an integer between 0 and 127: [min(127, floor(300 v))] or one
    more (the product is rounded before the floor is taken), 0 up to
    1/600 m/s, 127 from 127/300 m/s on, and at least 45 for an impact
    that passes the lint trap threshold of 0.15 m/s.  On an engine that
    is not initialized nothing happens. *)
Theorem collision_sends_note (a : DryerAudio.DryerAudio) (sf : Surface)
    (port : string) (v now : R) :
  DryerAudio.midiEnabled a = true -> DryerAudio.midiOutput a = Some port ->
  DryerAudio.audioContext a = true -> 0 <= v ->
  let note := DryerAudio.noteOf sf a in
  exists k : Z,
    DryerAudio.velocityMIDI (Fin v) = Fin (IZR k)
    /\ (0 <= k <= 127)%Z
    /\ (Z.min 127 (Int_part (v * 300)) <= k
        <= Z.min 127 (Int_part (v * 300) + 1))%Z
    /\ (v <= 1 / 600 -> k = 0%Z) /\ (127 / 300 <= v -> k = 127%Z)
    /\ (0.15 <= v -> (45 <= k)%Z)
    /\ (DryerAudio.isInitialized a = true ->
        DryerAudio.sent (DryerAudio.onCollision sf (Fin v) (Fin now) a)
        = (DryerAudio.sent a
           ++ [DryerAudio.mkMidiMessage
                 [Fin (144 + 0); note; Fin (IZR k)] None;
               DryerAudio.mkMidiMessage
                 [Fin (128 + 0); note; Fin 0]
                 (Some (Fin (now + 100)))])%list
        /\ DryerAudio.played (DryerAudio.onCollision sf (Fin v) (Fin now) a)
           = (DryerAudio.played a
              ++ [DryerAudio.mkPlayedNote note (Fin (IZR k))
                    (surf_color sf)])%list)
    /\ (DryerAudio.isInitialized a = false ->
        DryerAudio.onCollision sf (Fin v) (Fin now) a = a).
Proof.
  intros He Ho Hc Pv note.
  destruct (velocityMIDI_spec v Pv) as (k & Ek & R127 & Rk & K0).
  exists k. split; [exact Ek|]. split; [exact R127|]. split; [exact Rk|].
  split; [exact K0|]. split; [|split; [|split]].
  - intros H. assert (127 <= Int_part (v * 300))%Z
      by (apply Int_part_ge; lra).
    lia.
  - intros H. assert (45 <= Int_part (v * 300))%Z
      by (apply Int_part_ge; lra).
    lia.
  - intros Hi. unfold DryerAudio.onCollision. rewrite Hi. cbn [negb].
    cbv zeta. rewrite He, Ho. cbn [andb]. rewrite Ek. fold note.
    unfold DryerAudio.playWebAudioNote, DryerAudio.sendMIDINote.
    rewrite Ho. cbv zeta.
    cbn [DryerAudio.audioContext DryerAudio.set_sent DryerAudio.sent
         DryerAudio.played DryerAudio.set_played].
    rewrite Hc. cbn [negb DryerAudio.sent DryerAudio.played
                     DryerAudio.set_played DryerAudio.set_sent jadd].
    split; reflexivity.
  - intros Hi. unfold DryerAudio.onCollision. now rewrite Hi.
Qed.

(** A collision at 0.25 m/s on drum segment 1. *)
Lemma collision_sends_note_witness :
  let note := DryerAudio.noteOf (drumSurface 1) liveAudio in
  exists k : Z,
    DryerAudio.velocityMIDI (Fin 0.25) = Fin (IZR k)
    /\ (0 <= k <= 127)%Z
    /\ (Z.min 127 (Int_part (0.25 * 300)) <= k
        <= Z.min 127 (Int_part (0.25 * 300) + 1))%Z
    /\ (0.25 <= 1 / 600 -> k = 0%Z) /\ (127 / 300 <= 0.25 -> k = 127%Z)
    /\ (0.15 <= 0.25 -> (45 <= k)%Z)
    /\ (DryerAudio.isInitialized liveAudio = true ->
        DryerAudio.sent
          (DryerAudio.onCollision (drumSurface 1) (Fin 0.25) (Fin 5000)
             liveAudio)
        = (DryerAudio.sent liveAudio
           ++ [DryerAudio.mkMidiMessage
                 [Fin (144 + 0); note; Fin (IZR k)] None;
               DryerAudio.mkMidiMessage
                 [Fin (128 + 0); note; Fin 0]
                 (Some (Fin (5000 + 100)))])%list
        /\ DryerAudio.played
             (DryerAudio.onCollision (drumSurface 1) (Fin 0.25) (Fin 5000)
                liveAudio)
           = (DryerAudio.played liveAudio
              ++ [DryerAudio.mkPlayedNote note (Fin (IZR k))
                    (surf_color (drumSurface 1))])%list)
    /\ (DryerAudio.isInitialized liveAudio = false ->
        DryerAudio.onCollision (drumSurface 1) (Fin 0.25) (Fin 5000)
          liveAudio
        = liveAudio).
Proof.
  apply (collision_sends_note liveAudio (drumSurface 1)
           "IAC Driver Bus 1" 0.25 5000); try reflexivity. lra.
Defined.



End Notes.

(* ================================================================== *)
(** ** The controller *)
(* ================================================================== *)

Section Controller.

Lemma INR_to_nat (v : Z) : (0 <= v)%Z -> INR (Z.to_nat v) = IZR v.
Proof. intros H. now rewrite INR_IZR_INZ, Z2Nat.id. Qed.

(** The panel configures a valid engine.  Whenever the four knobs are
    valid for their ranges, the parameter callback succeeds and leaves
    the engine with a natural vane count between 1 and 7, three surfaces
    per vane, a drum radius between 0.4 and 0.8 m, a vane height between
    10 % and 50 %, a non-negative finite angular velocity of
    [rpm * 2 pi / 60], and a note for every surface: the [k]-th surface
    plays [36 + k], at most 56.  The panel itself is not written. *)
Theorem panel_configures_engine (app : DryerApp.DryerApp) :
  uiOk (DryerApp.ui app) ->
  DryerAudio.baseNote (DryerApp.audio app) = Fin 36 ->
  exists app' (n : nat) (rpm Rd h : R),
    DryerApp.onParameterChange app = Some app'
    /\ (1 <= n <= 7)%nat
    /\ vaneCount (DryerApp.physics app') = ofNat n
    /\ surfaces (DryerApp.physics app') = flat_map surfacesOf (seq 0 n)
    /\ List.length (surfaces (DryerApp.physics app')) = (3 * n)%nat
    /\ drumRadius (DryerApp.physics app') = Fin Rd /\ 0.4 <= Rd <= 0.8
    /\ vaneHeight (DryerApp.physics app') = Fin h /\ 0.1 <= h <= 0.5
    /\ drumAngularVelocity (DryerApp.physics app')
       = Fin (rpm * 2 * PI / 60)
    /\ 0 <= rpm <= 35
    /\ (forall k sf,
          nth_error (surfaces (DryerApp.physics app')) k = Some sf ->
          DryerAudio.noteOf sf (DryerApp.audio app') = Fin (36 + INR k)
          /\ 36 + INR k <= 56)
    /\ DryerApp.ui app' = DryerApp.ui app.
Proof.
  intros Hui Hb.
  destruct (getParameters_ok _ Hui)
    as (r & d & v & h & G & Hr & Hd & Hv & Hh).
  unfold DryerApp.onParameterChange. rewrite G.
  cbn [DryerUI.rpm DryerUI.drumSize DryerUI.vanes DryerUI.vaneHeight].
  rewrite (setParameters_run _ _ _ _ _ (Z.to_nat v))
    by (rewrite jfloor_IZR; apply tripCount_IZR).
  set (n := Z.to_nat v).
  assert (En : INR n = IZR v) by (apply INR_to_nat; lia).
  eexists _, n, (IZR r), (IZR d / 100), (IZR h / 100).
  split; [reflexivity|].
  cbn [DryerApp.physics DryerApp.audio DryerApp.ui vaneCount surfaces
       drumRadius vaneHeight drumAngularVelocity set_surfaces
       set_drumAngularVelocity set_vaneHeight set_vaneCount set_drumRadius
       set_rpm].
  destruct Hr as [Hr0 Hr2]. apply IZR_le in Hr0, Hr2.
  destruct Hd as [Hd0 Hd2]. apply IZR_le in Hd0, Hd2.
  destruct Hh as [Hh0 Hh2]. apply IZR_le in Hh0, Hh2.
  split; [unfold n; lia|].
  split; [rewrite jfloor_IZR; unfold ofNat; now rewrite En|].
  split; [reflexivity|].
  split; [now rewrite surfacesOf_length, List.length_seq|].
  split; [now rewrite jdiv_fin by lra|]. split; [lra|].
  split; [now rewrite jdiv_fin by lra|]. split; [lra|].
  split; [cbn [jmul jPI]; now rewrite jdiv_fin by lra|].
  split; [lra|]. split; [|reflexivity].
  intros k sf Hk. split.
  - apply (noteOf_assigned _ _ 36 k sf Hb); [lra|apply ids_NoDup|exact Hk].
  - assert (L : (k < 3 * n)%nat).
    { rewrite <- (List.length_seq n 0), <- surfacesOf_length.
      apply nth_error_Some. now rewrite Hk. }
    assert (L' : (k <= 20)%nat) by (unfold n in L; lia).
    apply le_INR in L'.
    replace (INR 20) with 20 in L' by (cbn; ring). lra.
Qed.

Lemma panel_configures_engine_witness :
  exists app' (n : nat) (rpm Rd h : R),
    DryerApp.onParameterChange freshApp = Some app'
    /\ (1 <= n <= 7)%nat
    /\ vaneCount (DryerApp.physics app') = ofNat n
    /\ surfaces (DryerApp.physics app') = flat_map surfacesOf (seq 0 n)
    /\ List.length (surfaces (DryerApp.physics app')) = (3 * n)%nat
    /\ drumRadius (DryerApp.physics app') = Fin Rd /\ 0.4 <= Rd <= 0.8
    /\ vaneHeight (DryerApp.physics app') = Fin h /\ 0.1 <= h <= 0.5
    /\ drumAngularVelocity (DryerApp.physics app')
       = Fin (rpm * 2 * PI / 60)
    /\ 0 <= rpm <= 35
    /\ (forall k sf,
          nth_error (surfaces (DryerApp.physics app')) k = Some sf ->
          DryerAudio.noteOf sf (DryerApp.audio app') = Fin (36 + INR k)
          /\ 36 + INR k <= 56)
    /\ DryerApp.ui app' = DryerApp.ui freshApp.
Proof.
  apply (panel_configures_engine freshApp).
  - exact constructor_uiOk.
  - reflexivity.
Defined.





Lemma nth_error_surfaces (s n i j : nat) :
  (i < n)%nat -> (j < 3)%nat ->
  nth_error (flat_map surfacesOf (seq s n)) (3 * i + j)
  = nth_error (surfacesOf (s + i)) j.
Proof.
  revert s i. induction n as [|n IH]; intros s i Hi Hj; [lia|].
  cbn [seq flat_map]. destruct i as [|i].
  - rewrite nth_error_app1 by (cbn; lia).
    now rewrite Nat.add_0_r, Nat.mul_0_r.
  - rewrite nth_error_app2 by (cbn; lia).
    replace (3 * S i + j - List.length (surfacesOf s))%nat
      with (3 * i + j)%nat by (cbn; lia).
    rewrite IH by lia. f_equal. f_equal. lia.
Qed.

(** Which note a surface plays.  After the parameter callback on a valid
    panel, the listener that the controller registers with the engine
    maps the [j]-th surface of vane index [i] (drum segment, leading
    face, trailing face) to the note [36 + 3 i + j]: reporting a collision
    with it highlights that surface with 1, plays that note when the
    audio engine is initialized, and leaves the physics engine alone. *)
Theorem collision_plays_and_highlights (app0 app : DryerApp.DryerApp)
    (n i j : nat) (sf : Surface) (v now : R) :
  uiOk (DryerApp.ui app0) ->
  DryerAudio.baseNote (DryerApp.audio app0) = Fin 36 ->
  DryerApp.onParameterChange app0 = Some app ->
  vaneCount (DryerApp.physics app) = ofNat n -> (i < n)%nat ->
  nth_error (surfacesOf i) j = Some sf ->
  let app2 := DryerApp.collisionListener sf (Fin v) (Fin now) app in
  let note := Fin (36 + INR (3 * i + j)) in
  In sf (surfaces (DryerApp.physics app))
  /\ DryerAudio.noteOf sf (DryerApp.audio app) = note
  /\ JSMap.get (surf_id sf) (DryerUI.activeCollisions (DryerApp.ui app2))
     = Some (Fin 1.0)
  /\ DryerApp.physics app2 = DryerApp.physics app
  /\ (DryerAudio.isInitialized (DryerApp.audio app) = true ->
      DryerAudio.audioContext (DryerApp.audio app) = true ->
      DryerAudio.played (DryerApp.audio app2)
      = (DryerAudio.played (DryerApp.audio app)
         ++ [DryerAudio.mkPlayedNote note (DryerAudio.velocityMIDI (Fin v))
               (surf_color sf)])%list).
Proof.
  intros Hui Hb E Hn Hi Hj app2 note.
  destruct (getParameters_ok _ Hui)
    as (r & d & vz & h & G & Hr & Hd & Hv & Hh).
  unfold DryerApp.onParameterChange in E. rewrite G in E.
  cbn [DryerUI.rpm DryerUI.drumSize DryerUI.vanes DryerUI.vaneHeight] in E.
  rewrite (setParameters_run _ _ _ _ _ (Z.to_nat vz)) in E
    by (rewrite jfloor_IZR; apply tripCount_IZR).
  injection E as <-.
  cbn [DryerApp.physics DryerApp.audio vaneCount surfaces set_surfaces
       set_drumAngularVelocity set_vaneHeight set_vaneCount] in Hn |- *.
  assert (En : n = Z.to_nat vz).
  { rewrite ?jfloor_IZR, ?Int_part_IZR in Hn. unfold ofNat in Hn.
    injection Hn as Hn.
    rewrite <- (INR_to_nat vz) in Hn by lia. symmetry. now apply INR_eq. }
  subst n.
  assert (J : (j < 3)%nat).
  { assert (Q : (j < List.length (surfacesOf i))%nat)
      by (apply nth_error_Some; now rewrite Hj).
    exact Q. }
  assert (K : nth_error (flat_map surfacesOf (seq 0 (Z.to_nat vz)))
                (3 * i + j) = Some sf)
    by (rewrite nth_error_surfaces by assumption; exact Hj).
  assert (N : DryerAudio.noteOf sf
                (DryerAudio.assignNotesToSurfaces
                   (flat_map surfacesOf (seq 0 (Z.to_nat vz)))
                   (DryerApp.audio app0)) = note).
  { apply (noteOf_assigned _ _ 36 _ sf Hb); [lra|apply ids_NoDup|exact K]. }
  split; [now apply nth_error_In with (3 * i + j)%nat|].
  split; [exact N|]. split; [|split; [reflexivity|]].
  - unfold app2, DryerApp.collisionListener, DryerUI.highlightCollision.
    cbn [DryerApp.ui DryerUI.activeCollisions DryerUI.set_activeCollisions].
    rewrite get_set. now rewrite String.eqb_refl.
  - intros Hi' Hc. unfold app2, DryerApp.collisionListener.
    cbn [DryerApp.audio]. unfold DryerAudio.onCollision.
    rewrite Hi'. cbn [negb]. cbv zeta. rewrite N.
    match goal with
    | |- context [DryerAudio.playWebAudioNote _ _ _ ?m] => set (a1 := m)
    end.
    assert (C1 : DryerAudio.audioContext a1 = true).
    { unfold a1. destruct (_ && _); [|exact Hc].
      unfold DryerAudio.sendMIDINote.
      destruct (DryerAudio.midiOutput _); exact Hc. }
    assert (P1 : DryerAudio.played a1
                 = DryerAudio.played
                     (DryerAudio.assignNotesToSurfaces
                        (flat_map surfacesOf (seq 0 (Z.to_nat vz)))
                        (DryerApp.audio app0))).
    { unfold a1. destruct (_ && _); [|reflexivity].
      unfold DryerAudio.sendMIDINote.
      destruct (DryerAudio.midiOutput _); reflexivity. }
    unfold DryerAudio.playWebAudioNote. rewrite C1. cbn [negb].
    cbn [DryerAudio.played DryerAudio.set_played]. now rewrite P1.
Qed.

Lemma freshApp_configured :
  exists app,
    DryerApp.onParameterChange freshApp = Some app
    /\ vaneCount (DryerApp.physics app) = ofNat 4.
Proof.
  unfold DryerApp.onParameterChange.
  change (DryerUI.getParameters (DryerApp.ui freshApp))
    with (Some (DryerUI.mkParameters (Fin 18) (Fin 60) (Fin (IZR 4))
                  (Fin 30))).
  cbn [DryerUI.rpm DryerUI.drumSize DryerUI.vanes DryerUI.vaneHeight].
  rewrite (setParameters_run _ _ _ _ _ 4)
    by (rewrite jfloor_IZR; apply tripCount_IZR).
  eexists. split; [reflexivity|].
  cbn [DryerApp.physics vaneCount set_surfaces set_drumAngularVelocity
       set_vaneHeight set_vaneCount].
  rewrite ?jfloor_IZR, ?Int_part_IZR. unfold ofNat. f_equal. cbn. ring.
Qed.

Lemma collision_plays_and_highlights_witness :
  exists app,
    DryerApp.onParameterChange freshApp = Some app
    /\ let sf := drumSurface 1 in
       let app2 :=
         DryerApp.collisionListener sf (Fin 0.2) (Fin 5000) app in
       let note := Fin (36 + INR (3 * 1 + 0)) in
       In sf (surfaces (DryerApp.physics app))
       /\ DryerAudio.noteOf sf (DryerApp.audio app) = note
       /\ JSMap.get (surf_id sf)
            (DryerUI.activeCollisions (DryerApp.ui app2))
          = Some (Fin 1.0)
       /\ DryerApp.physics app2 = DryerApp.physics app
       /\ (DryerAudio.isInitialized (DryerApp.audio app) = true ->
           DryerAudio.audioContext (DryerApp.audio app) = true ->
           DryerAudio.played (DryerApp.audio app2)
           = (DryerAudio.played (DryerApp.audio app)
              ++ [DryerAudio.mkPlayedNote note
                    (DryerAudio.velocityMIDI (Fin 0.2))
                    (surf_color sf)])%list).
Proof.
  destruct freshApp_configured as (app & E & V).
  exists app. split; [exact E|].
  apply (collision_plays_and_highlights freshApp app 4 1 0 (drumSurface 1)
           0.2 5000); try reflexivity; try assumption.
  - exact constructor_uiOk.
  - lia.
Defined.

(** Stopping.  [stop()] does nothing unless the application is running.
    Otherwise, for a drum of positive radius with vanes lower than 70 %
    and a ball no larger than 70 % of the radius (every setting of the
    panel, with either preset ball), it puts the ball at rest at
    [(0.3 R, 0)], where nothing touches it, sets the drum angle to 0 and
    lets the highlights decay once; the angular velocity, the
    configuration, the debounce slot and the pending timers stay as they
    are. *)
Theorem stop_rests_ball (app : DryerApp.DryerApp) (r Rd h : R) (n : nat) :
  radius (ball (DryerApp.physics app)) = Fin r ->
  drumRadius (DryerApp.physics app) = Fin Rd ->
  vaneHeight (DryerApp.physics app) = Fin h ->
  vaneCount (DryerApp.physics app) = ofNat n ->
  0 < Rd -> 0 <= r <= 0.7 * Rd -> 0 <= h < 0.7 ->
  (DryerApp.isRunning app = false -> DryerApp.stop app = app)
  /\ (DryerApp.isRunning app = true ->
      let p := DryerApp.physics (DryerApp.stop app) in
      DryerApp.isRunning (DryerApp.stop app) = false
      /\ ball p
         = mkBall (Fin (Rd * 0.3)) (Fin 0) (Fin 0) (Fin 0) (Fin r)
             (mass (ball (DryerApp.physics app)))
             (restitution (ball (DryerApp.physics app)))
             (dragCoeff (ball (DryerApp.physics app)))
      /\ drumAngle p = Fin 0
      /\ stepFrame (DryerApp.physics app) p
      /\ lastCollisionSurface p
         = lastCollisionSurface (DryerApp.physics app)
      /\ timers p = timers (DryerApp.physics app)
      /\ handleCollisions p = Some p
      /\ DryerUI.activeCollisions (DryerApp.ui (DryerApp.stop app))
         = DryerUI.activeCollisions
             (DryerUI.updateCollisionHighlights (DryerApp.ui app))).
Proof.
  intros Hr HR Hh Hn PR Pr Ph. unfold DryerApp.stop. split; intros Hrun;
    rewrite Hrun; cbn [negb]; [reflexivity|].
  cbv zeta. cbn [DryerApp.physics DryerApp.isRunning DryerApp.ui].
  set (p0 := DryerApp.physics app) in *.
  assert (Hx : ball_x (ball (reset p0)) = Fin (Rd * 0.3)).
  { unfold reset. cbv zeta. ball_fields. cbn [ball set_drumAngle].
    ball_fields. rewrite HR. reflexivity. }
  assert (Hy : ball_y (ball (reset p0)) = Fin 0) by reflexivity.
  assert (Q : sqrt (Rd * 0.3 * (Rd * 0.3) + 0 * 0) = Rd * 0.3).
  { replace (Rd * 0.3 * (Rd * 0.3) + 0 * 0) with ((Rd * 0.3) * (Rd * 0.3))
      by ring.
    apply sqrt_square. lra. }
  split; [reflexivity|]. split.
  { unfold reset. cbv zeta. unfold assign_x, assign_y, assign_vx, assign_vy.
    cbn [ball set_ball set_drumAngle set_ball_x set_ball_y set_ball_vx
         set_ball_vy ball_x ball_y ball_vx ball_vy radius mass restitution
         dragCoeff drumRadius].
    rewrite HR, <- Hr. destruct (ball p0). reflexivity. }
  split; [reflexivity|]. split.
  { unfold stepFrame, reset. open_state p0. reflexivity. }
  split; [reflexivity|]. split; [reflexivity|]. split; [|reflexivity].
  unfold handleCollisions.
  rewrite (wallCollision_miss (reset p0) (Rd * 0.3) 0 r Rd Hx Hy Hr HR)
    by (rewrite Q; lra).
  apply (checkVaneCollisions_inner (reset p0) (Rd * 0.3) 0 Rd h n);
    auto; try lra.
  rewrite Q. nra.
Qed.

Lemma stop_rests_ball_witness :
  let p := DryerApp.physics (DryerApp.stop runningApp) in
  DryerApp.isRunning (DryerApp.stop runningApp) = false
  /\ ball p
     = mkBall (Fin (0.80 * 0.3)) (Fin 0) (Fin 0) (Fin 0) (Fin 0.035)
         (mass (ball (DryerApp.physics runningApp)))
         (restitution (ball (DryerApp.physics runningApp)))
         (dragCoeff (ball (DryerApp.physics runningApp)))
  /\ drumAngle p = Fin 0
  /\ stepFrame (DryerApp.physics runningApp) p
  /\ lastCollisionSurface p
     = lastCollisionSurface (DryerApp.physics runningApp)
  /\ timers p = timers (DryerApp.physics runningApp)
  /\ handleCollisions p = Some p
  /\ DryerUI.activeCollisions (DryerApp.ui (DryerApp.stop runningApp))
     = DryerUI.activeCollisions
         (DryerUI.updateCollisionHighlights (DryerApp.ui runningApp)).
Proof.
  apply (proj2 (stop_rests_ball runningApp 0.035 0.80 0.30 5
                  eq_refl eq_refl eq_refl eq_refl
                  ltac:(lra) ltac:(lra) ltac:(lra))).
  reflexivity.
Defined.

End Controller.
